(** * vscode-ghostty: terminal session manager and batch file-existence
      coordinator

    A shallow embedding of
    - [terminal-utils.ts]   (resolveConfig and the buffer constants),
    - [pty-service.ts]      (the PtyService instance table),
    - [terminal-manager.ts] (class TerminalManager),
    - [file-cache.ts]       (createFileCache),
    - [webview/panel-main.ts] (the batched file-existence checks),
    followed by the properties of the specification that concern them. *)

From Stdlib Require Import ZArith NArith Ascii String DecimalString DecimalNat.
From stdpp Require Import base option list gmap strings.

Set Default Proof Using "Type".
Set Warnings "-clear-no-such-hyp".
Local Open Scope string_scope.
Local Open Scope list_scope.

(** ** JavaScript strings

    A string whose content the code inspects (PTY output, titles, error
    messages) is the list of its UTF-16 code units.  Strings that are only
    compared or used as keys (terminal ids, paths, environment names) stay
    Rocq strings. *)

Module JS.

Definition str : Type := list N.

Definition lit (s : string) : str :=
map (fun a => N_of_ascii a) (list_ascii_of_string s).

(** Truthiness of a string: the empty string is falsy. *)
Definition truthy (s : str) : bool :=
match s with [] => false | _ :: _ => true end.

Definition ESC : N := 27.
Definition BEL : N := 7.
Definition slash : N := 47.
Definition backslash : N := 92.
Definition percent : N := 37.

Definition str_eqb (a b : str) : bool := bool_decide (a = b).

Fixpoint starts_with (p l : str) : bool :=
match p, l with
| [], _ => true
| c :: p', x :: l' => N.eqb c x && starts_with p' l'
| _ :: _, [] => false
end.

(** [String.prototype.includes] *)
Fixpoint includes (l p : str) : bool :=
starts_with p l ||
match l with
| [] => false
| _ :: l' => includes l' p
end.

(** Decimal rendering of a number in a template literal. *)
Definition of_nat (n : nat) : str :=
lit (NilZero.string_of_uint (Nat.to_uint n)).

(** *** Backtracking matchers

  A matcher consumes a prefix of the input and hands the rest to its
  continuation; when the continuation fails the matcher tries its next
  alternative, which is the order in which a JavaScript regular expression
  explores them. *)

Section Matchers.
Context {R : Type}.

Definition cont : Type := str -> option R.

(** A literal sequence of code units. *)
Fixpoint m_lit (p : str) (k : cont) (l : str) : option R :=
  match p with
  | [] => k l
  | c :: p' =>
      match l with
      | x :: l' => if N.eqb c x then m_lit p' k l' else None
      | [] => None
      end
  end.

(** [C*], greedy, without capture. *)
Fixpoint m_star (C : N -> bool) (k : cont) (l : str) : option R :=
  match l with
  | x :: l' =>
      if C x then
        match m_star C k l' with
        | Some r => Some r
        | None => k l
        end
      else k l
  | [] => k []
  end.

(** [(C* )], greedy, capturing; [acc] is the text captured so far. *)
Fixpoint m_star_cap (C : N -> bool) (acc : str)
         (k : str -> cont) (l : str) : option R :=
  match l with
  | x :: l' =>
      if C x then
        match m_star_cap C (acc ++ [x]) k l' with
        | Some r => Some r
        | None => k acc l
        end
      else k acc l
  | [] => k acc []
  end.

(** [(C+)], greedy, capturing. *)
Definition m_plus_cap (C : N -> bool) (k : str -> cont) (l : str)
  : option R :=
  match l with
  | x :: l' => if C x then m_star_cap C [x] k l' else None
  | [] => None
  end.

(** [a|b] *)
Definition m_alt (a b : cont -> cont) (k : cont) (l : str) : option R :=
  match a k l with
  | Some r => Some r
  | None => b k l
  end.

(** An unanchored search tries every start position from the left. *)
Fixpoint search (m : str -> option R) (l : str) : option R :=
  match m l with
  | Some r => Some r
  | None =>
      match l with
      | [] => None
      | _ :: l' => search m l'
      end
  end.
End Matchers.

(** *** decodeURIComponent

  The Decode operation of ECMAScript with an empty reserved set.  [None]
  stands for the URIError it throws. *)

Definition hex_val (c : N) : option N :=
if (48 <=? c)%N && (c <=? 57)%N then Some (c - 48)%N
else if (65 <=? c)%N && (c <=? 70)%N then Some (c - 55)%N
else if (97 <=? c)%N && (c <=? 102)%N then Some (c - 87)%N
else None.

(** Reads [%XX] at the head of the input. *)
Definition read_escape (l : str) : option (N * str) :=
match l with
| p :: h :: lo :: rest =>
    if N.eqb p percent then
      match hex_val h, hex_val lo with
      | Some a, Some b => Some (a * 16 + b, rest)%N
      | _, _ => None
      end
    else None
| _ => None
end.

(** Number of octets announced by a leading octet above 0x7F; [None] for a
  continuation octet (one leading 1 bit) or more than four. *)
Definition utf8_len (b : N) : option nat :=
if (b <? 192)%N then None
else if (b <? 224)%N then Some 2
else if (b <? 240)%N then Some 3
else if (b <? 248)%N then Some 4
else None.

(** Reads [n] further escapes. *)
Fixpoint read_octets (n : nat) (l : str) : option (list N * str) :=
match n with
| O => Some ([], l)
| S n' =>
    match read_escape l with
    | Some (b, rest) =>
        match read_octets n' rest with
        | Some (bs, rest') => Some (b :: bs, rest')
        | None => None
        end
    | None => None
    end
end.

Definition is_cont (b : N) : bool := (128 <=? b)%N && (b <=? 191)%N.

(** The code point encoded by a well-formed UTF-8 octet sequence. *)
Definition utf8_code_point (bs : list N) : option N :=
match bs with
| [b0; b1] =>
    if is_cont b1 then
      let v := ((b0 - 192) * 64 + (b1 - 128))%N in
      if (128 <=? v)%N then Some v else None
    else None
| [b0; b1; b2] =>
    if is_cont b1 && is_cont b2 then
      let v := ((b0 - 224) * 4096 + (b1 - 128) * 64 + (b2 - 128))%N in
      if (2048 <=? v)%N && negb ((55296 <=? v)%N && (v <=? 57343)%N)
      then Some v else None
    else None
| [b0; b1; b2; b3] =>
    if is_cont b1 && is_cont b2 && is_cont b3 then
      let v := ((b0 - 240) * 262144 + (b1 - 128) * 4096
                + (b2 - 128) * 64 + (b3 - 128))%N in
      if (65536 <=? v)%N && (v <=? 1114111)%N then Some v else None
    else None
| _ => None
end.

Definition utf16_encode (v : N) : str :=
if (v <? 65536)%N then [v]
else [(55296 + (v - 65536) / 1024)%N; (56320 + (v - 65536) mod 1024)%N].

(** The scan is written by recursion on the input: [skip] counts the code
  units of the escape sequence just decoded that are still to be passed
  over. *)
Fixpoint decode_go (skip : nat) (l : str) : option str :=
match l with
| [] => Some []
| c :: tl =>
    match skip with
    | S skip' => decode_go skip' tl
    | O =>
        if N.eqb c percent then
          match read_escape l with
          | None => None
          | Some (b, rest) =>
              if (b <? 128)%N then
                match decode_go 2 tl with
                | Some out => Some (b :: out)
                | None => None
                end
              else
                match utf8_len b with
                | None => None
                | Some n =>
                    match read_octets (n - 1) rest with
                    | None => None
                    | Some (bs, _) =>
                        match utf8_code_point (b :: bs) with
                        | None => None
                        | Some v =>
                            match decode_go (3 * n - 1) tl with
                            | Some out => Some (utf16_encode v ++ out)
                            | None => None
                            end
                        end
                    end
                end
          end
        else
          match decode_go 0 tl with
          | Some out => Some (c :: out)
          | None => None
          end
    end
end.

Definition decodeURIComponent (s : str) : option str := decode_go 0 s.

End JS.

(** ** Insertion-ordered maps

    A JavaScript [Map] iterates in insertion order; [set] on a present key
    keeps its position, [delete] followed by [set] moves it to the end. *)

Module OMap.
Section OMap.
Context {K V : Type} `{EqDecision K}.

Definition t : Type := list (K * V).

Fixpoint get (k : K) (m : t) : option V :=
  match m with
  | [] => None
  | (k', v) :: m' => if decide (k = k') then Some v else get k m'
  end.

Definition has (k : K) (m : t) : bool :=
  match get k m with Some _ => true | None => false end.

Fixpoint set (k : K) (v : V) (m : t) : t :=
  match m with
  | [] => [(k, v)]
  | (k', v') :: m' =>
      if decide (k = k') then (k, v) :: m' else (k', v') :: set k v m'
  end.

Fixpoint delete (k : K) (m : t) : t :=
  match m with
  | [] => []
  | (k', v') :: m' =>
      if decide (k = k') then delete k m' else (k', v') :: delete k m'
  end.

Definition keys (m : t) : list K := map fst m.
Definition values (m : t) : list V := map snd m.
Definition size (m : t) : nat := length m.
End OMap.
Arguments t : clear implicits.
End OMap.

(** ** Handlers as state-passing computations

    A handler runs to completion on the current state, leaves a log of the
    calls it made on its collaborators, and either returns or throws.  What
    was done before a throw stays done. *)

Module Eff.

Inductive exn : Type :=
| URIError.

Inductive result (A : Type) : Type :=
| Ok (a : A)
| Throw (e : exn).
Arguments Ok {A} a.
Arguments Throw {A} e.

Record outcome (St Ev A : Type) : Type := Outcome {
res : result A;
st : St;
log : list Ev;
}.
Arguments Outcome {St Ev A} res st log.
Arguments res {St Ev A} o.
Arguments st {St Ev A} o.
Arguments log {St Ev A} o.

Definition M (St Ev A : Type) : Type := St -> outcome St Ev A.

Section Ops.
Context {St Ev : Type}.

Definition ret {A} (a : A) : M St Ev A :=
  fun s => Outcome (Ok a) s [].

Definition bind {A B} (f : A -> M St Ev B) (m : M St Ev A) : M St Ev B :=
  fun s =>
    let o := m s in
    match res o with
    | Ok a =>
        let o' := f a (st o) in
        Outcome (res o') (st o') (log o ++ log o')
    | Throw e => Outcome (Throw e) (st o) (log o)
    end.

Definition throw {A} (e : exn) : M St Ev A :=
  fun s => Outcome (Throw e) s [].

Definition get : M St Ev St :=
  fun s => Outcome (Ok s) s [].

Definition modify (f : St -> St) : M St Ev unit :=
  fun s => Outcome (Ok tt) (f s) [].

Definition emit (e : Ev) : M St Ev unit :=
  fun s => Outcome (Ok tt) s [e].

Definition when (b : bool) (m : M St Ev unit) : M St Ev unit :=
  if b then m else ret tt.

(** [for (const x of l) body(x)] *)
Fixpoint for_each {A} (l : list A) (body : A -> M St Ev unit)
  : M St Ev unit :=
  match l with
  | [] => ret tt
  | x :: l' => bind (fun _ => for_each l' body) (body x)
  end.
End Ops.

#[global] Instance M_ret {St Ev} : MRet (M St Ev) := @ret St Ev.
#[global] Instance M_bind {St Ev} : MBind (M St Ev) := @bind St Ev.

(** [wp m Q s]: running [m] on [s] ends in a result, a state and a log that
  satisfy [Q]. *)
Definition wp {St Ev A} (m : M St Ev A)
         (Q : result A -> St -> list Ev -> Prop) (s : St) : Prop :=
Q (res (m s)) (st (m s)) (log (m s)).

(** [m] keeps [P], whether it returns or throws. *)
Definition preserves {St Ev A} (P : St -> Prop) (m : M St Ev A) : Prop :=
forall s, P s -> P (st (m s)).

(** [m] only logs effects that satisfy [phi]. *)
Definition logs_only {St Ev A} (phi : Ev -> Prop) (m : M St Ev A) : Prop :=
forall s, Forall phi (log (m s)).

End Eff.

(** ** types/terminal.ts and types/messages.ts *)

Definition TerminalId : Type := string.

Inductive TerminalLocation : Type :=
| panel
| editor.

Module Config.
(** [TerminalConfig]; every field is optional in the source, so
    [Partial<TerminalConfig>] is the same record. *)
Record t : Type := Make {
  shell : option string;
  cwd : option string;
  env : option (gmap string string);
  cols : option nat;
  rows : option nat;
  location : option TerminalLocation;
}.

Definition empty : t := Make None None None None None None.
End Config.

Record DisplaySettings : Type := {
  fontFamily : option string;
  fontSize : option nat;
}.

Inductive BellStyle : Type :=
| visual
| none.

Record RuntimeConfig : Type := {
  bellStyle : BellStyle;
}.

(** The colours of a [TerminalTheme], by field name; an absent key is an
    undefined field. *)
Definition TerminalTheme : Type := gmap string string.

(** [ExtensionMessage] and the panel-only kinds of
    [PanelExtensionMessage]. *)
Inductive ExtensionMessage : Type :=
| pty_data (terminalId : TerminalId) (data : JS.str)
| pty_exit (terminalId : TerminalId) (exitCode : Z)
| resize (terminalId : TerminalId) (cols rows : nat)
| update_settings (terminalId : TerminalId) (settings : DisplaySettings)
| update_theme (terminalId : TerminalId) (theme : TerminalTheme)
| update_cwd (terminalId : TerminalId) (cwd : JS.str)
| batch_file_exists_result (batchId : nat) (results : list (string * bool))
| update_config (config : RuntimeConfig)
| add_tab (terminalId : TerminalId) (title : JS.str) (makeActive : bool)
| remove_tab (terminalId : TerminalId)
| rename_tab (terminalId : TerminalId) (title : JS.str)
| activate_tab (terminalId : TerminalId)
| focus_terminal.

(** [WebviewMessage] *)
Inductive WebviewMessage : Type :=
| terminal_input (terminalId : TerminalId) (data : JS.str)
| terminal_resize (terminalId : TerminalId) (cols rows : nat)
| terminal_ready (terminalId : TerminalId) (cols rows : nat)
| open_url (terminalId : TerminalId) (url : string)
| open_file (terminalId : TerminalId) (path : string)
            (line column : option Z)
| batch_check_file_exists (terminalId : TerminalId) (batchId : nat)
                          (paths : list string)
| terminal_bell (terminalId : TerminalId).

(** [PanelWebviewMessage] *)
Inductive PanelWebviewMessage : Type :=
| common (m : WebviewMessage)
| panel_ready
| tab_activated (terminalId : TerminalId) (cols rows : nat)
| tab_close_requested (terminalId : TerminalId)
| new_tab_requested
| new_tab_requested_with_title (title : JS.str) (makeActive : bool)
| tab_renamed (terminalId : TerminalId) (title : JS.str)
| toggle_panel_requested.

(** ** terminal-utils.ts *)

Module TerminalUtils.

Definition DEFAULT_CONFIG : Config.t :=
  Config.Make None None None (Some 80) (Some 24) None.

Definition MAX_DATA_QUEUE_SIZE : nat := 1000.
Definition READY_TIMEOUT_MS : N := 10000.
Definition EXIT_CLOSE_DELAY_MS : N := 1500.

(** [{...a, ...b}] on one optional field: a value present in [b] wins.  A
    key present with the value undefined counts as absent. *)
Definition spread {A} (a b : option A) : option A :=
  match b with
  | Some x => Some x
  | None => a
  end.

(** [{...base, ...over}] on string-keyed objects. *)
Definition spread_obj (base over : gmap string string)
  : gmap string string := over ∪ base.

(** The three identification variables written between the two spreads. *)
Definition identification (base : gmap string string)
  : gmap string string :=
  <["COLORTERM" := "truecolor"]>
    (<["TERM_PROGRAM_VERSION" := "0.4.0"]>
       (<["TERM_PROGRAM" := "ghostty_vscode"]> base)).

(** [resolveConfig(partial)]; [process_env] is [process.env]. *)
Definition resolveConfig (process_env : gmap string string)
           (partial : option Config.t) : Config.t :=
  let p := default Config.empty partial in
  {| Config.shell := spread (Config.shell DEFAULT_CONFIG) (Config.shell p);
     Config.cwd := spread (Config.cwd DEFAULT_CONFIG) (Config.cwd p);
     Config.cols := spread (Config.cols DEFAULT_CONFIG) (Config.cols p);
     Config.rows := spread (Config.rows DEFAULT_CONFIG) (Config.rows p);
     Config.location :=
       spread (Config.location DEFAULT_CONFIG) (Config.location p);
     Config.env :=
       Some (spread_obj (identification process_env)
                        (default ∅ (partial ≫= Config.env))) |}.

End TerminalUtils.

(** ** terminal-manager.ts and pty-service.ts *)

Module Manager.

(** The [WebviewPanel] that [createWebviewPanel(extensionUri, id)]
    returned. *)
Record WebviewPanel : Type := { panel_for : TerminalId }.

(** The discriminant [location] together with what only one variant
    carries: an editor terminal owns its [panel]. *)
Inductive Surface : Type :=
| in_editor (panel : WebviewPanel)
| in_panel.

(** [TerminalInstance]; [readyTimeout] is the handle of the armed timer. *)
Record TerminalInstance : Type := Instance {
  inst_id : TerminalId;
  surface : Surface;
  config : Config.t;
  ready : bool;
  readyTimeout : option nat;
  dataQueue : list JS.str;
  currentCwd : option JS.str;
  title : JS.str;
  index : option nat;
}.

Definition location (i : TerminalInstance) : TerminalLocation :=
  match surface i with
  | in_editor _ => editor
  | in_panel => panel
  end.

Definition with_ready (b : bool) (i : TerminalInstance) :=
  Instance (inst_id i) (surface i) (config i) b (readyTimeout i)
           (dataQueue i) (currentCwd i) (title i) (index i).
Definition with_readyTimeout (h : option nat) (i : TerminalInstance) :=
  Instance (inst_id i) (surface i) (config i) (ready i) h
           (dataQueue i) (currentCwd i) (title i) (index i).
Definition with_dataQueue (q : list JS.str) (i : TerminalInstance) :=
  Instance (inst_id i) (surface i) (config i) (ready i) (readyTimeout i)
           q (currentCwd i) (title i) (index i).
Definition with_currentCwd (c : option JS.str) (i : TerminalInstance) :=
  Instance (inst_id i) (surface i) (config i) (ready i) (readyTimeout i)
           (dataQueue i) c (title i) (index i).
Definition with_title (t : JS.str) (i : TerminalInstance) :=
  Instance (inst_id i) (surface i) (config i) (ready i) (readyTimeout i)
           (dataQueue i) (currentCwd i) t (index i).

(** What [PtyService] keeps per spawned process; the size is the one last
    given to [pty.spawn] or [process.resize]. *)
Record PtyInstance : Type := {
  pty_cols : nat;
  pty_rows : nat;
}.

(** The callbacks handed to [setTimeout]. *)
Inductive Timer : Type :=
| ReadyTimeout (id : TerminalId)
| ExitClose (id : TerminalId)
| BellDismiss.

(** The fields of [TerminalManager] and of its [PtyService], and the
    timers that are armed. *)
Record State : Type := MkState {
  terminals : OMap.t TerminalId TerminalInstance;
  usedIndices : gset nat;
  instances : OMap.t TerminalId PtyInstance;
  timers : gmap nat Timer;
  nextTimer : nat;
}.

Definition initial : State := MkState [] ∅ [] ∅ 0.

Definition with_terminals (f : OMap.t TerminalId TerminalInstance ->
                               OMap.t TerminalId TerminalInstance)
           (s : State) : State :=
  MkState (f (terminals s)) (usedIndices s) (instances s) (timers s)
          (nextTimer s).
Definition with_usedIndices (f : gset nat -> gset nat) (s : State) :=
  MkState (terminals s) (f (usedIndices s)) (instances s) (timers s)
          (nextTimer s).
Definition with_instances (f : OMap.t TerminalId PtyInstance ->
                               OMap.t TerminalId PtyInstance)
           (s : State) : State :=
  MkState (terminals s) (usedIndices s) (f (instances s)) (timers s)
          (nextTimer s).
Definition with_timers (f : gmap nat Timer -> gmap nat Timer)
           (n : nat) (s : State) : State :=
  MkState (terminals s) (usedIndices s) (instances s) (f (timers s)) n.

(** Calls on the collaborators, in the order they are made. *)
Inductive Effect : Type :=
| WebviewPost (panel : WebviewPanel) (m : ExtensionMessage)
| PanelPost (m : ExtensionMessage)
| TreeAdd (id : TerminalId) (title : JS.str) (active : bool)
| TreeRemove (id : TerminalId)
| TreeRename (id : TerminalId) (title : JS.str)
| TreeSetActive (id : TerminalId)
| CreateWebviewPanel (id : TerminalId)
| DisposeWebviewPanel (panel : WebviewPanel)
| PtySpawn (id : TerminalId) (cfg : Config.t)
| PtyWrite (id : TerminalId) (data : JS.str)
| PtyResize (id : TerminalId) (cols rows : nat)
| PtyKill (id : TerminalId)
| SetTimeout (h : nat) (t : Timer) (ms : N)
| ClearTimeout (h : nat)
| ShowErrorMessage (m : JS.str)
| ShowInformationMessage (m : JS.str)
| ExecuteCommand (c : string)
| OpenExternal (url : string)
| OpenTextDocument (path : string) (position : option (Z * Z))
| StatFiles (id : TerminalId) (batchId : nat) (paths : list string)
| StatusBarShow
| StatusBarDispose.

(** What a handler reads from its surroundings while it runs. *)
Record Host : Type := {
  displaySettings : DisplaySettings;   (* getDisplaySettings() *)
  terminalTheme : TerminalTheme;       (* resolveTerminalTheme() *)
  bell : BellStyle;                    (* bootty.bell, default visual *)
  notifications : bool;                (* bootty.notifications *)
  workspaceCwd : option string;        (* getWorkspaceCwd() *)
  process_env : gmap string string;    (* process.env *)
  isVisible : bool;                    (* panelProvider.isVisible *)
  newTerminalId : TerminalId;          (* createTerminalId() *)
  spawnError : option JS.str;          (* the message pty.spawn throws *)
  uriScheme : string -> option string; (* Uri.parse(url, true).scheme *)
}.

Definition M : Type -> Type := Eff.M State Effect.

Definition emit (e : Effect) : M unit := Eff.emit e.
Definition get : M State := Eff.get.
Definition modify (f : State -> State) : M unit := Eff.modify f.

(** *** Timers *)

Definition setTimeout (t : Timer) (ms : N) : M nat :=
  s ← get;
  let h := nextTimer s in
  modify (with_timers (insert h t) (S h));;
  emit (SetTimeout h t ms);;
  mret h.

Definition clearTimeout (h : nat) : M unit :=
  modify (fun s => with_timers (delete h) (nextTimer s) s);;
  emit (ClearTimeout h).

(** *** PtyService *)

(** [a || b] on numbers: zero is falsy. *)
Definition or_number (a : option nat) (b : nat) : nat :=
  match a with
  | Some (S n) => S n
  | _ => b
  end.

(** [spawn]: [Some error] when the attempt throws, [None] when it
    succeeds. *)
Definition ptyService_spawn (host : Host) (id : TerminalId)
           (cfg : Config.t) : M (option JS.str) :=
  match spawnError host with
  | Some msg => mret (Some msg)
  | None =>
      emit (PtySpawn id cfg);;
      modify (with_instances
                (OMap.set id {| pty_cols := or_number (Config.cols cfg) 80;
                                pty_rows := or_number (Config.rows cfg) 24 |}));;
      mret None
  end.

Definition ptyService_write (id : TerminalId) (data : JS.str) : M unit :=
  s ← get;
  match OMap.get id (instances s) with
  | Some _ => emit (PtyWrite id data)
  | None => mret tt
  end.

Definition ptyService_resize (id : TerminalId) (cols rows : nat) : M unit :=
  s ← get;
  match OMap.get id (instances s) with
  | Some _ =>
      emit (PtyResize id cols rows);;
      modify (with_instances
                (OMap.set id {| pty_cols := cols; pty_rows := rows |}))
  | None => mret tt
  end.

Definition ptyService_kill (id : TerminalId) : M unit :=
  s ← get;
  match OMap.get id (instances s) with
  | Some _ =>
      emit (PtyKill id);;
      modify (with_instances (OMap.delete id))
  | None => mret tt
  end.

(** *** Index allocation *)

(** [while (usedIndices.has(index)) index++], unrolled [fuel] times. *)
Fixpoint first_free (used : gset nat) (fuel index : nat) : nat :=
  match fuel with
  | O => index
  | S fuel' =>
      if decide (index ∈ used) then first_free used fuel' (S index)
      else index
  end.

(** The loop leaves by its test after at most [size usedIndices]
    increments (lemma [first_free_spec]). *)
Definition getNextIndex : M nat :=
  s ← get;
  let index := first_free (usedIndices s) (S (size (usedIndices s))) 1 in
  modify (with_usedIndices (fun u => {[index]} ∪ u));;
  mret index.

Definition releaseIndex (index : option nat) : M unit :=
  match index with
  | Some i => modify (with_usedIndices (fun u => u ∖ {[i]}))
  | None => mret tt
  end.

(** *** Registry access *)

Definition lookup (id : TerminalId) : M (option TerminalInstance) :=
  s ← get; mret (OMap.get id (terminals s)).

(** A write through the reference obtained from [terminals.get(id)]. *)
Definition update (id : TerminalId)
           (f : TerminalInstance -> TerminalInstance) : M unit :=
  modify (with_terminals (fun m =>
    match OMap.get id m with
    | Some i => OMap.set id (f i) m
    | None => m
    end)).

Definition postToTerminal (id : TerminalId) (message : ExtensionMessage)
  : M unit :=
  instance ← lookup id;
  match instance with
  | None => mret tt
  | Some instance =>
      if negb (ready instance) then mret tt
      else
        match surface instance with
        | in_editor wp => emit (WebviewPost wp message)
        | in_panel => emit (PanelPost message)
        end
  end.

(** *** Control-sequence scanner *)

Definition not_slash (c : N) : bool := negb (N.eqb c JS.slash).
Definition not_bel_esc (c : N) : bool :=
  negb (N.eqb c JS.BEL) && negb (N.eqb c JS.ESC).
Definition is_digit (c : N) : bool := (48 <=? c)%N && (c <=? 57)%N.

(** BEL or ESC \ *)
Definition terminator {R} : @JS.cont R -> @JS.cont R :=
  JS.m_alt (JS.m_lit [JS.BEL]) (JS.m_lit [JS.ESC; JS.backslash]).

(** Group 1 of the OSC 7 pattern: ESC ] 7 ; file:// then a run of code
    units other than /, then a captured non-empty run of code units other
    than BEL and ESC, then BEL or ESC \. *)
Definition match_OSC7 (data : JS.str) : option JS.str :=
  JS.search
    (JS.m_lit (JS.ESC :: JS.lit "]7;file://")
       (JS.m_star not_slash
          (JS.m_plus_cap not_bel_esc
             (fun captured => terminator (fun _ => Some captured)))))
    data.

(** Group 1 of the OSC 9 pattern: ESC ] 9 ; then a captured, possibly
    empty run of code units other than BEL and ESC, then BEL or ESC \. *)
Definition match_OSC9 (data : JS.str) : option JS.str :=
  JS.search
    (JS.m_lit (JS.ESC :: JS.lit "]9;")
       (JS.m_star_cap not_bel_esc []
          (fun captured => terminator (fun _ => Some captured))))
    data.

Definition parseOSC7 (data : JS.str) : M (option JS.str) :=
  match match_OSC7 data with
  | Some group1 =>
      match JS.decodeURIComponent group1 with
      | Some decoded => mret (Some decoded)
      | None => Eff.throw Eff.URIError
      end
  | None => mret None
  end.

Definition parseOSC9 (data : JS.str) : option JS.str := match_OSC9 data.

(** Group 1 of [/^Terminal (\d+)$/]. *)
Definition match_title (title : JS.str) : option JS.str :=
  JS.m_lit (JS.lit "Terminal ")
    (JS.m_plus_cap is_digit
       (fun captured rest =>
          match rest with
          | [] => Some captured
          | _ :: _ => None
          end))
    title.

(** [parseInt(digits, 10)] on a string of decimal digits. *)
Definition parseInt (digits : JS.str) : nat :=
  fold_left (fun n c => 10 * n + N.to_nat (c - 48)) digits 0.

Definition handleOSC9Notification (host : Host) (message : JS.str)
  : M unit :=
  if negb (notifications host) then mret tt
  else emit (ShowInformationMessage message).

(** *** Creation *)

Definition spawnPty (host : Host) (id : TerminalId)
           (cfg : option Config.t) : M bool :=
  let resolvedConfig := TerminalUtils.resolveConfig (process_env host) cfg in
  result ← ptyService_spawn host id resolvedConfig;
  match result with
  | Some error =>
      emit (ShowErrorMessage
              (JS.lit "Failed to start terminal: " ++ error));;
      mret false
  | None => mret true
  end.

Definition timeout_message : JS.str :=
  JS.lit "Terminal failed to initialize (timeout)".

Definition armReadyTimeout (id : TerminalId) : M unit :=
  h ← setTimeout (ReadyTimeout id) TerminalUtils.READY_TIMEOUT_MS;
  update id (with_readyTimeout (Some h)).

Definition createEditorTerminal (host : Host) (cfg : option Config.t)
  : M (option TerminalId) :=
  let id := newTerminalId host in
  index ← getNextIndex;
  emit (CreateWebviewPanel id);;
  let wp := {| panel_for := id |} in
  let instance :=
    {| inst_id := id; surface := in_editor wp;
       config := default Config.empty cfg;
       ready := false; readyTimeout := None; dataQueue := [];
       currentCwd := None;
       title := JS.lit "Terminal " ++ JS.of_nat index;
       index := Some index |} in
  modify (with_terminals (OMap.set id instance));;
  spawned ← spawnPty host id cfg;
  if negb spawned then
    emit (DisposeWebviewPanel wp);;
    modify (with_terminals (OMap.delete id));;
    releaseIndex (Some index);;
    mret None
  else
    armReadyTimeout id;;
    mret (Some id).

Definition createPanelTerminal (host : Host) (cfg : option Config.t)
  : M (option TerminalId) :=
  let id := newTerminalId host in
  index ← getNextIndex;
  let title := JS.lit "Terminal " ++ JS.of_nat index in
  let instance :=
    {| inst_id := id; surface := in_panel;
       config := default Config.empty cfg;
       ready := false; readyTimeout := None; dataQueue := [];
       currentCwd := None; title := title; index := Some index |} in
  modify (with_terminals (OMap.set id instance));;
  spawned ← spawnPty host id cfg;
  if negb spawned then
    modify (with_terminals (OMap.delete id));;
    releaseIndex (Some index);;
    mret None
  else
    armReadyTimeout id;;
    emit (PanelPost (add_tab id title true));;
    emit (TreeAdd id title true);;
    mret (Some id).

Definition createPanelTerminalWithTitle (host : Host) (title : JS.str)
           (makeActive : bool) : M (option TerminalId) :=
  let id := newTerminalId host in
  let cwd := workspaceCwd host in
  let index := parseInt <$> match_title title in
  match index with
  | Some i => modify (with_usedIndices (fun u => {[i]} ∪ u))
  | None => mret tt
  end;;
  let cfg := Config.Make None cwd None None None None in
  let instance :=
    {| inst_id := id; surface := in_panel; config := cfg;
       ready := false; readyTimeout := None; dataQueue := [];
       currentCwd := None; title := title; index := index |} in
  modify (with_terminals (OMap.set id instance));;
  spawned ← spawnPty host id (Some cfg);
  if negb spawned then
    modify (with_terminals (OMap.delete id));;
    releaseIndex index;;
    mret None
  else
    armReadyTimeout id;;
    emit (PanelPost (add_tab id title makeActive));;
    emit (TreeAdd id title makeActive);;
    mret (Some id).

Definition createTerminal (host : Host) (cfg : option Config.t)
  : M (option TerminalId) :=
  match default panel (cfg ≫= Config.location) with
  | editor => createEditorTerminal host cfg
  | panel => createPanelTerminal host cfg
  end.

(** *** Teardown *)

Definition is_panel_terminal (t : TerminalInstance) : bool :=
  match surface t with
  | in_panel => true
  | in_editor _ => false
  end.

(** [panel.dispose()] fires [onDidDispose], whose nested
    [destroyTerminal(id)] returns at the guard because [id] has already
    been deleted; it leaves no trace in the log. *)
Definition destroyTerminal (host : Host) (id : TerminalId) : M unit :=
  instance ← lookup id;
  match instance with
  | None => mret tt
  | Some instance =>
      modify (with_terminals (OMap.delete id));;
      releaseIndex (index instance);;
      match readyTimeout instance with
      | Some h => clearTimeout h
      | None => mret tt
      end;;
      ptyService_kill id;;
      match surface instance with
      | in_editor wp => emit (DisposeWebviewPanel wp)
      | in_panel =>
          emit (PanelPost (remove_tab id));;
          emit (TreeRemove id);;
          s ← get;
          let remainingPanelTerminals :=
            filter (fun t => is_panel_terminal t = true)
                   (OMap.values (terminals s)) in
          if Nat.eqb (length remainingPanelTerminals) 0 && isVisible host
          then emit (ExecuteCommand "workbench.action.closePanel")
          else mret tt
      end
  end.

(** *** Data path *)

Definition handlePtyData (host : Host) (id : TerminalId) (data : JS.str)
  : M unit :=
  instance ← lookup id;
  match instance with
  | None => mret tt
  | Some instance =>
      cwd ← parseOSC7 data;
      match cwd with
      | Some cwd =>
          if JS.truthy cwd then
            update id (with_currentCwd (Some cwd));;
            if ready instance then postToTerminal id (update_cwd id cwd)
            else mret tt
          else mret tt
      | None => mret tt
      end;;
      match parseOSC9 data with
      | Some notification =>
          if JS.truthy notification
          then handleOSC9Notification host notification
          else mret tt
      | None => mret tt
      end;;
      if negb (ready instance) then
        if Nat.ltb (length (dataQueue instance))
                  TerminalUtils.MAX_DATA_QUEUE_SIZE
        then update id (fun i => with_dataQueue (dataQueue i ++ [data]) i)
        else mret tt
      else postToTerminal id (pty_data id data)
  end.

Definition getRuntimeConfig (host : Host) : RuntimeConfig :=
  {| bellStyle := bell host |}.

Definition handleTerminalReady (host : Host) (id : TerminalId)
           (cols rows : nat) : M unit :=
  instance ← lookup id;
  match instance with
  | None => mret tt
  | Some instance =>
      match readyTimeout instance with
      | Some h =>
          clearTimeout h;;
          update id (with_readyTimeout None)
      | None => mret tt
      end;;
      ptyService_resize id cols rows;;
      update id (with_ready true);;
      postToTerminal id (update_settings id (displaySettings host));;
      postToTerminal id (update_theme id (terminalTheme host));;
      postToTerminal id (update_config (getRuntimeConfig host));;
      Eff.for_each (dataQueue instance)
                   (fun data => postToTerminal id (pty_data id data));;
      update id (with_dataQueue [])
  end.

Definition handleTerminalInput (id : TerminalId) (data : JS.str) : M unit :=
  ptyService_write id data.

Definition handleTerminalResize (id : TerminalId) (cols rows : nat)
  : M unit :=
  ptyService_resize id cols rows.

Definition ALLOWED_URL_SCHEMES : list string :=
  ["http"; "https"; "mailto"; "ftp"; "ssh"; "git"; "tel"].

Definition handleOpenUrl (host : Host) (url : string) : M unit :=
  match uriScheme host url with
  | None => mret tt
  | Some scheme =>
      if bool_decide (scheme ∈ ALLOWED_URL_SCHEMES)
      then emit (OpenExternal url)
      else mret tt
  end.

Definition handleOpenFile (path : string) (line column : option Z)
  : M unit :=
  emit (OpenTextDocument path
          (match line with
           | Some l =>
               Some (Z.max 0 (l - 1),
                     match column with
                     | Some c => Z.max 0 (c - 1)
                     | None => 0
                     end)%Z
           | None => None
           end)).

(** Up to the [await]: the checks are started only for a registered
    terminal. *)
Definition handleBatchCheckFileExists (terminalId : TerminalId)
           (batchId : nat) (paths : list string) : M unit :=
  instance ← lookup terminalId;
  match instance with
  | None => mret tt
  | Some _ => emit (StatFiles terminalId batchId paths)
  end.

(** After the [await]: [exists_] tells which [fs.stat] calls succeeded. *)
Definition batchCheckCompleted (terminalId : TerminalId) (batchId : nat)
           (paths : list string) (exists_ : string -> bool) : M unit :=
  postToTerminal terminalId
    (batch_file_exists_result batchId
       (map (fun path => (path, exists_ path)) paths)).

Definition handleTerminalBell (host : Host) (id : TerminalId) : M unit :=
  instance ← lookup id;
  match instance with
  | None => mret tt
  | Some _ =>
      match bell host with
      | none => mret tt
      | visual =>
          emit StatusBarShow;;
          _ ← setTimeout BellDismiss 2000;
          mret tt
      end
  end.

Definition handlePtyExit (id : TerminalId) (exitCode : Z) : M unit :=
  instance ← lookup id;
  match instance with
  | None => mret tt
  | Some _ =>
      postToTerminal id (pty_exit id exitCode);;
      _ ← setTimeout (ExitClose id) TerminalUtils.EXIT_CLOSE_DELAY_MS;
      mret tt
  end.

Definition handlePtyError (host : Host) (id : TerminalId)
           (message : JS.str) : M unit :=
  instance ← lookup id;
  match instance with
  | None => mret tt
  | Some _ =>
      let isExpectedClose :=
        JS.includes message (JS.lit "EIO")
        || JS.includes message (JS.lit "EOF") in
      (if negb isExpectedClose
       then emit (ShowErrorMessage (JS.lit "Terminal error: " ++ message))
       else mret tt);;
      destroyTerminal host id
  end.

(** *** Message dispatch *)

Definition handleWebviewMessage (host : Host) (message : WebviewMessage)
  : M unit :=
  match message with
  | terminal_ready id cols rows => handleTerminalReady host id cols rows
  | terminal_input id data => handleTerminalInput id data
  | terminal_resize id cols rows => handleTerminalResize id cols rows
  | open_url _ url => handleOpenUrl host url
  | open_file _ path line column => handleOpenFile path line column
  | batch_check_file_exists id batchId paths =>
      handleBatchCheckFileExists id batchId paths
  | terminal_bell id => handleTerminalBell host id
  end.

Definition handleTabRenamed (id : TerminalId) (title : JS.str) : M unit :=
  update id (with_title title).

Definition handlePanelMessage (host : Host) (message : PanelWebviewMessage)
  : M unit :=
  match message with
  | panel_ready => mret tt
  | common (terminal_ready id cols rows) =>
      handleTerminalReady host id cols rows
  | tab_activated id cols rows =>
      handleTerminalResize id cols rows;;
      emit (TreeSetActive id)
  | tab_close_requested id => destroyTerminal host id
  | new_tab_requested =>
      _ ← createTerminal host
            (Some (Config.Make None (workspaceCwd host) None None None
                               (Some panel)));
      mret tt
  | new_tab_requested_with_title title makeActive =>
      _ ← createPanelTerminalWithTitle host title makeActive;
      mret tt
  | tab_renamed id title => handleTabRenamed id title
  | toggle_panel_requested => mret tt
  | common m => handleWebviewMessage host m
  end.

(** *** Broadcasts and renaming *)

Definition broadcast (mk : TerminalId -> ExtensionMessage) : M unit :=
  s ← get;
  Eff.for_each (terminals s)
    (fun '(id, instance) =>
       if ready instance then postToTerminal id (mk id) else mret tt).

Definition broadcastSettingsUpdate (host : Host) : M unit :=
  broadcast (fun id => update_settings id (displaySettings host)).

Definition broadcastThemeUpdate (host : Host) : M unit :=
  broadcast (fun id => update_theme id (terminalTheme host)).

Definition renameTerminal (id : TerminalId) (title : JS.str) : M unit :=
  instance ← lookup id;
  match instance with
  | None => mret tt
  | Some instance =>
      update id (with_title title);;
      match surface instance with
      | in_panel =>
          emit (PanelPost (rename_tab id title));;
          emit (TreeRename id title)
      | in_editor _ => mret tt
      end
  end.

(** *** Timer callbacks *)

(** The closures created by the three creation functions, by
    [handlePtyExit] and by [handleTerminalBell].  The ready-timeout
    closure reads [ready] through the instance it captured; that
    instance is the registered one whenever the timer is still armed
    (field [inv_timer] of [Inv], lemma [reachable_Inv]). *)
Definition runTimer (host : Host) (t : Timer) : M unit :=
  match t with
  | ReadyTimeout id =>
      instance ← lookup id;
      match instance with
      | Some instance =>
          if negb (ready instance) then
            emit (ShowErrorMessage timeout_message);;
            destroyTerminal host id
          else mret tt
      | None => mret tt
      end
  | ExitClose id => destroyTerminal host id
  | BellDismiss => emit StatusBarDispose
  end.

Definition fireTimer (host : Host) (h : nat) : M unit :=
  s ← get;
  match timers s !! h with
  | None => mret tt
  | Some t =>
      modify (with_timers (delete h) (nextTimer s));;
      runTimer host t
  end.

(** *** Events

    Everything that makes the manager run: its public methods, the two
    webview message channels, the callbacks given to [PtyService.spawn],
    the disposal of an editor panel, configuration changes and timers. *)
Inductive Event : Type :=
| CreateTerminal (cfg : option Config.t)
| PanelMessage (m : PanelWebviewMessage)
| EditorMessage (m : WebviewMessage)
| PanelDisposed (id : TerminalId)
| PtyData (id : TerminalId) (data : JS.str)
| PtyExit (id : TerminalId) (exitCode : Z)
| PtyError (id : TerminalId) (message : JS.str)
| StatCompleted (id : TerminalId) (batchId : nat) (paths : list string)
                (exists_ : string -> bool)
| SettingsChanged
| ThemeChanged
| DestroyTerminalById (id : TerminalId)
| RenameTerminal (id : TerminalId) (title : JS.str)
| TimerFired (h : nat).

Definition handle (host : Host) (e : Event) : M unit :=
  match e with
  | CreateTerminal cfg => _ ← createTerminal host cfg; mret tt
  | PanelMessage m => handlePanelMessage host m
  | EditorMessage m => handleWebviewMessage host m
  | PanelDisposed id => destroyTerminal host id
  | PtyData id data => handlePtyData host id data
  | PtyExit id exitCode => handlePtyExit id exitCode
  | PtyError id message =>
      handlePtyError host id message;;
      ptyService_kill id
  | StatCompleted id batchId paths exists_ =>
      batchCheckCompleted id batchId paths exists_
  | SettingsChanged => broadcastSettingsUpdate host
  | ThemeChanged => broadcastThemeUpdate host
  | DestroyTerminalById id => destroyTerminal host id
  | RenameTerminal id title => renameTerminal id title
  | TimerFired h => fireTimer host h
  end.

(** *** Runs *)

Definition step (host : Host) (e : Event) (s : State) : State :=
  Eff.st (handle host e s).

Definition effects (host : Host) (e : Event) (s : State) : list Effect :=
  Eff.log (handle host e s).

(** The events that call [createTerminalId()]. *)
Definition creating (e : Event) : bool :=
  match e with
  | CreateTerminal _ => true
  | PanelMessage new_tab_requested => true
  | PanelMessage (new_tab_requested_with_title _ _) => true
  | _ => false
  end.

(** [randomUUID()] does not return the id of a registered terminal. *)
Definition fresh (host : Host) (e : Event) (s : State) : Prop :=
  creating e = true -> OMap.get (newTerminalId host) (terminals s) = None.



(** States reached from [initial]; [past] lists what was handled, the
    latest event first.  [ok] is what is assumed of each event. *)
Inductive reachable_by (ok : Host -> Event -> State -> Prop)
  : list (Host * Event) -> State -> Prop :=
| reachable_initial : reachable_by ok [] initial
| reachable_step past s host e :
    reachable_by ok past s ->
    ok host e s ->
    reachable_by ok ((host, e) :: past) (step host e s).

Definition reachable : list (Host * Event) -> State -> Prop :=
  reachable_by fresh.


(** The ready handshake of terminal [id]. *)
Definition is_handshake (id : TerminalId) (e : Event) : bool :=
  match e with
  | PanelMessage (common (terminal_ready id' _ _)) => bool_decide (id' = id)
  | EditorMessage (terminal_ready id' _ _) => bool_decide (id' = id)
  | _ => false
  end.

(** Going back in time from the latest event, a handshake of [id] is met
    before any creation that used the id [id]. *)
Fixpoint handshaken (id : TerminalId) (past : list (Host * Event)) : bool :=
  match past with
  | [] => false
  | (host, e) :: past' =>
      if is_handshake id e then true
      else if creating e && bool_decide (newTerminalId host = id) then false
      else handshaken id past'
  end.

(** An output message for terminal [id] handed to a UI channel. *)
Definition is_output_for (id : TerminalId) (eff : Effect) : Prop :=
  exists data,
    eff = PanelPost (pty_data id data) \/
    exists wp, eff = WebviewPost wp (pty_data id data).

Definition is_post (eff : Effect) : bool :=
  match eff with
  | WebviewPost _ _ | PanelPost _ => true
  | _ => false
  end.

(** The buffer queue of terminal [id], when registered. *)
Definition queue_of (id : TerminalId) (s : State) : option (list JS.str) :=
  dataQueue <$> OMap.get id (terminals s).

(** *** Vocabulary of the properties *)

(** What [postToTerminal(id, m)] hands to a UI channel in state [s]. *)
Definition post_log (id : TerminalId) (m : ExtensionMessage) (s : State)
  : list Effect :=
  match OMap.get id (terminals s) with
  | Some instance =>
      if ready instance then
        match surface instance with
        | in_editor wp => [WebviewPost wp m]
        | in_panel => [PanelPost m]
        end
      else []
  | None => []
  end.

(** A message on the UI channel of instance [i]. *)
Definition channel_post (i : TerminalInstance) (m : ExtensionMessage)
  : Effect :=
  match surface i with
  | in_editor wp => WebviewPost wp m
  | in_panel => PanelPost m
  end.

Definition cancel (h : option nat) (t : gmap nat Timer) : gmap nat Timer :=
  match h with
  | Some h => delete h t
  | None => t
  end.

Definition release (n : option nat) (u : gset nat) : gset nat :=
  match n with
  | Some n => u ∖ {[n]}
  | None => u
  end.

(** The state that [destroyTerminal(id)] leaves when [id] was registered
    with instance [i]. *)
Definition destroyed (id : TerminalId) (i : TerminalInstance) (s : State)
  : State :=
  MkState (OMap.delete id (terminals s)) (release (index i) (usedIndices s))
          (OMap.delete id (instances s)) (cancel (readyTimeout i) (timers s))
          (nextTimer s).

(** Effects other than a [pty-data] message on a UI channel. *)
Definition no_output (eff : Effect) : Prop :=
  match eff with
  | WebviewPost _ (pty_data _ _) | PanelPost (pty_data _ _) => False
  | _ => True
  end.

(** What every reachable state satisfies: queues within the cap, a PTY
    entry for every registered terminal, and every armed ready-timeout
    timer recorded in the registered instance it belongs to. *)
Record Inv (s : State) : Prop := {
  inv_queue id i :
    OMap.get id (terminals s) = Some i ->
    length (dataQueue i) <= TerminalUtils.MAX_DATA_QUEUE_SIZE;
  inv_pty id i :
    OMap.get id (terminals s) = Some i -> is_Some (OMap.get id (instances s));
  inv_timer h id :
    timers s !! h = Some (ReadyTimeout id) ->
    exists i, OMap.get id (terminals s) = Some i /\ readyTimeout i = Some h;
}.

(** [usedIndices] is exactly the set of indices of the registered
    terminals, and no two of them share an index. *)
Record IndexInv (s : State) : Prop := {
  ix_used id i n :
    OMap.get id (terminals s) = Some i -> index i = Some n ->
    n ∈ usedIndices s;
  ix_owner n :
    n ∈ usedIndices s ->
    exists id i, OMap.get id (terminals s) = Some i /\ index i = Some n;
  ix_inj id1 id2 i1 i2 n :
    OMap.get id1 (terminals s) = Some i1 ->
    OMap.get id2 (terminals s) = Some i2 ->
    index i1 = Some n -> index i2 = Some n -> id1 = id2;
}.

Definition index_of (id : TerminalId) (s : State) : option (option nat) :=
  index <$> OMap.get id (terminals s).

Definition ready_of (id : TerminalId) (s : State) : option bool :=
  ready <$> OMap.get id (terminals s).

(** No terminal is ready in [s'] that was not ready in [s]. *)
Definition keeps_unready (s s' : State) : Prop :=
  forall id, ready_of id s' = Some true -> ready_of id s = Some true.

(** Postconditions of the handlers, by what they may do to readiness and
    to the UI channels: nothing, as a handshake of [id0], as output of
    [id0]. *)
Definition Quiet (s : State)
  : forall {A}, Eff.result A -> State -> list Effect -> Prop :=
  fun _ _ s' l => keeps_unready s s' /\ Forall no_output l.

Definition Handshake (id0 : TerminalId) (s : State)
  : forall {A}, Eff.result A -> State -> list Effect -> Prop :=
  fun _ _ s' l =>
    (forall id, ready_of id s' = Some true ->
                id = id0 \/ ready_of id s = Some true) /\
    Forall (fun eff => no_output eff \/ is_output_for id0 eff) l.

Definition Data (id0 : TerminalId) (s : State)
  : forall {A}, Eff.result A -> State -> list Effect -> Prop :=
  fun _ _ s' l =>
    keeps_unready s s' /\
    Forall (fun eff => no_output eff \/
                       (is_output_for id0 eff /\
                        ready_of id0 s = Some true)) l.

(** *** Concrete runs *)

Fixpoint run (s : State) (evs : list (Host * Event)) : State :=
  match evs with
  | [] => s
  | (host, e) :: evs' => run (step host e s) evs'
  end.

Definition freshb (host : Host) (e : Event) (s : State) : bool :=
  negb (creating e) || negb (OMap.has (newTerminalId host) (terminals s)).

Fixpoint all_fresh (s : State) (evs : list (Host * Event)) : bool :=
  match evs with
  | [] => true
  | (host, e) :: evs' => freshb host e s && all_fresh (step host e s) evs'
  end.

(** A host whose next terminal id is [id] and whose spawn succeeds. *)
Definition demo_host (id : TerminalId) : Host :=
  {| displaySettings := {| fontFamily := None; fontSize := None |};
     terminalTheme := ∅; bell := visual; notifications := true;
     workspaceCwd := None; process_env := ∅; isVisible := true;
     newTerminalId := id; spawnError := None;
     uriScheme := fun _ => None |}.

(** One panel terminal. *)
Definition one_events : list (Host * Event) :=
  [ (demo_host "A", CreateTerminal None) ].

Definition one_state : State := run initial one_events.

(** One panel terminal that has buffered 1000 chunks. *)
Definition full_events : list (Host * Event) :=
  (demo_host "A", CreateTerminal None)
    :: repeat (demo_host "A", PtyData "A" (JS.lit "x")) 1000.

Definition full_state : State := run initial full_events.

(** Creation, handshake, PTY exit, then the tab is closed before the
    grace delay has elapsed. *)
Definition closed_events : list (Host * Event) :=
  [ (demo_host "A", CreateTerminal None);
    (demo_host "A", PanelMessage (common (terminal_ready "A" 80 24)));
    (demo_host "A", PtyExit "A" 0);
    (demo_host "A", PanelMessage (tab_close_requested "A")) ].

(** ESC ] 7 ; file://host/% BEL: a working-directory report whose path
    ends in a lone percent sign. *)
Definition bad_chunk : JS.str :=
  JS.ESC :: JS.lit "]7;file://host/%" ++ [JS.BEL].

(** The three identification variables of [resolveConfig] and the values
    it writes for them. *)
Definition forced (name : string) : option string :=
  if bool_decide (name = "TERM_PROGRAM") then Some "ghostty_vscode"
  else if bool_decide (name = "TERM_PROGRAM_VERSION") then Some "0.4.0"
  else if bool_decide (name = "COLORTERM") then Some "truecolor"
  else None.

(** Every PTY entry belongs to a registered terminal. *)
Definition NoOrphan (s : State) : Prop :=
  forall id, is_Some (OMap.get id (instances s)) ->
             is_Some (OMap.get id (terminals s)).

(** A terminal whose ready timeout is armed still awaits its handshake. *)
Definition Awaiting (s : State) : Prop :=
  forall id i h,
    OMap.get id (terminals s) = Some i -> readyTimeout i = Some h ->
    ready i = false.

(** The registry lists every terminal id once. *)
Definition Distinct (s : State) : Prop := NoDup (OMap.keys (terminals s)).

(** An effect that opens nothing, or a URL whose scheme is on the list. *)
Definition url_allowed (host : Host) (eff : Effect) : Prop :=
  match eff with
  | OpenExternal url =>
      exists scheme,
        uriScheme host url = Some scheme /\ scheme ∈ ALLOWED_URL_SCHEMES
  | _ => True
  end.

(** What a broadcast of [mk] hands to the UI channels in state [s]. *)
Definition ready_channels (mk : TerminalId -> ExtensionMessage) (s : State)
  : list Effect :=
  flat_map (fun '(id, i) => if ready i then [channel_post i (mk id)] else [])
           (terminals s).


(** A host for which every URL parses with the scheme https. *)
Definition browsing_host : Host :=
  {| displaySettings := {| fontFamily := None; fontSize := None |};
     terminalTheme := ∅; bell := visual; notifications := true;
     workspaceCwd := None; process_env := ∅; isVisible := true;
     newTerminalId := "A"; spawnError := None;
     uriScheme := fun _ => Some "https" |}.

(** One panel terminal that has completed its handshake. *)
Definition ready_events : list (Host * Event) :=
  [ (demo_host "A", CreateTerminal None);
    (demo_host "A", PanelMessage (common (terminal_ready "A" 80 24))) ].

Definition ready_state : State := run initial ready_events.





(** One panel terminal that has buffered three chunks. *)
Definition three_events : list (Host * Event) :=
  [ (demo_host "A", CreateTerminal None);
    (demo_host "A", PtyData "A" (JS.lit "a"));
    (demo_host "A", PtyData "A" (JS.lit "b"));
    (demo_host "A", PtyData "A" (JS.lit "c")) ].

Definition three_state : State := run initial three_events.

End Manager.

(** ** file-cache.ts *)

Module FileCache.

Record CacheEntry : Type := {
  exists_ : bool;
  timestamp : Z;
}.

(** The closure state of [createFileCache(ttlMs, maxSize)]. *)
Record t : Type := Make {
  ttlMs : Z;
  maxSize : nat;
  cache : OMap.t string CacheEntry;
}.

Definition createFileCache (ttlMs : Z) (maxSize : nat) : t :=
  Make ttlMs maxSize [].

Definition with_cache (m : OMap.t string CacheEntry) (c : t) : t :=
  Make (ttlMs c) (maxSize c) m.

(** [get(path)] at time [now = Date.now()]: the value and the cache
    afterwards. *)
Definition get (now : Z) (path : string) (c : t) : option bool * t :=
  match OMap.get path (cache c) with
  | None => (None, c)
  | Some entry =>
      if (now - timestamp entry >? ttlMs c)%Z then
        (None, with_cache (OMap.delete path (cache c)) c)
      else
        (Some (exists_ entry),
         with_cache (OMap.set path entry (OMap.delete path (cache c))) c)
  end.

(** [if (firstKey) cache.delete(firstKey)]: no key and the empty key are
    both falsy. *)
Definition evict_first (m : OMap.t string CacheEntry)
  : OMap.t string CacheEntry :=
  match OMap.keys m with
  | firstKey :: _ =>
      if bool_decide (firstKey = "") then m else OMap.delete firstKey m
  | [] => m
  end.

Definition set (now : Z) (path : string) (exists_ : bool) (c : t) : t :=
  let m :=
    if OMap.has path (cache c) then OMap.delete path (cache c)
    else if bool_decide (maxSize c <= OMap.size (cache c))
         then evict_first (cache c)
         else cache c in
  with_cache
    (OMap.set path {| exists_ := exists_; timestamp := now |} m) c.

Definition clear (c : t) : t := with_cache [] c.
Definition size (c : t) : nat := OMap.size (cache c).

End FileCache.

(** ** webview/panel-main.ts: batched file-existence checks *)

Module Webview.

(** A callback stored in a batch is the [resolve] function of the promise
    returned to one caller; it is identified by the number of that
    promise. *)
Definition Callback : Type := nat.

Definition Batch : Type := OMap.t string (list Callback).

(** The variables of the script that the checks use.  [batchDebounceTimer]
    holds the terminal id captured by the armed debounce callback;
    [batchTimeouts] lists the batches whose 2000 ms timer has not fired
    yet (these timers are never cleared). *)
Record State : Type := MkState {
  fileCache : FileCache.t;
  nextBatchId : nat;
  pendingBatches : OMap.t nat Batch;
  currentBatchCallbacks : Batch;
  currentBatchId : nat;
  batchDebounceTimer : option TerminalId;
  batchTimeouts : list nat;
  nextPromise : nat;
}.

Definition BATCH_DEBOUNCE_MS : N := 50.

(** [nextBatchId = 0; currentBatchId = nextBatchId++] *)
Definition initial : State :=
  MkState (FileCache.createFileCache 5000 100) 1 [] [] 0 None [] 0.

Inductive Effect : Type :=
| PostMessage (m : WebviewMessage)
| Resolve (promise : Callback) (value : bool).

Definition M : Type -> Type := Eff.M State Effect.

Definition emit (e : Effect) : M unit := Eff.emit e.
Definition get : M State := Eff.get.
Definition modify (f : State -> State) : M unit := Eff.modify f.

Definition with_fileCache (f : FileCache.t -> FileCache.t) (s : State) :=
  MkState (f (fileCache s)) (nextBatchId s) (pendingBatches s)
          (currentBatchCallbacks s) (currentBatchId s)
          (batchDebounceTimer s) (batchTimeouts s) (nextPromise s).
Definition with_pendingBatches (f : OMap.t nat Batch -> OMap.t nat Batch)
           (s : State) :=
  MkState (fileCache s) (nextBatchId s) (f (pendingBatches s))
          (currentBatchCallbacks s) (currentBatchId s)
          (batchDebounceTimer s) (batchTimeouts s) (nextPromise s).
Definition with_currentBatchCallbacks (f : Batch -> Batch) (s : State) :=
  MkState (fileCache s) (nextBatchId s) (pendingBatches s)
          (f (currentBatchCallbacks s)) (currentBatchId s)
          (batchDebounceTimer s) (batchTimeouts s) (nextPromise s).
Definition with_batchDebounceTimer (t : option TerminalId) (s : State) :=
  MkState (fileCache s) (nextBatchId s) (pendingBatches s)
          (currentBatchCallbacks s) (currentBatchId s)
          t (batchTimeouts s) (nextPromise s).
Definition with_batchTimeouts (f : list nat -> list nat) (s : State) :=
  MkState (fileCache s) (nextBatchId s) (pendingBatches s)
          (currentBatchCallbacks s) (currentBatchId s)
          (batchDebounceTimer s) (f (batchTimeouts s)) (nextPromise s).

(** [new Promise(...)]: the number of the promise created. *)
Definition newPromise : M Callback :=
  s ← get;
  modify (fun s =>
    MkState (fileCache s) (nextBatchId s) (pendingBatches s)
            (currentBatchCallbacks s) (currentBatchId s)
            (batchDebounceTimer s) (batchTimeouts s) (S (nextPromise s)));;
  mret (nextPromise s).

Definition fileCache_get (now : Z) (path : string) : M (option bool) :=
  s ← get;
  let '(cached, c) := FileCache.get now path (fileCache s) in
  modify (with_fileCache (fun _ => c));;
  mret cached.

Definition fileCache_set (now : Z) (path : string) (exists_ : bool)
  : M unit :=
  modify (with_fileCache (FileCache.set now path exists_)).

(** The body of the per-batch [setTimeout] callback. *)
Definition batchTimeout (now : Z) (batchId : nat) : M unit :=
  s ← get;
  match OMap.get batchId (pendingBatches s) with
  | Some batch =>
      modify (with_pendingBatches (OMap.delete batchId));;
      Eff.for_each batch (fun '(path, callbacks) =>
        fileCache_set now path false;;
        Eff.for_each callbacks (fun cb => emit (Resolve cb false)))
  | None => mret tt
  end.

Definition flushBatchFileChecks (terminalId : TerminalId) : M unit :=
  s ← get;
  if Nat.eqb (OMap.size (currentBatchCallbacks s)) 0 then mret tt
  else
    let batchId := currentBatchId s in
    let batchCallbacks := currentBatchCallbacks s in
    modify (with_pendingBatches (OMap.set batchId batchCallbacks));;
    modify (fun s =>
      MkState (fileCache s) (S (nextBatchId s)) (pendingBatches s)
              [] (nextBatchId s)
              (batchDebounceTimer s) (batchTimeouts s) (nextPromise s));;
    let paths := OMap.keys batchCallbacks in
    emit (PostMessage (batch_check_file_exists terminalId batchId paths));;
    modify (with_batchTimeouts (fun l => l ++ [batchId])).

(** [_checkFileExists(path, terminalId)]; the result is the promise
    handed to the caller.  [Promise.resolve(cached)] is a promise that is
    resolved from the start. *)
Definition checkFileExists (now : Z) (path : string)
           (terminalId : TerminalId) : M Callback :=
  cached ← fileCache_get now path;
  match cached with
  | Some value =>
      p ← newPromise;
      emit (Resolve p value);;
      mret p
  | None =>
      resolve ← newPromise;
      s ← get;
      match OMap.get path (currentBatchCallbacks s) with
      | Some existing =>
          modify (with_currentBatchCallbacks
                    (OMap.set path (existing ++ [resolve])))
      | None =>
          modify (with_currentBatchCallbacks (OMap.set path [resolve]))
      end;;
      modify (with_batchDebounceTimer (Some terminalId));;
      mret resolve
  end.

(** The body of the debounce [setTimeout] callback. *)
Definition debounceFired : M unit :=
  s ← get;
  match batchDebounceTimer s with
  | Some terminalId =>
      modify (with_batchDebounceTimer None);;
      flushBatchFileChecks terminalId
  | None => mret tt
  end.

(** The [batch-file-exists-result] case of the message listener. *)
Definition batchFileExistsResult (now : Z) (batchId : nat)
           (results : list (string * bool)) : M unit :=
  s ← get;
  match OMap.get batchId (pendingBatches s) with
  | Some batch =>
      modify (with_pendingBatches (OMap.delete batchId));;
      Eff.for_each results (fun '(path, exists_) =>
        match OMap.get path batch with
        | Some callbacks =>
            fileCache_set now path exists_;;
            Eff.for_each callbacks (fun cb => emit (Resolve cb exists_))
        | None => mret tt
        end)
  | None => mret tt
  end.

(** What makes this part of the script run; each event comes with the
    value of [Date.now()] while it is handled. *)
Inductive Event : Type :=
| CheckFileExists (path : string) (terminalId : TerminalId)
| DebounceFired
| BatchTimeoutFired (batchId : nat)
| BatchFileExistsResult (batchId : nat) (results : list (string * bool)).

Definition handle (now : Z) (e : Event) : M unit :=
  match e with
  | CheckFileExists path terminalId =>
      _ ← checkFileExists now path terminalId; mret tt
  | DebounceFired => debounceFired
  | BatchTimeoutFired batchId =>
      s ← get;
      if bool_decide (batchId ∈ batchTimeouts s) then
        modify (with_batchTimeouts
                  (filter (fun b => b ≠ batchId)));;
        batchTimeout now batchId
      else mret tt
  | BatchFileExistsResult batchId results =>
      batchFileExistsResult now batchId results
  end.

(** *** Vocabulary of the properties *)

Definition step (now : Z) (e : Event) (s : State) : State :=
  Eff.st (handle now e s).

Definition effects (now : Z) (e : Event) (s : State) : list Effect :=
  Eff.log (handle now e s).

(** Handling a list of timed events, the earliest first. *)
Fixpoint run (s : State) (evs : list (Z * Event)) : State :=
  match evs with
  | [] => s
  | (now, e) :: evs' => run (step now e s) evs'
  end.

(** Everything posted and resolved while [evs] is handled. *)
Fixpoint run_log (s : State) (evs : list (Z * Event)) : list Effect :=
  match evs with
  | [] => []
  | (now, e) :: evs' => effects now e s ++ run_log (step now e s) evs'
  end.

Inductive reachable : State -> Prop :=
| reachable_initial : reachable initial
| reachable_step now e s : reachable s -> reachable (step now e s).

(** Callback [p] is stored under [path] in [batch]. *)
Definition holds_at (batch : Batch) (path : string) (p : Callback) : Prop :=
  exists callbacks, OMap.get path batch = Some callbacks /\ p ∈ callbacks.

(** ... in the batch that is still collecting. *)
Definition cur_at (s : State) (path : string) (p : Callback) : Prop :=
  holds_at (currentBatchCallbacks s) path p.

(** ... in the sealed batch [b] that awaits its reply. *)
Definition pend_at (s : State) (b : nat) (path : string) (p : Callback)
  : Prop :=
  exists batch,
    OMap.get b (pendingBatches s) = Some batch /\ holds_at batch path p.

(** The cache and the resolutions left by the timeout loop over
    [batch]. *)
Definition timeout_cache (now : Z) (batch : Batch) (c : FileCache.t)
  : FileCache.t :=
  fold_left (fun c '(path, _) => FileCache.set now path false c) batch c.

Definition timeout_log (batch : Batch) : list Effect :=
  flat_map (fun '(_, callbacks) => map (fun cb => Resolve cb false) callbacks)
           batch.

(** The cache and the resolutions left by the reply loop over
    [results]. *)
Definition reply_cache (now : Z) (batch : Batch)
           (results : list (string * bool)) (c : FileCache.t) : FileCache.t :=
  fold_left (fun c '(path, exists_) =>
               match OMap.get path batch with
               | Some _ => FileCache.set now path exists_ c
               | None => c
               end) results c.

Definition reply_log (batch : Batch) (results : list (string * bool))
  : list Effect :=
  flat_map (fun '(path, exists_) =>
              match OMap.get path batch with
              | Some callbacks => map (fun cb => Resolve cb exists_) callbacks
              | None => []
              end) results.

(** The state after the collecting batch has been sealed and sent, and the
    request that was posted. *)
Definition sealed (terminalId : TerminalId) (s : State) : State :=
  MkState (fileCache s) (S (nextBatchId s))
          (OMap.set (currentBatchId s) (currentBatchCallbacks s)
                    (pendingBatches s))
          [] (nextBatchId s) None
          (batchTimeouts s ++ [currentBatchId s]) (nextPromise s).

Definition request (terminalId : TerminalId) (s : State) : Effect :=
  PostMessage (batch_check_file_exists terminalId (currentBatchId s)
                 (OMap.keys (currentBatchCallbacks s))).

(** The state after a cache miss has stored callback [p] under [path], and
    after a cache hit. *)
Definition registered (path : string) (p : Callback) (terminalId : TerminalId)
           (c : FileCache.t) (s : State) : State :=
  MkState c (nextBatchId s) (pendingBatches s)
          (OMap.set path
             (match OMap.get path (currentBatchCallbacks s) with
              | Some existing => existing ++ [p]
              | None => [p]
              end)
             (currentBatchCallbacks s))
          (currentBatchId s) (Some terminalId) (batchTimeouts s)
          (S (nextPromise s)).

Definition answered (c : FileCache.t) (s : State) : State :=
  MkState c (nextBatchId s) (pendingBatches s) (currentBatchCallbacks s)
          (currentBatchId s) (batchDebounceTimer s) (batchTimeouts s)
          (S (nextPromise s)).

(** The state after batch [batchId] has left [pendingBatches]. *)
Definition settled (batchId : nat) (c : FileCache.t) (s : State) : State :=
  MkState c (nextBatchId s) (OMap.delete batchId (pendingBatches s))
          (currentBatchCallbacks s) (currentBatchId s)
          (batchDebounceTimer s) (batchTimeouts s) (nextPromise s).

Definition disarmed (batchId : nat) (s : State) : State :=
  with_batchTimeouts (filter (fun b => b <> batchId)) s.

(** What every reachable state satisfies: paths are listed once per batch,
    a pending batch is older than the collecting one and has its timeout
    armed, the cache keeps its parameters, and a callback is stored in one
    place only. *)
Record WInv (s : State) : Prop := {
  w_keys : NoDup (OMap.keys (currentBatchCallbacks s));
  w_pend_keys b batch :
    OMap.get b (pendingBatches s) = Some batch -> NoDup (OMap.keys batch);
  w_lt b : is_Some (OMap.get b (pendingBatches s)) -> b < currentBatchId s;
  w_armed b : is_Some (OMap.get b (pendingBatches s)) -> b ∈ batchTimeouts s;
  w_ttl : FileCache.ttlMs (fileCache s) = 5000%Z;
  w_max : FileCache.maxSize (fileCache s) = 100;
  w_next : currentBatchId s < nextBatchId s;
  w_bound_cur path p : cur_at s path p -> p < nextPromise s;
  w_bound_pend b path p : pend_at s b path p -> p < nextPromise s;
  w_cur_pend path path' b p : cur_at s path p -> pend_at s b path' p -> False;
  w_pend_pend b b' path path' p :
    pend_at s b path p -> pend_at s b' path' p -> b = b' /\ path = path';
  w_cur_cur path path' p : cur_at s path p -> cur_at s path' p -> path = path';
}.

(** Events during which the debounce timer does not expire. *)
Definition window (evs : list (Z * Event)) : Prop :=
  Forall (fun '(_, e) => e <> DebounceFired) evs.

(** Events during which batch [b] gets neither its reply nor its
    timeout. *)
Definition in_flight (b : nat) (evs : list (Z * Event)) : Prop :=
  Forall (fun '(_, e) =>
            e <> BatchTimeoutFired b /\
            forall results, e <> BatchFileExistsResult b results) evs.

Definition occurrences (path : string) (paths : list string) : nat :=
  length (filter (fun x => x = path) paths).

(** Callback [p] has been handed out and is stored nowhere. *)
Definition unheld (s : State) (p : Callback) : Prop :=
  (forall path, ~ cur_at s path p) /\
  (forall b path, ~ pend_at s b path p) /\
  p < nextPromise s.

(** The map that [set] writes into, after it has made room. *)
Definition room (path : string) (c : FileCache.t)
  : OMap.t string FileCache.CacheEntry :=
  if OMap.has path (FileCache.cache c)
  then OMap.delete path (FileCache.cache c)
  else if bool_decide (FileCache.maxSize c <= OMap.size (FileCache.cache c))
       then FileCache.evict_first (FileCache.cache c)
       else FileCache.cache c.


(** One check of [a], then the debounce timer expires. *)
Definition sealed_events : list (Z * Event) :=
  [ (0%Z, CheckFileExists "a" "T"); (60%Z, DebounceFired) ].

Definition sealed_state : State := run initial sealed_events.

(** What a reply that lists every path of [batch] resolves, [ex] telling
    which paths exist. *)
Definition answers (ex : string -> bool) (batch : Batch) : list Effect :=
  flat_map (fun '(path, callbacks) =>
              map (fun cb => Resolve cb (ex path)) callbacks) batch.

End Webview.

(** ** settings-resolver.ts *)

Module SettingsResolver.

(** [ConfigGetter]: [get(section, key)], by the type that is asked for.  A
    font size is a whole number of pixels. *)
Record ConfigGetter : Type := {
  get_string : string -> string -> option string;
  get_number : string -> string -> option nat;
}.

(** [a || b] where [a] may be undefined: the empty string and zero are
    falsy. *)
Definition or_string (a : option string) (b : string) : string :=
  match a with
  | Some s => if String.eqb s "" then b else s
  | None => b
  end.

Definition or_nat (a : option nat) (b : nat) : nat :=
  match a with
  | Some (S n) => S n
  | _ => b
  end.

Definition resolveDisplaySettings (config : ConfigGetter) : DisplaySettings :=
  let fontFamily :=
    or_string (get_string config "ghostty" "fontFamily")
      (or_string (get_string config "editor" "fontFamily") "monospace") in
  let fontSize :=
    or_nat (get_number config "ghostty" "fontSize")
      (or_nat (get_number config "editor" "fontSize") 15) in
  {| fontFamily := Some fontFamily; fontSize := Some fontSize |}.

End SettingsResolver.

(** ** keybinding-utils.ts *)

Module Keybinding.

Record KeyEvent : Type := {
  key : JS.str;
  metaKey : bool;
  ctrlKey : bool;
  shiftKey : bool;
  altKey : bool;
}.

(** [true]: the terminal handled the key; [false]: the key bubbles to
    VS Code; [undefined]: default terminal processing. *)
Inductive KeyHandlerResult : Type :=
| handled
| bubble
| default_processing.

Definition is_letter (c : N) : bool :=
  ((65 <=? c)%N && (c <=? 90)%N) || ((97 <=? c)%N && (c <=? 122)%N).

(** [event.key.length === 1 && /[a-zA-Z]/.test(event.key)] *)
Definition single_letter (k : JS.str) : bool :=
  Nat.eqb (length k) 1 && existsb is_letter k.

Definition isSearchShortcut (event : KeyEvent) (isMac : bool) : bool :=
  if isMac then metaKey event && JS.str_eqb (key event) (JS.lit "f")
  else ctrlKey event && JS.str_eqb (key event) (JS.lit "f").

Definition getKeyHandlerResult (event : KeyEvent) (isMac hasSelection : bool)
  : KeyHandlerResult :=
  if isMac then
    if metaKey event then bubble
    else if ctrlKey event && negb (altKey event) && single_letter (key event)
    then default_processing
    else default_processing
  else
    if ctrlKey event then
      if shiftKey event then bubble
      else if JS.str_eqb (key event) (JS.lit "c") && hasSelection then bubble
      else if negb (altKey event) && single_letter (key event)
      then default_processing
      else bubble
    else default_processing.

End Keybinding.

(** ** file-cache.ts: path resolution *)

Module PathUtils.

(** [/^[a-zA-Z]:/.test(path)] *)
Definition drive_prefix (path : JS.str) : bool :=
  match path with
  | c :: colon :: _ => Keybinding.is_letter c && N.eqb colon 58
  | _ => false
  end.

Definition isAbsolutePath (path : JS.str) : bool :=
  JS.starts_with (JS.lit "/") path || drive_prefix path.

Definition stripGitDiffPrefix (path : JS.str) : JS.str :=
  if JS.starts_with (JS.lit "a/") path || JS.starts_with (JS.lit "b/") path
  then drop 2 path
  else path.

(** [resolvePath(path, cwd)]; a missing and an empty [cwd] are both
    falsy. *)
Definition resolvePath (path : JS.str) (cwd : option JS.str) : JS.str :=
  if isAbsolutePath path then path
  else
    let path := stripGitDiffPrefix path in
    match cwd with
    | Some (c :: cwd') => (c :: cwd') ++ JS.lit "/" ++ path
    | _ => path
    end.

End PathUtils.

(** * Properties *)

Arguments JS.lit : simpl never.
Arguments JS.of_nat : simpl never.
Arguments Manager.first_free : simpl never.
Arguments Manager.match_title : simpl never.
Arguments Manager.match_OSC7 : simpl never.
Arguments Manager.match_OSC9 : simpl never.
Arguments JS.decodeURIComponent : simpl never.
Arguments JS.includes : simpl never.

(** ** Insertion-ordered maps *)

Section OMapFacts.
Context {K V : Type} `{EqDecision K}.
Implicit Types (m : OMap.t K V) (k : K) (v : V).

Lemma get_set m k k' v :
  OMap.get k' (OMap.set k v m)
  = if decide (k' = k) then Some v else OMap.get k' m.
Proof.
  induction m as [|[k0 v0] m IH]; simpl.
  - repeat case_decide; congruence.
  - destruct (decide (k = k0)) as [->|Hne]; simpl.
    + repeat case_decide; congruence.
    + rewrite IH. clear IH. repeat case_decide; congruence.
Qed.

Lemma get_set_eq m k v : OMap.get k (OMap.set k v m) = Some v.
Proof. rewrite get_set. by case_decide. Qed.


Lemma get_delete m k k' :
  OMap.get k' (OMap.delete k m)
  = if decide (k' = k) then None else OMap.get k' m.
Proof.
  induction m as [|[k0 v0] m IH]; simpl.
  - by case_decide.
  - destruct (decide (k = k0)) as [->|Hne]; simpl.
    + rewrite IH. repeat case_decide; congruence.
    + rewrite IH. repeat case_decide; congruence.
Qed.

Lemma get_delete_eq m k : OMap.get k (OMap.delete k m) = None.
Proof. rewrite get_delete. by case_decide. Qed.


Lemma get_Some_elem m k v : OMap.get k m = Some v -> (k, v) ∈ m.
Proof.
  induction m as [|[k0 v0] m IH]; simpl; [done|].
  case_decide; intros.
  - simplify_eq. left.
  - right. auto.
Qed.

Lemma get_None_keys m k : OMap.get k m = None <-> k ∉ OMap.keys m.
Proof.
  induction m as [|[k0 v0] m IH]; simpl.
  - split; [intros _; apply not_elem_of_nil | done].
  - rewrite not_elem_of_cons. case_decide; [naive_solver|].
    rewrite IH. naive_solver.
Qed.

Lemma get_Some_keys m k : is_Some (OMap.get k m) <-> k ∈ OMap.keys m.
Proof.
  rewrite <- not_eq_None_Some, get_None_keys.
  split; [apply dec_stable | auto].
Qed.

Lemma elem_get m k v :
  NoDup (OMap.keys m) -> (k, v) ∈ m -> OMap.get k m = Some v.
Proof.
  induction m as [|[k0 v0] m IH]; simpl; intros Hnd Hin.
  - by apply elem_of_nil in Hin.
  - apply NoDup_cons in Hnd as [Hk0 Hnd].
    apply elem_of_cons in Hin as [Heq|Hin].
    + simplify_eq. by case_decide.
    + case_decide; [|auto]. subst. exfalso. apply Hk0.
      apply list_elem_of_fmap. by exists (k0, v).
Qed.

Lemma keys_delete_subseteq m k : OMap.keys (OMap.delete k m) ⊆ OMap.keys m.
Proof.
  induction m as [|[k0 v0] m IH]; simpl; [done|].
  case_decide; simpl.
  - intros x Hx. right. by apply IH.
  - intros x. rewrite !elem_of_cons. naive_solver.
Qed.

Lemma NoDup_keys_delete m k :
  NoDup (OMap.keys m) -> NoDup (OMap.keys (OMap.delete k m)).
Proof.
  induction m as [|[k0 v0] m IH]; simpl; [done|].
  rewrite NoDup_cons. intros [Hk0 Hnd]. case_decide; simpl; [auto|].
  apply NoDup_cons. split; [|auto].
  intros Hin. apply Hk0. by apply (keys_delete_subseteq m k).
Qed.

Lemma keys_set m k v :
  OMap.keys (OMap.set k v m)
  = if OMap.has k m then OMap.keys m else OMap.keys m ++ [k].
Proof.
  unfold OMap.has.
  induction m as [|[k0 v0] m IH]; simpl; [done|].
  case_decide; simpl; [by subst|].
  rewrite IH. by destruct (OMap.get k m).
Qed.

Lemma NoDup_keys_set m k v :
  NoDup (OMap.keys m) -> NoDup (OMap.keys (OMap.set k v m)).
Proof.
  intros Hnd. rewrite keys_set. unfold OMap.has.
  destruct (OMap.get k m) eqn:Hget; [done|].
  apply NoDup_app. split_and!; [done| |apply NoDup_singleton].
  intros x Hx Hk. apply list_elem_of_singleton in Hk as ->.
  by apply get_None_keys in Hget.
Qed.

Lemma get_values m k v : OMap.get k m = Some v -> v ∈ OMap.values m.
Proof.
  intros Hget. apply list_elem_of_fmap. exists (k, v).
  split; [done|]. by apply get_Some_elem.
Qed.
End OMapFacts.

(** ** Rules for running handlers *)

Section WpRules.
Context {St Ev : Type}.
Implicit Types (s : St).

Lemma wp_ret {A} (a : A) (Q : Eff.result A -> St -> list Ev -> Prop) s :
  Q (Eff.Ok a) s [] -> Eff.wp (mret a) Q s.
Proof. done. Qed.

Lemma wp_bind {A B} (m : Eff.M St Ev A) (f : A -> Eff.M St Ev B)
      (Q : Eff.result B -> St -> list Ev -> Prop) s :
  Eff.wp m (fun r s' l =>
    match r with
    | Eff.Ok a => Eff.wp (f a) (fun r' s'' l' => Q r' s'' (l ++ l')) s'
    | Eff.Throw e => Q (Eff.Throw e) s' l
    end) s ->
  Eff.wp (m ≫= f) Q s.
Proof.
  unfold Eff.wp, mbind, Eff.M_bind, Eff.bind.
  destruct (Eff.res (m s)); done.
Qed.

Lemma wp_get (Q : Eff.result St -> St -> list Ev -> Prop) s :
  Q (Eff.Ok s) s [] -> Eff.wp Eff.get Q s.
Proof. done. Qed.

Lemma wp_modify (f : St -> St) (Q : Eff.result unit -> St -> list Ev -> Prop)
      s :
  Q (Eff.Ok tt) (f s) [] -> Eff.wp (Eff.modify f) Q s.
Proof. done. Qed.

Lemma wp_emit (e : Ev) (Q : Eff.result unit -> St -> list Ev -> Prop) s :
  Q (Eff.Ok tt) s [e] -> Eff.wp (Eff.emit e) Q s.
Proof. done. Qed.

Lemma wp_throw {A} (e : Eff.exn)
      (Q : Eff.result A -> St -> list Ev -> Prop) s :
  Q (Eff.Throw e) s [] -> Eff.wp (Eff.throw e) Q s.
Proof. done. Qed.

Lemma wp_mono {A} (m : Eff.M St Ev A)
      (Q Q' : Eff.result A -> St -> list Ev -> Prop) s :
  Eff.wp m Q s -> (forall r s' l, Q r s' l -> Q' r s' l) -> Eff.wp m Q' s.
Proof. unfold Eff.wp. auto. Qed.

Lemma wp_elim {A} (m : Eff.M St Ev A)
      (Q : Eff.result A -> St -> list Ev -> Prop) s :
  Eff.wp m Q s -> Q (Eff.res (m s)) (Eff.st (m s)) (Eff.log (m s)).
Proof. done. Qed.
End WpRules.

#[global] Opaque Eff.wp.

Ltac wp_prim :=
  lazymatch goal with
  | |- Eff.wp (mbind _ _) _ _ => apply wp_bind
  | |- Eff.wp (mret _) _ _ => apply wp_ret
  | |- Eff.wp Eff.get _ _ => apply wp_get
  | |- Eff.wp (Eff.modify _) _ _ => apply wp_modify
  | |- Eff.wp (Eff.emit _) _ _ => apply wp_emit
  | |- Eff.wp (Eff.throw _) _ _ => apply wp_throw
  | |- Eff.wp Manager.get _ _ => apply wp_get
  | |- Eff.wp (Manager.modify _) _ _ => apply wp_modify
  | |- Eff.wp (Manager.emit _) _ _ => apply wp_emit
  | |- Eff.wp Webview.get _ _ => apply wp_get
  | |- Eff.wp (Webview.modify _) _ _ => apply wp_modify
  | |- Eff.wp (Webview.emit _) _ _ => apply wp_emit
  end.

Ltac wp_simpl := cbn beta iota zeta; cbn [negb].

Ltac wp_run := repeat (wp_prim; wp_simpl).

Ltac solve_logs :=
  cbn [app];
  repeat first
    [ assumption
    | apply Forall_nil_2
    | apply Forall_app_2
    | apply Forall_cons_2
    | exact I
    | done ].

(** ** The terminal manager *)

Module ManagerFacts.
Import Manager.
Local Open Scope nat_scope.

Lemma delete_absent {K V} `{EqDecision K} (m : OMap.t K V) k :
  OMap.get k m = None -> OMap.delete k m = m.
Proof.
  induction m as [|[k0 v0] m IH]; simpl; [done|].
  case_decide; [done|]. intros. f_equal. auto.
Qed.

Lemma wp_lookup id (Q : Eff.result (option TerminalInstance) -> State -> list Effect -> Prop) s :
  Q (Eff.Ok (OMap.get id (terminals s))) s [] -> Eff.wp (lookup id) Q s.
Proof. intros. unfold lookup. wp_run. done. Qed.

Lemma wp_post id m (Q : Eff.result unit -> State -> list Effect -> Prop) s :
  Q (Eff.Ok tt) s (post_log id m s) -> Eff.wp (postToTerminal id m) Q s.
Proof.
  intros HQ. unfold postToTerminal. apply wp_bind, wp_lookup. wp_simpl.
  unfold post_log in HQ.
  destruct (OMap.get id (terminals s)) as [i|]; [|by apply wp_ret].
  destruct (ready i); wp_simpl; [|by apply wp_ret].
  destruct (surface i); by apply wp_emit.
Qed.

Lemma wp_setTimeout t ms (Q : Eff.result nat -> State -> list Effect -> Prop) s :
  Q (Eff.Ok (nextTimer s))
    (with_timers (insert (nextTimer s) t) (S (nextTimer s)) s)
    [SetTimeout (nextTimer s) t ms] ->
  Eff.wp (setTimeout t ms) Q s.
Proof. intros. unfold setTimeout. wp_run. done. Qed.

Lemma wp_clearTimeout h (Q : Eff.result unit -> State -> list Effect -> Prop) s :
  Q (Eff.Ok tt) (with_timers (delete h) (nextTimer s) s) [ClearTimeout h] ->
  Eff.wp (clearTimeout h) Q s.
Proof. intros. unfold clearTimeout. wp_run. done. Qed.

Lemma wp_kill id (Q : Eff.result unit -> State -> list Effect -> Prop) s :
  (forall l, Forall no_output l ->
     Q (Eff.Ok tt) (with_instances (OMap.delete id) s) l) ->
  Eff.wp (ptyService_kill id) Q s.
Proof.
  intros HQ. unfold ptyService_kill. wp_run.
  destruct (OMap.get id (instances s)) eqn:Hget; wp_run.
  - apply HQ. by repeat constructor.
  - specialize (HQ [] (Forall_nil_2 _)). unfold with_instances in HQ.
    rewrite delete_absent in HQ by done. by destruct s.
Qed.

Lemma wp_releaseIndex n (Q : Eff.result unit -> State -> list Effect -> Prop) s :
  Q (Eff.Ok tt) (with_usedIndices (release n) s) [] ->
  Eff.wp (releaseIndex n) Q s.
Proof.
  intros HQ. unfold releaseIndex. destruct n; wp_run; [done|].
  by destruct s.
Qed.

Lemma wp_destroy host id (Q : Eff.result unit -> State -> list Effect -> Prop) s :
  match OMap.get id (terminals s) with
  | None => Q (Eff.Ok tt) s []
  | Some i => forall l, Forall no_output l -> Q (Eff.Ok tt) (destroyed id i s) l
  end ->
  Eff.wp (destroyTerminal host id) Q s.
Proof.
  intros HQ. unfold destroyTerminal. apply wp_bind, wp_lookup. wp_simpl.
  destruct (OMap.get id (terminals s)) as [i|]; [|by apply wp_ret].
  wp_run. apply wp_releaseIndex. wp_simpl. apply wp_bind.
  destruct (readyTimeout i) eqn:Hrt; [apply wp_clearTimeout | apply wp_ret];
    wp_simpl; apply wp_bind, wp_kill; intros l Hl; wp_simpl;
    (destruct (surface i) eqn:Hsurf; wp_run;
     [|destruct (_ && _); wp_run]);
    (match goal with |- Q _ ?st ?l =>
       replace st with (destroyed id i s)
         by (unfold destroyed; rewrite Hrt; by destruct s);
       apply HQ end);
    solve_logs.
Qed.

Lemma destroyed_Inv id i s :
  OMap.get id (terminals s) = Some i -> Inv s -> Inv (destroyed id i s).
Proof.
  intros Hi [Hq Hp Ht]. split; cbn.
  - intros id' i'. rewrite get_delete. case_decide; [done|]. eauto.
  - intros id' i'. rewrite !get_delete. case_decide; [done|]. eauto.
  - intros h id' Hh.
    assert (timers s !! h = Some (ReadyTimeout id') /\ readyTimeout i <> Some h)
      as [Hh' Hne].
    { destruct (readyTimeout i); cbn in Hh; [|done].
      apply lookup_delete_Some in Hh as [? ?]. split; congruence. }
    destruct (Ht _ _ Hh') as (i' & Hi' & Hrt).
    exists i'. split; [|done]. rewrite get_delete. case_decide; [|done].
    congruence.
Qed.

Lemma wp_update id f (Q : Eff.result unit -> State -> list Effect -> Prop) s :
  match OMap.get id (terminals s) with
  | Some i => Q (Eff.Ok tt) (with_terminals (OMap.set id (f i)) s) []
  | None => Q (Eff.Ok tt) s []
  end ->
  Eff.wp (update id f) Q s.
Proof.
  intros HQ. unfold update. apply wp_modify.
  unfold with_terminals in *. destruct (OMap.get id (terminals s)); [done|].
  by destruct s.
Qed.

Lemma wp_resize id cols rows (Q : Eff.result unit -> State -> list Effect -> Prop) s :
  match OMap.get id (instances s) with
  | Some _ =>
      Q (Eff.Ok tt)
        (with_instances
           (OMap.set id {| pty_cols := cols; pty_rows := rows |}) s)
        [PtyResize id cols rows]
  | None => Q (Eff.Ok tt) s []
  end ->
  Eff.wp (ptyService_resize id cols rows) Q s.
Proof.
  intros HQ. unfold ptyService_resize. wp_run.
  destruct (OMap.get id (instances s)); wp_run; done.
Qed.

Lemma wp_write id data (Q : Eff.result unit -> State -> list Effect -> Prop) s :
  (forall l, Forall no_output l -> Q (Eff.Ok tt) s l) ->
  Eff.wp (ptyService_write id data) Q s.
Proof.
  intros HQ. unfold ptyService_write. wp_run.
  destruct (OMap.get id (instances s)); wp_run; apply HQ; solve_logs.
Qed.

Lemma wp_spawnPty host id cfg (Q : Eff.result bool -> State -> list Effect -> Prop) s :
  (forall l, Forall no_output l ->
    match spawnError host with
    | Some _ => Q (Eff.Ok false) s l
    | None =>
        forall p, Q (Eff.Ok true) (with_instances (OMap.set id p) s) l
    end) ->
  Eff.wp (spawnPty host id cfg) Q s.
Proof.
  intros HQ. unfold spawnPty, ptyService_spawn.
  apply wp_bind.
  destruct (spawnError host) eqn:Herr; wp_run.
  - apply (HQ [_]). solve_logs.
  - apply (HQ [_]). solve_logs.
Qed.

Lemma wp_getNextIndex (Q : Eff.result nat -> State -> list Effect -> Prop) s :
  (let n := first_free (usedIndices s) (S (size (usedIndices s))) 1 in
   Q (Eff.Ok n) (with_usedIndices (fun u => {[n]} ∪ u) s) []) ->
  Eff.wp getNextIndex Q s.
Proof. intros HQ. unfold getNextIndex. wp_run. done. Qed.

Lemma wp_arm id (Q : Eff.result unit -> State -> list Effect -> Prop) s :
  (let l := [SetTimeout (nextTimer s) (ReadyTimeout id)
                        TerminalUtils.READY_TIMEOUT_MS] in
    match OMap.get id (terminals s) with
    | Some i =>
        Q (Eff.Ok tt)
          (with_terminals
             (OMap.set id (with_readyTimeout (Some (nextTimer s)) i))
             (with_timers (insert (nextTimer s) (ReadyTimeout id))
                          (S (nextTimer s)) s)) l
    | None =>
        Q (Eff.Ok tt)
          (with_timers (insert (nextTimer s) (ReadyTimeout id))
                       (S (nextTimer s)) s) l
    end) ->
  Eff.wp (armReadyTimeout id) Q s.
Proof.
  intros HQ. unfold armReadyTimeout. apply wp_bind, wp_setTimeout. wp_simpl.
  apply wp_update. cbn in *.
  destruct (OMap.get id (terminals s)); exact HQ.
Qed.

Ltac st_simpl :=
  cbn [terminals usedIndices instances timers nextTimer
       with_terminals with_usedIndices with_instances with_timers
       destroyed cancel release
       inst_id surface config ready readyTimeout dataQueue currentCwd
       title index
       with_ready with_readyTimeout with_dataQueue with_currentCwd
       with_title length] in *.

Ltac map_simpl :=
  repeat match goal with
  | H : context [OMap.get ?k (OMap.set ?k _ _)] |- _ =>
      rewrite get_set_eq in H
  | H : context [OMap.get ?k (OMap.delete ?k _)] |- _ =>
      rewrite get_delete_eq in H
  | |- context [OMap.get ?k (OMap.set ?k _ _)] => rewrite get_set_eq
  | |- context [OMap.get ?k (OMap.delete ?k _)] => rewrite get_delete_eq
  | H : context [OMap.get _ (OMap.set _ _ _)] |- _ => rewrite get_set in H
  | H : context [OMap.get _ (OMap.delete _ _)] |- _ =>
      rewrite get_delete in H
  | H : context [(<[_:=_]> _) !! _] |- _ => rewrite lookup_insert in H
  | H : context [delete _ _ !! _] |- _ => rewrite lookup_delete in H
  | |- context [OMap.get _ (OMap.set _ _ _)] => rewrite get_set
  | |- context [OMap.get _ (OMap.delete _ _)] => rewrite get_delete
  | |- context [(<[_:=_]> _) !! _] => rewrite lookup_insert
  | |- context [delete _ _ !! _] => rewrite lookup_delete
  end.

Ltac inv_crush :=
  intros; st_simpl; unfold cancel, release in *;
  repeat match goal with
  | H : context [match ?x with Some _ => _ | None => _ end] |- _ =>
      destruct x eqn:?
  | |- context [match ?x with Some _ => _ | None => _ end] =>
      destruct x eqn:?
  end;
  map_simpl; repeat case_decide; simplify_eq;
  st_simpl; eauto.

Ltac use_timer_inv :=
  repeat match goal with
  | Ht : forall h id, timers ?s !! h = Some (ReadyTimeout id) -> _,
    H : timers ?s !! _ = Some (ReadyTimeout _) |- _ =>
      let i := fresh "i" in
      let Hi := fresh "Hi" in
      let Hrt := fresh "Hrt" in
      destruct (Ht _ _ H) as (i & Hi & Hrt); clear H
  end.

Ltac inv_solve :=
  inv_crush; use_timer_inv; simplify_eq; st_simpl;
  try (eexists; split; [map_simpl; repeat case_decide; simplify_eq; eauto|]; st_simpl; eauto; congruence);
  try congruence;
  repeat match goal with
  | H : (_ <? _) = true |- _ => apply Nat.ltb_lt in H
  end;
  rewrite ?length_app; cbn [length]; try lia; eauto.

Lemma createPanelTerminal_Inv host cfg s :
  OMap.get (newTerminalId host) (terminals s) = None ->
  Inv s -> Eff.wp (createPanelTerminal host cfg) (fun _ s' _ => Inv s') s.
Proof.
  intros Hfresh HI. unfold createPanelTerminal.
  apply wp_bind, wp_getNextIndex. wp_simpl.
  wp_run. apply wp_spawnPty. intros l _.
  destruct (spawnError host); [|intros p]; wp_simpl.
  - wp_run. apply wp_releaseIndex. wp_run.
    destruct HI as [Hq Hp Ht]. split; inv_solve.
  - apply wp_bind, wp_arm. st_simpl. rewrite get_set_eq. wp_run.
    destruct HI as [Hq Hp Ht]. split; inv_solve.
Qed.

Lemma createEditorTerminal_Inv host cfg s :
  OMap.get (newTerminalId host) (terminals s) = None ->
  Inv s -> Eff.wp (createEditorTerminal host cfg) (fun _ s' _ => Inv s') s.
Proof.
  intros Hfresh HI. unfold createEditorTerminal.
  apply wp_bind, wp_getNextIndex. wp_simpl.
  wp_run. apply wp_spawnPty. intros l _.
  destruct (spawnError host); [|intros p]; wp_simpl.
  - wp_run. apply wp_releaseIndex. wp_run.
    destruct HI as [Hq Hp Ht]. split; inv_solve.
  - apply wp_bind, wp_arm. st_simpl. rewrite get_set_eq. wp_run.
    destruct HI as [Hq Hp Ht]. split; inv_solve.
Qed.

Lemma createPanelTerminalWithTitle_Inv host title makeActive s :
  OMap.get (newTerminalId host) (terminals s) = None ->
  Inv s ->
  Eff.wp (createPanelTerminalWithTitle host title makeActive)
         (fun _ s' _ => Inv s') s.
Proof.
  intros Hfresh HI. unfold createPanelTerminalWithTitle.
  apply wp_bind.
  destruct (parseInt <$> match_title title) as [n|]; wp_run;
    (apply wp_spawnPty; intros l _;
     destruct (spawnError host); [|intros p]; wp_simpl;
     [ wp_run; apply wp_releaseIndex; wp_run
     | apply wp_bind, wp_arm; st_simpl; rewrite get_set_eq; wp_run ];
     destruct HI as [Hq Hp Ht]; split; inv_solve).
Qed.

Lemma createTerminal_Inv host cfg s :
  OMap.get (newTerminalId host) (terminals s) = None ->
  Inv s -> Eff.wp (createTerminal host cfg) (fun _ s' _ => Inv s') s.
Proof.
  intros. unfold createTerminal.
  destruct (default panel _);
    auto using createPanelTerminal_Inv, createEditorTerminal_Inv.
Qed.

Lemma destroyTerminal_Inv host id s :
  Inv s -> Eff.wp (destroyTerminal host id) (fun _ s' _ => Inv s') s.
Proof.
  intros HI. apply wp_destroy.
  destruct (OMap.get id (terminals s)) eqn:Hget; [|done].
  intros _ _. by apply destroyed_Inv.
Qed.

Lemma wp_flush {A} id (mk : A -> ExtensionMessage) (l : list A)
      (Q : Eff.result unit -> State -> list Effect -> Prop) s :
  Q (Eff.Ok tt) s (flat_map (fun d => post_log id (mk d) s) l) ->
  Eff.wp (Eff.for_each l (fun d => postToTerminal id (mk d))) Q s.
Proof.
  revert Q. induction l as [|d l IH]; intros Q HQ; cbn [Eff.for_each].
  - by apply wp_ret.
  - apply (wp_bind (postToTerminal id (mk d))), wp_post. wp_simpl.
    apply IH. exact HQ.
Qed.

Lemma wp_for_each_pure {A} (l : list A) (body : A -> M unit)
      (phi : Effect -> Prop)
      (Q : Eff.result unit -> State -> list Effect -> Prop) s :
  (forall x, Eff.wp (body x)
     (fun r s' lg => r = Eff.Ok tt /\ s' = s /\ Forall phi lg) s) ->
  (forall lg, Forall phi lg -> Q (Eff.Ok tt) s lg) ->
  Eff.wp (Eff.for_each l body) Q s.
Proof.
  intros Hbody. revert Q. induction l as [|x l IH]; intros Q HQ;
    cbn [Eff.for_each].
  - apply wp_ret, HQ, Forall_nil_2.
  - apply (wp_bind (body x)).
    eapply wp_mono; [apply Hbody|].
    intros r s' lg (-> & -> & Hlg). wp_simpl.
    apply IH. intros lg' Hlg'. apply HQ. by apply Forall_app_2.
Qed.

Ltac use_eqs :=
  repeat match goal with
  | H : ?x = _ |- context [match ?x with _ => _ end] => rewrite H
  end.

Ltac wp_step :=
  wp_simpl; st_simpl; map_simpl; use_eqs; wp_simpl;
  lazymatch goal with
  | |- Eff.wp (lookup _) _ _ => apply wp_lookup
  | |- Eff.wp (postToTerminal _ _) _ _ => apply wp_post
  | |- Eff.wp (update _ _) _ _ => apply wp_update
  | |- Eff.wp (setTimeout _ _) _ _ => apply wp_setTimeout
  | |- Eff.wp (clearTimeout _) _ _ => apply wp_clearTimeout
  | |- Eff.wp (ptyService_kill _) _ _ => apply wp_kill
  | |- Eff.wp (ptyService_resize _ _ _) _ _ => apply wp_resize
  | |- Eff.wp (ptyService_write _ _) _ _ => apply wp_write
  | |- Eff.wp (releaseIndex _) _ _ => apply wp_releaseIndex
  | |- Eff.wp (spawnPty _ _ _) _ _ => apply wp_spawnPty
  | |- Eff.wp getNextIndex _ _ => apply wp_getNextIndex
  | |- Eff.wp (armReadyTimeout _) _ _ => apply wp_arm
  | |- Eff.wp (Eff.for_each _ (fun d => postToTerminal _ _)) _ _ =>
      apply wp_flush
  | |- Eff.wp (destroyTerminal _ _) _ _ => apply wp_destroy
  | |- Eff.wp (match ?x with _ => _ end) _ _ => destruct x eqn:?
  | |- match ?x with _ => _ end => destruct x eqn:?
  | |- Eff.wp _ _ _ => wp_prim
  | |- forall _, _ => intro
  | _ => idtac
  end.

Ltac wp_auto := repeat wp_step.

Lemma handlePtyData_Inv host id data s :
  Inv s -> Eff.wp (handlePtyData host id data) (fun _ s' _ => Inv s') s.
Proof.
  intros [Hq Hp Ht].
  unfold handlePtyData, parseOSC7, handleOSC9Notification.
  wp_auto; try done; split; inv_solve.
Qed.

Lemma handleTerminalReady_Inv host id cols rows s :
  Inv s ->
  Eff.wp (handleTerminalReady host id cols rows) (fun _ s' _ => Inv s') s.
Proof.
  intros [Hq Hp Ht].
  unfold handleTerminalReady.
  wp_auto; try done; try (split; inv_solve).
Qed.

Lemma handleWebviewMessage_Inv host m s :
  Inv s -> Eff.wp (handleWebviewMessage host m) (fun _ s' _ => Inv s') s.
Proof.
  intros HI. destruct m; cbn [handleWebviewMessage].
  - pose proof HI as [Hq Hp Ht]. unfold handleTerminalInput. wp_auto.
    done.
  - pose proof HI as [Hq Hp Ht]. unfold handleTerminalResize.
    wp_auto; try done; split; inv_solve.
  - by apply handleTerminalReady_Inv.
  - unfold handleOpenUrl. wp_auto; done.
  - unfold handleOpenFile. wp_auto; done.
  - unfold handleBatchCheckFileExists. wp_auto; done.
  - pose proof HI as [Hq Hp Ht]. unfold handleTerminalBell.
    wp_auto; try done; split; inv_solve.
Qed.

Lemma handle_Inv host e s : fresh host e s -> Inv s -> Inv (step host e s).
Proof.
  intros Hfresh HI.
  apply (wp_elim (handle host e) (fun _ s' _ => Inv s')).
  destruct e as [cfg|m|m|id|id data|id code|id msg|id b paths ex| | |id|id title|h];
    cbn [handle].
  - apply wp_bind. eapply wp_mono; [apply createTerminal_Inv; [by apply Hfresh|done]|].
    intros [] ???; by wp_run.
  - destruct m as [m| |id cols rows|id| |title makeActive|id title|];
      cbn [handlePanelMessage].
    + destruct m; try by apply handleWebviewMessage_Inv.
      by apply handleTerminalReady_Inv.
    + by wp_run.
    + pose proof HI as [Hq Hp Ht]. unfold handleTerminalResize.
      wp_auto; try done; split; inv_solve.
    + by apply destroyTerminal_Inv.
    + apply wp_bind. eapply wp_mono; [apply createTerminal_Inv; [by apply Hfresh|done]|].
      intros [] ???; by wp_run.
    + apply wp_bind. eapply wp_mono; [apply createPanelTerminalWithTitle_Inv; [by apply Hfresh|done]|].
      intros [] ???; by wp_run.
    + pose proof HI as [Hq Hp Ht]. unfold handleTabRenamed.
      wp_auto; try done; split; inv_solve.
    + by wp_run.
  - by apply handleWebviewMessage_Inv.
  - by apply destroyTerminal_Inv.
  - by apply handlePtyData_Inv.
  - destruct HI as [Hq Hp Ht]. unfold handlePtyExit. wp_auto; try done; split; inv_solve.
  - pose proof HI as [Hq Hp Ht]. unfold handlePtyError.
    wp_auto; try done; try (split; inv_solve).
  - unfold batchCheckCompleted. by wp_auto.
  - unfold broadcastSettingsUpdate, broadcast. wp_run.
    apply (wp_for_each_pure _ _ (fun _ => True)); [|done].
    intros [id i]. wp_auto; split_and!; try done; by apply Forall_true.
  - unfold broadcastThemeUpdate, broadcast. wp_run.
    apply (wp_for_each_pure _ _ (fun _ => True)); [|done].
    intros [id i]. wp_auto; split_and!; try done; by apply Forall_true.
  - by apply destroyTerminal_Inv.
  - pose proof HI as [Hq Hp Ht]. unfold renameTerminal.
    wp_auto; try done; split; inv_solve.
  - pose proof HI as [Hq Hp Ht]. unfold fireTimer, runTimer.
    wp_auto; try done; try (split; inv_solve).
Qed.

Lemma Inv_initial : Inv initial.
Proof. split; cbn; intros; simplify_eq. Qed.

Lemma reachable_Inv past s : reachable past s -> Inv s.
Proof.
  induction 1 as [|past s host e _ IH Hok];
    [apply Inv_initial | by apply handle_Inv].
Qed.







Lemma index_of_Some id s i :
  OMap.get id (terminals s) = Some i -> index_of id s = Some (index i).
Proof. unfold index_of. by intros ->. Qed.

Lemma index_of_inv id s o :
  index_of id s = Some o ->
  exists i, OMap.get id (terminals s) = Some i /\ index i = o.
Proof.
  unfold index_of. destruct (OMap.get id (terminals s)) as [i|]; [|done].
  intros [= <-]. eauto.
Qed.

Lemma IndexInv_alt s :
  IndexInv s <->
  (forall id n, index_of id s = Some (Some n) -> n ∈ usedIndices s) /\
  (forall n, n ∈ usedIndices s -> exists id, index_of id s = Some (Some n)) /\
  (forall id1 id2 n, index_of id1 s = Some (Some n) ->
                     index_of id2 s = Some (Some n) -> id1 = id2).
Proof.
  split.
  - intros [Hu Ho Hj]. split_and!.
    + intros id n (i & Hi & Hn)%index_of_inv. eauto.
    + intros n (id & i & Hi & Hn)%Ho. exists id.
      by rewrite (index_of_Some _ _ _ Hi), Hn.
    + intros id1 id2 n (i1 & Hi1 & Hn1)%index_of_inv
        (i2 & Hi2 & Hn2)%index_of_inv. eauto.
  - intros (Hu & Ho & Hj). split.
    + intros id i n Hi Hn. apply (Hu id).
      by rewrite (index_of_Some _ _ _ Hi), Hn.
    + intros n (id & (i & Hi & Hn)%index_of_inv)%Ho. eauto.
    + intros id1 id2 i1 i2 n Hi1 Hi2 Hn1 Hn2. apply (Hj id1 id2 n).
      * by rewrite (index_of_Some _ _ _ Hi1), Hn1.
      * by rewrite (index_of_Some _ _ _ Hi2), Hn2.
Qed.

Lemma IndexInv_same s s' :
  (forall id, index_of id s' = index_of id s) ->
  usedIndices s' = usedIndices s ->
  IndexInv s -> IndexInv s'.
Proof.
  rewrite !IndexInv_alt. intros Hix Hu (H1 & H2 & H3).
  rewrite Hu. split_and!.
  - intros id n. rewrite Hix. eauto.
  - intros n (id & Hid)%H2. exists id. by rewrite Hix.
  - intros id1 id2 n. rewrite !Hix. eauto.
Qed.



Ltac ix_lookups :=
  intros; unfold index_of; st_simpl; map_simpl;
  repeat case_decide; simplify_eq;
  repeat match goal with
  | H : OMap.get ?k ?m = _ |- context [OMap.get ?k ?m] => rewrite H
  end;
  try reflexivity; try done.

Ltac ix_same HI :=
  apply (IndexInv_same _ _ ltac:(ix_lookups) ltac:(reflexivity) HI).















Lemma post_log_quiet id m s :
  no_output (PanelPost m) -> Forall no_output (post_log id m s).
Proof.
  intros Hm. unfold post_log.
  destruct (OMap.get id (terminals s)) as [i|]; [|done].
  destruct (ready i); [|done]. destruct (surface i); repeat constructor; done.
Qed.

Lemma no_output_not id eff : no_output eff -> ~ is_output_for id eff.
Proof.
  intros Hq (data & [->|(wp & ->)]); done.
Qed.

Ltac solve_quiet :=
  cbn [app];
  repeat first
    [ assumption
    | apply Forall_nil_2
    | apply Forall_app_2
    | apply Forall_cons_2
    | apply post_log_quiet
    | exact I
    | done ].

Ltac ready_lookups :=
  unfold keeps_unready, ready_of; intros; st_simpl; map_simpl;
  repeat case_decide; simplify_eq;
  repeat match goal with
  | H : OMap.get ?k ?m = _ |- context [OMap.get ?k ?m] => rewrite H
  | H : OMap.get ?k ?m = _, H' : context [OMap.get ?k ?m] |- _ =>
      rewrite H in H'
  end;
  st_simpl; simplify_eq; try done; try congruence.

Ltac quiet := try done; split; [ready_lookups | solve_quiet].

Lemma destroyTerminal_Quiet host id s :
  Eff.wp (destroyTerminal host id) (Quiet s) s.
Proof.
  apply wp_destroy.
  destruct (OMap.get id (terminals s)) as [i|] eqn:Hi; [|quiet].
  intros l Hl. quiet.
Qed.

Lemma createTerminal_Quiet host cfg s :
  Eff.wp (createTerminal host cfg) (Quiet s) s.
Proof.
  unfold createTerminal, createPanelTerminal, createEditorTerminal.
  destruct (default panel _); wp_auto; quiet.
Qed.

Lemma createPanelTerminalWithTitle_Quiet host title makeActive s :
  Eff.wp (createPanelTerminalWithTitle host title makeActive) (Quiet s) s.
Proof.
  unfold createPanelTerminalWithTitle. wp_auto; quiet.
Qed.

Lemma Quiet_Handshake id0 s {A} (r : Eff.result A) s' l :
  Quiet s r s' l -> Handshake id0 s r s' l.
Proof.
  intros [Hr Hl]. split; [auto|].
  eapply Forall_impl; [exact Hl|]. auto.
Qed.

Lemma Quiet_Data id0 s {A} (r : Eff.result A) s' l :
  Quiet s r s' l -> Data id0 s r s' l.
Proof.
  intros [Hr Hl]. split; [auto|].
  eapply Forall_impl; [exact Hl|]. auto.
Qed.

Lemma post_log_data id d s :
  Forall (fun eff => is_output_for id eff /\ ready_of id s = Some true)
         (post_log id (pty_data id d) s).
Proof.
  unfold post_log, ready_of.
  destruct (OMap.get id (terminals s)) as [i|]; [|done]. cbn.
  destruct (ready i); [|done].
  destruct (surface i); repeat constructor; exists d; eauto.
Qed.

Lemma Forall_flat_map {A B} (P : B -> Prop) (f : A -> list B) l :
  (forall x, Forall P (f x)) -> Forall P (flat_map f l).
Proof.
  intros Hf. induction l as [|x l IH]; cbn; [done|]. by apply Forall_app_2.
Qed.

Ltac solve_out :=
  cbn [app];
  repeat first
    [ apply Forall_nil_2
    | apply Forall_app_2
    | apply Forall_cons_2
    | apply Forall_flat_map; intros ?
    | (eapply Forall_impl; [apply post_log_data|]; cbn beta;
       intros ? [? ?]; by auto)
    | (eapply Forall_impl; [apply post_log_quiet; exact I|]; cbn beta;
       by auto)
    | (left; exact I)
    | (eapply Forall_impl; [eassumption|]; cbn beta; by auto) ].

Lemma handleTerminalReady_Handshake host id cols rows s :
  Eff.wp (handleTerminalReady host id cols rows) (Handshake id s) s.
Proof.
  unfold handleTerminalReady. wp_auto.
  all: split; [ready_lookups; auto | solve_out].
Qed.

Lemma handlePtyData_Data host id data s :
  Eff.wp (handlePtyData host id data) (Data id s) s.
Proof.
  unfold handlePtyData, parseOSC7, handleOSC9Notification. wp_auto.
  all: split; [ready_lookups; auto | solve_out].
  all: eapply Forall_impl; [apply post_log_data|]; cbn beta;
    intros ? [? _]; right; split; [done|];
    unfold ready_of; rewrite Heqo; cbn; by f_equal.
Qed.

Lemma handleWebviewMessage_Quiet host m s :
  (forall id cols rows, m <> terminal_ready id cols rows) ->
  Eff.wp (handleWebviewMessage host m) (Quiet s) s.
Proof.
  intros Hm. destruct m; cbn [handleWebviewMessage];
    unfold handleTerminalInput, handleTerminalResize, handleOpenUrl,
      handleOpenFile, handleBatchCheckFileExists, handleTerminalBell;
    try (by exfalso; eapply Hm).
  all: wp_auto; quiet.
Qed.

Lemma handle_outputs host e s :
  Eff.wp (handle host e)
    (fun _ s' l =>
       (forall id, ready_of id s' = Some true ->
                   is_handshake id e = true \/ ready_of id s = Some true) /\
       Forall (fun eff => forall id, is_output_for id eff ->
                 is_handshake id e = true \/
                 (creating e = false /\ ready_of id s = Some true)) l) s.
Proof.
  assert (forall {A} (m : M A),
    Eff.wp m (Quiet s) s ->
    Eff.wp m (fun _ s' l =>
       (forall id, ready_of id s' = Some true ->
                   is_handshake id e = true \/ ready_of id s = Some true) /\
       Forall (fun eff => forall id, is_output_for id eff ->
                 is_handshake id e = true \/
                 (creating e = false /\ ready_of id s = Some true)) l) s)
    as Hquiet.
  { intros A m Hm. eapply wp_mono; [exact Hm|].
    intros r s' l [Hr Hl]. split; [auto|].
    eapply Forall_impl; [exact Hl|]. intros eff Hq id Hout.
    by apply no_output_not in Hout. }
  assert (forall id0 {A} (m : M A),
    is_handshake id0 e = true ->
    Eff.wp m (Handshake id0 s) s ->
    Eff.wp m (fun _ s' l =>
       (forall id, ready_of id s' = Some true ->
                   is_handshake id e = true \/ ready_of id s = Some true) /\
       Forall (fun eff => forall id, is_output_for id eff ->
                 is_handshake id e = true \/
                 (creating e = false /\ ready_of id s = Some true)) l) s)
    as Hhs.
  { intros id0 A m He Hm. eapply wp_mono; [exact Hm|].
    intros r s' l [Hr Hl]. split.
    - intros id [->|?]%Hr; auto.
    - eapply Forall_impl; [exact Hl|]. intros eff [Hq|Hout] id Hid.
      + by apply no_output_not in Hid.
      + destruct Hout as (d & Hd), Hid as (d' & Hd').
        left. destruct Hd as [->|(wp & ->)], Hd' as [Hd'|(wp' & Hd')];
          by simplify_eq. }
  destruct e as [cfg|m|m|id|id data|id code|id msg|id b paths ex| | |id|id title|h];
    cbn [handle].
  - apply Hquiet. apply wp_bind. eapply wp_mono; [apply createTerminal_Quiet|].
    intros [] ???; wp_run; rewrite ?app_nil_r; assumption.
  - destruct m as [m| |id cols rows|id| |title makeActive|id title|];
      cbn [handlePanelMessage].
    + destruct m; try (apply Hquiet, handleWebviewMessage_Quiet; done).
      apply (Hhs terminalId); [cbn; by case_bool_decide|].
      apply handleTerminalReady_Handshake.
    + apply Hquiet. wp_run. quiet.
    + apply Hquiet. unfold handleTerminalResize. wp_auto; quiet.
    + apply Hquiet, destroyTerminal_Quiet.
    + apply Hquiet. apply wp_bind. eapply wp_mono; [apply createTerminal_Quiet|].
      intros [] ???; wp_run; rewrite ?app_nil_r; assumption.
    + apply Hquiet. apply wp_bind. eapply wp_mono; [apply createPanelTerminalWithTitle_Quiet|].
      intros [] ???; wp_run; rewrite ?app_nil_r; assumption.
    + apply Hquiet. unfold handleTabRenamed. wp_auto; quiet.
    + apply Hquiet. wp_run. quiet.
  - destruct m; try (apply Hquiet, handleWebviewMessage_Quiet; done).
    apply (Hhs terminalId); [cbn; by case_bool_decide|].
    apply handleTerminalReady_Handshake.
  - apply Hquiet, destroyTerminal_Quiet.
  - eapply wp_mono; [apply handlePtyData_Data|].
    intros r s' l [Hr Hl]. split; [auto|].
    eapply Forall_impl; [exact Hl|]. intros eff [Hq|[Hout Hrdy]] id' Hid.
    + by apply no_output_not in Hid.
    + right. split; [done|].
      destruct Hout as (d & Hd), Hid as (d' & Hd').
      destruct Hd as [->|(wp & ->)], Hd' as [Hd'|(wp' & Hd')];
        by simplify_eq.
  - apply Hquiet. unfold handlePtyExit. wp_auto; quiet.
  - apply Hquiet. unfold handlePtyError. wp_auto; quiet.
  - apply Hquiet. unfold batchCheckCompleted. wp_auto; quiet.
  - apply Hquiet. unfold broadcastSettingsUpdate, broadcast. wp_run.
    apply (wp_for_each_pure _ _ no_output); [|intros; quiet].
    intros [id i]. wp_auto; split_and!; try done; solve_quiet.
  - apply Hquiet. unfold broadcastThemeUpdate, broadcast. wp_run.
    apply (wp_for_each_pure _ _ no_output); [|intros; quiet].
    intros [id i]. wp_auto; split_and!; try done; solve_quiet.
  - apply Hquiet, destroyTerminal_Quiet.
  - apply Hquiet. unfold renameTerminal. wp_auto; quiet.
  - apply Hquiet. unfold fireTimer, runTimer. wp_auto; quiet.
Qed.

Lemma ready_handshaken past s id :
  reachable past s -> ready_of id s = Some true ->
  handshaken id past = true.
Proof.
  intros Hreach. revert id.
  induction Hreach as [|past s host e _ IH Hfresh]; intros id Hready.
  - done.
  - cbn [handshaken].
    destruct (is_handshake id e) eqn:Hhs; [done|].
    pose proof (wp_elim _ _ _ (handle_outputs host e s)) as [Hr _].
    cbn beta in Hr. destruct (Hr id Hready) as [?|Hs]; [congruence|].
    rewrite (IH _ Hs).
    destruct (creating e) eqn:Hc; [|done]. cbn.
    case_bool_decide as Hid; [|done]. subst id.
    unfold ready_of in Hs. by rewrite (Hfresh Hc) in Hs.
Qed.

Lemma outputs_handshaken past s host e eff id :
  reachable past s -> eff ∈ effects host e s -> is_output_for id eff ->
  handshaken id ((host, e) :: past) = true.
Proof.
  intros Hreach Hin Hout. cbn [handshaken].
  pose proof (wp_elim _ _ _ (handle_outputs host e s)) as [_ Hl].
  cbn beta in Hl. rewrite Forall_forall in Hl.
  destruct (Hl _ Hin _ Hout) as [->|[Hc Hs]]; [done|].
  destruct (is_handshake id e); [done|]. rewrite Hc. cbn.
  by apply (ready_handshaken past s).
Qed.

Lemma handlePtyData_unready host id data s i :
  OMap.get id (terminals s) = Some i -> ready i = false ->
  Eff.wp (handlePtyData host id data)
    (fun r s' l =>
       Forall (fun eff => is_post eff = false) l /\
       (r = Eff.Ok tt ->
        queue_of id s'
        = Some (if length (dataQueue i) <? TerminalUtils.MAX_DATA_QUEUE_SIZE
                then dataQueue i ++ [data] else dataQueue i)) /\
       (length (dataQueue i) = TerminalUtils.MAX_DATA_QUEUE_SIZE ->
        queue_of id s' = Some (dataQueue i))) s.
Proof.
  intros Hi Hr.
  unfold handlePtyData, parseOSC7, handleOSC9Notification. wp_auto.
  all: simplify_eq.
  all: split_and!;
    [ solve_logs
    | unfold queue_of; intros; st_simpl; map_simpl; rewrite ?Hi; try done
    | unfold queue_of; intros Hlen; st_simpl; map_simpl; rewrite ?Hi;
      try done;
      repeat match goal with
      | H : (_ <? _) = true |- _ => apply Nat.ltb_lt in H
      end; try lia ].
Qed.

Lemma freshb_fresh host e s : freshb host e s = true -> fresh host e s.
Proof.
  unfold freshb, fresh, OMap.has. intros Hb Hc. rewrite Hc in Hb.
  cbn in Hb. by destruct (OMap.get _ _).
Qed.

Lemma run_reachable evs past s :
  reachable past s -> all_fresh s evs = true ->
  reachable (rev evs ++ past) (run s evs).
Proof.
  revert past s. induction evs as [|[host e] evs IH]; intros past s Hr Hf.
  - done.
  - cbn in Hf. apply andb_prop in Hf as [Hf1 Hf2].
    cbn [run rev]. rewrite <- app_assoc. apply IH; [|done].
    constructor; [done|]. by apply freshb_fresh.
Qed.

Lemma full_state_reachable : reachable (rev full_events) full_state.
Proof.
  rewrite <- (app_nil_r (rev full_events)).
  apply run_reachable; [constructor|]. by vm_compute.
Qed.

(** C1, where it fails: a chunk that arrives for a terminal whose queue
    holds 1000 chunks is not appended. *)
Lemma chunk_dropped_at_cap :
  reachable (rev full_events) full_state /\
  ready <$> OMap.get "A" (terminals full_state) = Some false /\
  length <$> queue_of "A" full_state = Some 1000 /\
  Eff.res (handle (demo_host "A") (PtyData "A" (JS.lit "y")) full_state)
  = Eff.Ok tt /\
  queue_of "A" (step (demo_host "A") (PtyData "A" (JS.lit "y")) full_state)
  = queue_of "A" full_state.
Proof.
  split; [apply full_state_reachable|]. by vm_compute.
Qed.

Lemma post_log_ready id m s i :
  OMap.get id (terminals s) = Some i -> ready i = true ->
  post_log id m s = [channel_post i m].
Proof.
  intros Hi Hr. unfold post_log, channel_post. rewrite Hi, Hr.
  by destruct (surface i).
Qed.

Lemma flat_map_singleton {A B} (f : A -> B) (l : list A) :
  flat_map (fun x => [f x]) l = map f l.
Proof. induction l; cbn; congruence. Qed.

Lemma flush_log id i i' s l :
  OMap.get id (terminals s) = Some i' -> ready i' = true ->
  surface i' = surface i ->
  flat_map (fun d => post_log id (pty_data id d) s) l
  = map (fun d => channel_post i (pty_data id d)) l.
Proof.
  intros Hi Hr Hs. induction l as [|d l IH]; [done|].
  cbn [flat_map map]. rewrite IH, (post_log_ready _ _ _ _ Hi Hr).
  unfold channel_post. by rewrite Hs.
Qed.

(** C2.  A ready handshake for a registered terminal, from the panel or
    from an editor webview, cancels the ready timeout if one is armed,
    resizes the PTY to the reported size, and then hands to the terminal's
    UI channel the settings, the theme, the runtime configuration and the
    buffered chunks, each chunk once and in arrival order.  Afterwards no
    ready timeout of the terminal is armed, the PTY has the reported size,
    and the terminal is ready with an empty queue. *)
Theorem ready_handshake host id cols rows past s i :
  reachable past s ->
  OMap.get id (terminals s) = Some i ->
  let o := handleTerminalReady host id cols rows s in
  handle host (PanelMessage (common (terminal_ready id cols rows))) s = o /\
  handle host (EditorMessage (terminal_ready id cols rows)) s = o /\
  Eff.res o = Eff.Ok tt /\
  Eff.log o
  = match readyTimeout i with Some h => [ClearTimeout h] | None => [] end
    ++ PtyResize id cols rows
    :: channel_post i (update_settings id (displaySettings host))
    :: channel_post i (update_theme id (terminalTheme host))
    :: channel_post i (update_config (getRuntimeConfig host))
    :: map (fun data => channel_post i (pty_data id data)) (dataQueue i) /\
  (forall h, timers (Eff.st o) !! h <> Some (ReadyTimeout id)) /\
  OMap.get id (instances (Eff.st o))
  = Some {| pty_cols := cols; pty_rows := rows |} /\
  exists i',
    OMap.get id (terminals (Eff.st o)) = Some i' /\
    ready i' = true /\ readyTimeout i' = None /\ dataQueue i' = [].
Proof.
  intros Hreach Hi o. split; [done|]. split; [done|].
  destruct (reachable_Inv _ _ Hreach) as [_ Hp Ht].
  destruct (Hp _ _ Hi) as [p Hpty].
  apply (wp_elim (handleTerminalReady host id cols rows)
    (fun r s' l =>
       r = Eff.Ok tt /\
       l = match readyTimeout i with
           | Some h => [ClearTimeout h] | None => [] end
           ++ PtyResize id cols rows
           :: channel_post i (update_settings id (displaySettings host))
           :: channel_post i (update_theme id (terminalTheme host))
           :: channel_post i (update_config (getRuntimeConfig host))
           :: map (fun data => channel_post i (pty_data id data))
                  (dataQueue i) /\
       (forall h, timers s' !! h <> Some (ReadyTimeout id)) /\
       OMap.get id (instances s')
       = Some {| pty_cols := cols; pty_rows := rows |} /\
       exists i',
         OMap.get id (terminals s') = Some i' /\
         ready i' = true /\ readyTimeout i' = None /\ dataQueue i' = [])).
  unfold handleTerminalReady. wp_auto; simplify_eq.
  all: split_and!;
    [ done
    | cbn [app];
      repeat (erewrite post_log_ready;
              [|st_simpl; by rewrite get_set_eq|done]);
      erewrite (flush_log id i);
        [|st_simpl; by rewrite get_set_eq|done|done];
      by rewrite app_nil_r
    | intros h Hh; st_simpl; map_simpl; repeat case_decide; try done;
      destruct (Ht _ _ Hh) as (i' & Hi' & Hrt); congruence
    | done
    | eexists; split; [done|]; by st_simpl ].
Qed.

Lemma destroy_absent host id s :
  OMap.get id (terminals s) = None ->
  destroyTerminal host id s = Eff.Outcome (Eff.Ok tt) s [].
Proof.
  intros Hi. unfold destroyTerminal, lookup, get.
  unfold mbind, Eff.M_bind, Eff.bind, Eff.get, mret, Eff.M_ret, Eff.ret.
  cbn. by rewrite Hi.
Qed.

(** C4.  After [destroyTerminal(id)] the id is absent from the registry,
    and a second [destroyTerminal(id)] returns without throwing, calls
    nothing (no kill, no timer, no panel) and leaves the state, with its
    set of used indices, as it is. *)
Theorem destroy_twice host host' id s :
  let first := destroyTerminal host id s in
  let second := destroyTerminal host' id (Eff.st first) in
  OMap.get id (terminals (Eff.st first)) = None /\
  second = Eff.Outcome (Eff.Ok tt) (Eff.st first) [].
Proof.
  intros first second.
  assert (OMap.get id (terminals (Eff.st first)) = None) as Hgone.
  { apply (wp_elim (destroyTerminal host id)
             (fun _ s' _ => OMap.get id (terminals s') = None)).
    apply wp_destroy.
    destruct (OMap.get id (terminals s)) eqn:Hi; [|done].
    intros _ _. cbn. apply get_delete_eq. }
  split; [done|]. by apply destroy_absent.
Qed.





(** C9.  An armed ready timeout always belongs to a registered terminal
    that records its handle: every teardown clears it.  The delay armed
    at PTY exit is not cleared by teardown; when it fires for a terminal
    that is gone it is removed and nothing else happens. *)
Theorem timers_after_teardown past s :
  reachable past s ->
  (forall h id, timers s !! h = Some (ReadyTimeout id) ->
                exists i, OMap.get id (terminals s) = Some i /\
                          readyTimeout i = Some h) /\
  (forall host h id,
      timers s !! h = Some (ExitClose id) ->
      OMap.get id (terminals s) = None ->
      handle host (TimerFired h) s
      = Eff.Outcome (Eff.Ok tt)
                    (with_timers (delete h) (nextTimer s) s) []).
Proof.
  intros Hreach. split.
  - by destruct (reachable_Inv _ _ Hreach).
  - intros host h id Hh Hid. cbn [handle].
    unfold fireTimer, runTimer, get, modify.
    unfold mbind, Eff.M_bind, Eff.bind, Eff.get, Eff.modify.
    cbn. rewrite Hh. cbn. by rewrite destroy_absent.
Qed.

(** C9, where it fails: after PTY exit and a close of the tab, the
    terminal is gone and its exit delay is still armed. *)
Lemma exit_timer_outlives_terminal :
  let s := run initial closed_events in
  reachable (rev closed_events) s /\
  OMap.get "A" (terminals s) = None /\
  timers s !! 1 = Some (ExitClose "A").
Proof.
  intros s. split.
  - rewrite <- (app_nil_r (rev closed_events)).
    apply run_reachable; [constructor|]. by vm_compute.
  - by vm_compute.
Qed.

(** C3, where it fails: a chunk with a malformed working-directory
    report, arriving for a terminal that is not ready and whose queue is
    full, makes [handlePtyData] throw. *)
Lemma capped_queue_chunk_throws :
  reachable (rev full_events) full_state /\
  ready <$> OMap.get "A" (terminals full_state) = Some false /\
  length <$> queue_of "A" full_state
  = Some TerminalUtils.MAX_DATA_QUEUE_SIZE /\
  Eff.res (handle (demo_host "A") (PtyData "A" bad_chunk) full_state)
  = Eff.Throw Eff.URIError.
Proof. split; [apply full_state_reachable|]. by vm_compute. Qed.

(** C1.  Whatever is handled in a reachable state, an output message for a
    terminal reaches a UI channel only if the ready handshake of that
    terminal has been handled, at the latest by the event itself.  A chunk
    that arrives for a terminal that is not ready is handed to no UI
    channel; when the handler returns, the chunk is at the end of the queue
    if the queue held fewer than 1000 chunks, and the queue is unchanged
    otherwise. *)
Theorem buffer_before_ready past s host e :
  reachable past s ->
  (forall id eff,
      eff ∈ effects host e s -> is_output_for id eff ->
      handshaken id ((host, e) :: past) = true) /\
  (forall id data i,
      e = PtyData id data ->
      OMap.get id (terminals s) = Some i -> ready i = false ->
      Forall (fun eff => is_post eff = false) (effects host e s) /\
      (Eff.res (handle host e s) = Eff.Ok tt ->
       queue_of id (step host e s)
       = Some (if length (dataQueue i) <? TerminalUtils.MAX_DATA_QUEUE_SIZE
               then dataQueue i ++ [data] else dataQueue i))).
Proof.
  intros Hreach. split.
  - intros id eff. by apply outputs_handshaken.
  - intros id data i -> Hi Hr.
    pose proof (wp_elim _ _ _ (handlePtyData_unready host id data s i Hi Hr))
      as (Hl & Hq & _).
    split; [exact Hl|exact Hq].
Qed.

Lemma one_state_reachable : reachable (rev one_events) one_state.
Proof.
  rewrite <- (app_nil_r (rev one_events)).
  apply run_reachable; [constructor|]. by vm_compute.
Qed.

Lemma buffer_before_ready_witness :
  let host := demo_host "A" in
  let e := PtyData "A" (JS.lit "x") in
  exists i,
    OMap.get "A" (terminals one_state) = Some i /\
    Forall (fun eff => is_post eff = false) (effects host e one_state) /\
    (Eff.res (handle host e one_state) = Eff.Ok tt ->
     queue_of "A" (step host e one_state)
     = Some (if length (dataQueue i) <? TerminalUtils.MAX_DATA_QUEUE_SIZE
             then dataQueue i ++ [JS.lit "x"] else dataQueue i)).
Proof.
  intros host e. eexists. split; [by vm_compute|].
  apply (proj2 (buffer_before_ready (rev one_events) one_state host e
                  one_state_reachable) "A" (JS.lit "x"));
    by vm_compute.
Defined.




Lemma three_state_reachable : reachable (rev three_events) three_state.
Proof.
  rewrite <- (app_nil_r (rev three_events)).
  apply run_reachable; [constructor|]. by vm_compute.
Qed.

Lemma ready_handshake_witness :
  let host := demo_host "A" in
  let o := handleTerminalReady host "A" 100 30 three_state in
  match OMap.get "A" (terminals three_state) with
  | Some i =>
      dataQueue i = [JS.lit "a"; JS.lit "b"; JS.lit "c"] /\
      Eff.res o = Eff.Ok tt /\
      Eff.log o
      = match readyTimeout i with
        | Some h => [ClearTimeout h]
        | None => []
        end
        ++ PtyResize "A" 100 30
        :: channel_post i (update_settings "A" (displaySettings host))
        :: channel_post i (update_theme "A" (terminalTheme host))
        :: channel_post i (update_config (getRuntimeConfig host))
        :: map (fun data => channel_post i (pty_data "A" data)) (dataQueue i) /\
      OMap.get "A" (instances (Eff.st o))
      = Some {| pty_cols := 100; pty_rows := 30 |}
  | None => False
  end.
Proof.
  intros host o.
  destruct (OMap.get "A" (terminals three_state)) as [i|] eqn:Hi;
    [|by vm_compute in Hi].
  pose proof (ready_handshake host "A" 100 30 (rev three_events) three_state i
                three_state_reachable Hi) as H.
  cbv zeta in H. fold o in H.
  destruct H as (_ & _ & Hres & Hlog & _ & Hpty & _).
  split; [|split; [exact Hres|split; [exact Hlog|exact Hpty]]].
  vm_compute in Hi. injection Hi as <-. vm_compute. reflexivity.
Defined.


Lemma closed_state_reachable :
  reachable (rev closed_events) (run initial closed_events).
Proof.
  rewrite <- (app_nil_r (rev closed_events)).
  apply run_reachable; [constructor|]. by vm_compute.
Qed.

Lemma timers_after_teardown_witness :
  let s := run initial closed_events in
  handle (demo_host "A") (TimerFired 1) s
  = Eff.Outcome (Eff.Ok tt) (with_timers (delete 1) (nextTimer s) s) [].
Proof.
  intros s.
  apply (proj2 (timers_after_teardown (rev closed_events) s
                  closed_state_reachable) (demo_host "A") 1 "A");
    by vm_compute.
Defined.

(** C8.  The environment of a resolved configuration maps a name to the
    user's value when the user gave one, else to the forced value when the
    name is one of the three identification variables, else to the value
    inherited from the process. *)
Theorem resolveConfig_env process_env partial :
  let user := default ∅ (partial ≫= Config.env) in
  exists env,
    Config.env (TerminalUtils.resolveConfig process_env partial) = Some env /\
    (forall name,
        env !! name
        = match user !! name with
          | Some v => Some v
          | None =>
              match forced name with
              | Some f => Some f
              | None => process_env !! name
              end
          end) /\
    (forall name v, user !! name = Some v -> env !! name = Some v) /\
    (user !! "TERM_PROGRAM" = None ->
     env !! "TERM_PROGRAM" = Some "ghostty_vscode") /\
    (user !! "TERM_PROGRAM_VERSION" = None ->
     env !! "TERM_PROGRAM_VERSION" = Some "0.4.0") /\
    (user !! "COLORTERM" = None -> env !! "COLORTERM" = Some "truecolor").
Proof.
  intros user. eexists. split; [reflexivity|].
  assert (Hall : forall name,
    TerminalUtils.spread_obj (TerminalUtils.identification process_env) user
      !! name
    = match user !! name with
      | Some v => Some v
      | None =>
          match forced name with
          | Some f => Some f
          | None => process_env !! name
          end
      end).
  { intros name. unfold TerminalUtils.spread_obj, TerminalUtils.identification.
    rewrite lookup_union. destruct (user !! name) as [v|] eqn:Hu.
    - by rewrite union_Some_l.
    - rewrite (left_id_L None _). unfold forced.
      repeat case_bool_decide; subst;
        repeat (rewrite lookup_insert_eq || rewrite lookup_insert_ne by done);
        done. }
  split; [exact Hall|]. split_and!.
  - intros name v Hu. by rewrite Hall, Hu.
  - intros Hu. by rewrite Hall, Hu.
  - intros Hu. by rewrite Hall, Hu.
  - intros Hu. by rewrite Hall, Hu.
Qed.

Ltac orphan_solve :=
  unfold NoOrphan in *; intros; st_simpl; unfold destroyed in *; st_simpl;
  map_simpl; repeat case_decide; simplify_eq;
  try match goal with H : is_Some None |- _ => by destruct H end;
  try done; eauto.

Ltac orphan_auto := wp_auto; try done; orphan_solve.

Lemma handle_NoOrphan host e s :
  fresh host e s -> NoOrphan s -> NoOrphan (step host e s).
Proof.
  intros Hfresh HI.
  assert (Hnew : creating e = true ->
                 ~ is_Some (OMap.get (newTerminalId host) (instances s))).
  { intros Hc Hs. apply HI in Hs. rewrite (Hfresh Hc) in Hs.
    by destruct Hs. }
  apply (wp_elim (handle host e) (fun _ s' _ => NoOrphan s')).
  destruct e as [cfg|m|m|id|id data|id code|id msg|id b paths ex| | |id|id title|h];
    cbn [handle].
  - specialize (Hnew eq_refl).
    unfold createTerminal, createPanelTerminal, createEditorTerminal.
    orphan_auto.
  - destruct m as [m| |id cols rows|id| |title makeActive|id title|];
      cbn [handlePanelMessage].
    + destruct m; cbn [handleWebviewMessage];
        unfold handleTerminalReady, handleTerminalInput, handleTerminalResize,
          handleOpenUrl, handleOpenFile, handleBatchCheckFileExists,
          handleTerminalBell; orphan_auto.
    + by wp_run.
    + unfold handleTerminalResize. orphan_auto.
    + orphan_auto.
    + specialize (Hnew eq_refl).
      unfold createTerminal, createPanelTerminal, createEditorTerminal.
      orphan_auto.
    + specialize (Hnew eq_refl).
      unfold createPanelTerminalWithTitle. orphan_auto.
    + unfold handleTabRenamed. orphan_auto.
    + by wp_run.
  - destruct m; cbn [handleWebviewMessage];
      unfold handleTerminalReady, handleTerminalInput, handleTerminalResize,
        handleOpenUrl, handleOpenFile, handleBatchCheckFileExists,
        handleTerminalBell; orphan_auto.
  - orphan_auto.
  - unfold handlePtyData, parseOSC7, handleOSC9Notification. orphan_auto.
  - unfold handlePtyExit. orphan_auto.
  - unfold handlePtyError. orphan_auto.
  - unfold batchCheckCompleted. orphan_auto.
  - unfold broadcastSettingsUpdate, broadcast. wp_run.
    apply (wp_for_each_pure _ _ (fun _ => True)); [|done].
    intros [id i]. wp_auto; split_and!; try done; by apply Forall_true.
  - unfold broadcastThemeUpdate, broadcast. wp_run.
    apply (wp_for_each_pure _ _ (fun _ => True)); [|done].
    intros [id i]. wp_auto; split_and!; try done; by apply Forall_true.
  - orphan_auto.
  - unfold renameTerminal. orphan_auto.
  - unfold fireTimer, runTimer. orphan_auto.
Qed.

Lemma reachable_NoOrphan past s : reachable past s -> NoOrphan s.
Proof.
  induction 1 as [|past s host e _ IH Hok].
  - intros id. cbn. by intros [].
  - by apply handle_NoOrphan.
Qed.

(** X1.  In every reachable state the buffer queue of a registered
    terminal holds at most 1000 chunks. *)
Theorem queue_bounded past s id i :
  reachable past s ->
  OMap.get id (terminals s) = Some i ->
  length (dataQueue i) <= TerminalUtils.MAX_DATA_QUEUE_SIZE.
Proof. intros Hr. apply (inv_queue s (reachable_Inv _ _ Hr)). Qed.

Lemma queue_bounded_witness :
  exists i, OMap.get "A" (terminals full_state) = Some i /\
            length (dataQueue i) <= TerminalUtils.MAX_DATA_QUEUE_SIZE.
Proof.
  eexists. split; [by vm_compute|].
  apply (queue_bounded (rev full_events) full_state "A");
    [apply full_state_reachable|by vm_compute].
Defined.

(** X2.  In every reachable state the PTY service holds a process for
    exactly the registered terminals: no registered terminal is without
    one, and none is left behind by a terminal that is gone. *)
Theorem pty_iff_registered past s id :
  reachable past s ->
  is_Some (OMap.get id (instances s)) <-> is_Some (OMap.get id (terminals s)).
Proof.
  intros Hr. split.
  - apply (reachable_NoOrphan _ _ Hr).
  - intros [i Hi]. by apply (inv_pty s (reachable_Inv _ _ Hr) id i).
Qed.

Lemma pty_iff_registered_witness :
  is_Some (OMap.get "A" (instances one_state))
  <-> is_Some (OMap.get "A" (terminals one_state)).
Proof.
  exact (pty_iff_registered (rev one_events) one_state "A"
           one_state_reachable).
Defined.

(** X3.  In a reachable state a terminal-input message, from an editor
    webview or from the panel, writes its data to the PTY of a registered
    terminal and does nothing for an id that is not registered; the state
    is unchanged. *)
Theorem input_reaches_pty past s host id data :
  reachable past s ->
  let out := Eff.Outcome (Eff.Ok tt) s
               (if OMap.has id (terminals s) then [PtyWrite id data] else []) in
  handle host (EditorMessage (terminal_input id data)) s = out /\
  handle host (PanelMessage (common (terminal_input id data))) s = out.
Proof.
  intros Hr out.
  assert (handleTerminalInput id data s = out) as Heq.
  { pose proof (reachable_NoOrphan _ _ Hr id) as Hreg.
    pose proof (inv_pty s (reachable_Inv _ _ Hr) id) as Hpty.
    unfold out, handleTerminalInput, ptyService_write, OMap.has.
    unfold mbind, Eff.M_bind, Eff.bind, get, Eff.get, emit, Eff.emit,
      mret, Eff.M_ret, Eff.ret. cbn.
    destruct (OMap.get id (instances s)) as [p|] eqn:Hp,
             (OMap.get id (terminals s)) as [i|] eqn:Hi; try done.
    - destruct Hreg as [? ?]; [by eexists|done].
    - destruct (Hpty i eq_refl) as [? ?]. done. }
  split; exact Heq.
Qed.

Lemma input_reaches_pty_witness :
  handle (demo_host "A") (EditorMessage (terminal_input "A" (JS.lit "ls")))
         one_state
  = Eff.Outcome (Eff.Ok tt) one_state
      (if OMap.has "A" (terminals one_state)
       then [PtyWrite "A" (JS.lit "ls")] else []).
Proof.
  exact (proj1 (input_reaches_pty (rev one_events) one_state (demo_host "A")
                  "A" (JS.lit "ls") one_state_reachable)).
Defined.

Ltac await_solve :=
  unfold Awaiting in *; intros; st_simpl; unfold destroyed in *; st_simpl;
  map_simpl; repeat case_decide; simplify_eq; st_simpl;
  try done; try congruence; eauto.

Ltac await_auto := wp_auto; try done; await_solve.

Lemma handle_Awaiting host e s : Awaiting s -> Awaiting (step host e s).
Proof.
  intros HI.
  apply (wp_elim (handle host e) (fun _ s' _ => Awaiting s')).
  destruct e as [cfg|m|m|id|id data|id code|id msg|id b paths ex| | |id|id title|h];
    cbn [handle].
  - unfold createTerminal, createPanelTerminal, createEditorTerminal.
    await_auto.
  - destruct m as [m| |id cols rows|id| |title makeActive|id title|];
      cbn [handlePanelMessage].
    + destruct m; cbn [handleWebviewMessage];
        unfold handleTerminalReady, handleTerminalInput, handleTerminalResize,
          handleOpenUrl, handleOpenFile, handleBatchCheckFileExists,
          handleTerminalBell; await_auto.
    + by wp_run.
    + unfold handleTerminalResize. await_auto.
    + await_auto.
    + unfold createTerminal, createPanelTerminal, createEditorTerminal.
      await_auto.
    + unfold createPanelTerminalWithTitle. await_auto.
    + unfold handleTabRenamed. await_auto.
    + by wp_run.
  - destruct m; cbn [handleWebviewMessage];
      unfold handleTerminalReady, handleTerminalInput, handleTerminalResize,
        handleOpenUrl, handleOpenFile, handleBatchCheckFileExists,
        handleTerminalBell; await_auto.
  - await_auto.
  - unfold handlePtyData, parseOSC7, handleOSC9Notification. await_auto.
  - unfold handlePtyExit. await_auto.
  - unfold handlePtyError. await_auto.
  - unfold batchCheckCompleted. await_auto.
  - unfold broadcastSettingsUpdate, broadcast. wp_run.
    apply (wp_for_each_pure _ _ (fun _ => True)); [|done].
    intros [id i]. wp_auto; split_and!; try done; by apply Forall_true.
  - unfold broadcastThemeUpdate, broadcast. wp_run.
    apply (wp_for_each_pure _ _ (fun _ => True)); [|done].
    intros [id i]. wp_auto; split_and!; try done; by apply Forall_true.
  - await_auto.
  - unfold renameTerminal. await_auto.
  - unfold fireTimer, runTimer. await_auto.
Qed.

Lemma reachable_Awaiting past s : reachable past s -> Awaiting s.
Proof.
  induction 1 as [|past s host e _ IH Hok].
  - intros id i h. cbn. done.
  - by apply handle_Awaiting.
Qed.

(** X4.  When an armed ready timeout fires, the error message is shown
    first and the terminal is destroyed: its id leaves the registry and
    the PTY service, and the timer is gone. *)
Theorem ready_timeout_destroys past s host h id :
  reachable past s ->
  timers s !! h = Some (ReadyTimeout id) ->
  let o := handle host (TimerFired h) s in
  Eff.res o = Eff.Ok tt /\
  head (Eff.log o) = Some (ShowErrorMessage timeout_message) /\
  OMap.get id (terminals (Eff.st o)) = None /\
  OMap.get id (instances (Eff.st o)) = None /\
  timers (Eff.st o) !! h = None.
Proof.
  intros Hr Hh o.
  destruct (inv_timer s (reachable_Inv _ _ Hr) h id Hh) as (i & Hi & Hrt).
  pose proof (reachable_Awaiting _ _ Hr id i h Hi Hrt) as Hready.
  unfold o.
  apply (wp_elim (handle host (TimerFired h))
           (fun r s' l =>
              r = Eff.Ok tt /\
              head l = Some (ShowErrorMessage timeout_message) /\
              OMap.get id (terminals s') = None /\
              OMap.get id (instances s') = None /\
              timers s' !! h = None)).
  cbn [handle]. unfold fireTimer, runTimer. wp_auto; simplify_eq.
  - rewrite Hrt. cbn [cancel app head]. by rewrite lookup_delete_eq.
  - rewrite Hready in *. done.
Qed.

Lemma ready_timeout_destroys_witness :
  let o := handle (demo_host "A") (TimerFired 0) one_state in
  OMap.get "A" (terminals (Eff.st o)) = None /\
  OMap.get "A" (instances (Eff.st o)) = None.
Proof.
  intros o.
  assert (Hh : timers one_state !! 0 = Some (ReadyTimeout "A"))
    by by vm_compute.
  pose proof (ready_timeout_destroys (rev one_events) one_state
                (demo_host "A") 0 "A" one_state_reachable Hh) as H.
  cbv zeta in H. fold o in H.
  destruct H as (_ & _ & Ht & Hp & _). by split.
Defined.

(** what a match consumed *)
Section MatcherFacts.
Context {R : Type}.
Implicit Types (k : @JS.cont R) (l : JS.str) (r : R).

Lemma m_lit_inv p k l r :
  JS.m_lit p k l = Some r -> exists l', l = p ++ l' /\ k l' = Some r.
Proof.
  revert l. induction p as [|c p IH]; intros l H; cbn in H.
  - by exists l.
  - destruct l as [|x l]; [done|].
    destruct (N.eqb_spec c x) as [->|]; [|done].
    destruct (IH _ H) as (l' & -> & Hk). by exists l'.
Qed.

Lemma m_star_inv C k l r :
  JS.m_star C k l = Some r -> exists pre l', l = pre ++ l' /\ k l' = Some r.
Proof.
  induction l as [|x l IH]; intros H; cbn in H.
  - by exists [], [].
  - destruct (C x); [|by exists [], (x :: l)].
    destruct (JS.m_star C k l) as [r'|] eqn:Hs.
    + destruct (IH H) as (pre & l' & -> & Hk).
      by exists (x :: pre), l'.
    + by exists [], (x :: l).
Qed.

Lemma m_star_cap_inv C acc (k : JS.str -> @JS.cont R) l r :
  JS.m_star_cap C acc k l = Some r ->
  exists cap l', l = cap ++ l' /\ k (acc ++ cap) l' = Some r.
Proof.
  revert acc. induction l as [|x l IH]; intros acc H; cbn in H.
  - exists [], []. split; [done|by rewrite app_nil_r].
  - destruct (C x);
      [|exists [], (x :: l); split; [done|by rewrite app_nil_r]].
    destruct (JS.m_star_cap C (acc ++ [x]) k l) as [r'|] eqn:Hs.
    + simplify_eq. destruct (IH _ Hs) as (cap & l' & -> & Hk).
      exists (x :: cap), l'. split; [done|].
      by rewrite <- app_assoc in Hk.
    + exists [], (x :: l). split; [done|by rewrite app_nil_r].
Qed.

Lemma m_plus_cap_inv C (k : JS.str -> @JS.cont R) l r :
  JS.m_plus_cap C k l = Some r ->
  exists cap l', l = cap ++ l' /\ k cap l' = Some r.
Proof.
  destruct l as [|x l]; [done|]. cbn.
  destruct (C x); [|done]. intros H.
  destruct (m_star_cap_inv _ _ _ _ _ H) as (cap & l' & -> & Hk).
  by exists (x :: cap), l'.
Qed.

Lemma search_inv (m : JS.str -> option R) l r :
  JS.search m l = Some r -> exists pre l', l = pre ++ l' /\ m l' = Some r.
Proof.
  induction l as [|x l IH]; cbn.
  - destruct (m []) eqn:Hm; [|done]. intros [= <-]. by exists [], [].
  - destruct (m (x :: l)) eqn:Hm.
    + intros [= <-]. by exists [], (x :: l).
    + intros H. destruct (IH H) as (pre & l' & -> & Hk).
      by exists (x :: pre), l'.
Qed.
End MatcherFacts.

Lemma terminator_const (g : JS.str) l r :
  terminator (fun _ => Some g) l = Some r -> r = g.
Proof.
  unfold terminator, JS.m_alt.
  destruct (JS.m_lit [JS.BEL] _ l) eqn:H1.
  - intros [= <-]. apply m_lit_inv in H1 as (? & _ & ?). congruence.
  - intros H2. apply m_lit_inv in H2 as (? & _ & ?). congruence.
Qed.

Lemma match_OSC7_inv data g :
  match_OSC7 data = Some g -> forall c, c ∈ g -> c ∈ data.
Proof.
  unfold match_OSC7. intros H c Hc.
  apply search_inv in H as (pre & l1 & -> & H).
  apply m_lit_inv in H as (l2 & -> & H).
  apply m_star_inv in H as (host & l3 & -> & H).
  apply m_plus_cap_inv in H as (cap & l4 & -> & H).
  apply terminator_const in H as ->.
  rewrite !elem_of_app. auto.
Qed.

Lemma decode_plain l : JS.percent ∉ l -> JS.decodeURIComponent l = Some l.
Proof.
  unfold JS.decodeURIComponent.
  induction l as [|c l IH]; [done|].
  intros [Hc Hl]%not_elem_of_cons. cbn [JS.decode_go].
  destruct (N.eqb_spec c JS.percent); [congruence|].
  by rewrite IH.
Qed.

(** X5.  [handlePtyData] throws only when the chunk holds a
    working-directory report whose path does not decode; a chunk without
    a percent sign never makes it throw. *)
Theorem handlePtyData_throws_on_bad_escape_only host id data s :
  (Eff.res (handle host (PtyData id data) s) <> Eff.Ok tt ->
   exists g, match_OSC7 data = Some g /\ JS.decodeURIComponent g = None) /\
  (JS.percent ∉ data ->
   Eff.res (handle host (PtyData id data) s) = Eff.Ok tt).
Proof.
  assert (Hres : Eff.res (handle host (PtyData id data) s) = Eff.Ok tt \/
                 exists g, match_OSC7 data = Some g /\
                           JS.decodeURIComponent g = None).
  { apply (wp_elim (handle host (PtyData id data))
             (fun r _ _ => r = Eff.Ok tt \/ _)).
    cbn [handle]. unfold handlePtyData, parseOSC7, handleOSC9Notification.
    wp_auto; eauto. }
  split.
  - intros Hne. by destruct Hres.
  - intros Hp. destruct Hres as [?|(g & Hg & Hd)]; [done|].
    rewrite decode_plain in Hd; [done|].
    intros Hin. by apply Hp, (match_OSC7_inv data g).
Qed.










Section Allowed.
Variable host : Host.

Lemma wp_kill_ok id (Q : Eff.result unit -> State -> list Effect -> Prop) s :
  (forall l, Forall (url_allowed host) l -> Q (Eff.Ok tt) (with_instances (OMap.delete id) s) l) ->
  Eff.wp (ptyService_kill id) Q s.
Proof.
  intros HQ. unfold ptyService_kill. wp_run.
  destruct (OMap.get id (instances s)) eqn:Hget; wp_run.
  - apply HQ. by repeat constructor.
  - specialize (HQ [] (Forall_nil_2 _)). unfold with_instances in HQ.
    rewrite delete_absent in HQ by done. by destruct s.
Qed.

Lemma wp_write_ok id data (Q : Eff.result unit -> State -> list Effect -> Prop) s :
  (forall l, Forall (url_allowed host) l -> Q (Eff.Ok tt) s l) ->
  Eff.wp (ptyService_write id data) Q s.
Proof.
  intros HQ. unfold ptyService_write. wp_run.
  destruct (OMap.get id (instances s)); wp_run; apply HQ; by repeat constructor.
Qed.

Lemma wp_spawnPty_ok host' id cfg
      (Q : Eff.result bool -> State -> list Effect -> Prop) s :
  (forall l, Forall (url_allowed host) l ->
    match spawnError host' with
    | Some _ => Q (Eff.Ok false) s l
    | None =>
        forall p, Q (Eff.Ok true) (with_instances (OMap.set id p) s) l
    end) ->
  Eff.wp (spawnPty host' id cfg) Q s.
Proof.
  intros HQ. unfold spawnPty, ptyService_spawn.
  apply wp_bind.
  destruct (spawnError host') eqn:Herr; wp_run.
  - apply (HQ [_]). by repeat constructor.
  - apply (HQ [_]). by repeat constructor.
Qed.

Lemma post_log_ok id m s : Forall (url_allowed host) (post_log id m s).
Proof.
  unfold post_log. repeat case_match; by repeat constructor.
Qed.

Lemma wp_destroy_ok host' id
      (Q : Eff.result unit -> State -> list Effect -> Prop) s :
  (forall s' l, Forall (url_allowed host) l -> Q (Eff.Ok tt) s' l) ->
  Eff.wp (destroyTerminal host' id) Q s.
Proof.
  intros HQ. unfold destroyTerminal. apply wp_bind, wp_lookup. wp_simpl.
  destruct (OMap.get id (terminals s)) as [i|]; [|by apply wp_ret, HQ].
  wp_run. apply wp_releaseIndex. wp_simpl. apply wp_bind.
  destruct (readyTimeout i) eqn:Hrt; [apply wp_clearTimeout | apply wp_ret];
    wp_simpl; apply wp_bind, wp_kill_ok; intros l Hl; wp_simpl;
    (destruct (surface i) eqn:Hsurf; wp_run;
     [|destruct (_ && _); wp_run]);
    apply HQ; cbn [app]; repeat (apply Forall_app_2 || apply Forall_cons_2);
    try done.
Qed.
End Allowed.

Ltac ok_step host :=
  wp_simpl; st_simpl; map_simpl; use_eqs; wp_simpl;
  lazymatch goal with
  | |- Eff.wp (lookup _) _ _ => apply wp_lookup
  | |- Eff.wp (postToTerminal _ _) _ _ => apply wp_post
  | |- Eff.wp (update _ _) _ _ => apply wp_update
  | |- Eff.wp (setTimeout _ _) _ _ => apply wp_setTimeout
  | |- Eff.wp (clearTimeout _) _ _ => apply wp_clearTimeout
  | |- Eff.wp (ptyService_kill _) _ _ => apply (wp_kill_ok host)
  | |- Eff.wp (ptyService_resize _ _ _) _ _ => apply wp_resize
  | |- Eff.wp (ptyService_write _ _) _ _ => apply (wp_write_ok host)
  | |- Eff.wp (releaseIndex _) _ _ => apply wp_releaseIndex
  | |- Eff.wp (spawnPty _ _ _) _ _ => apply (wp_spawnPty_ok host)
  | |- Eff.wp getNextIndex _ _ => apply wp_getNextIndex
  | |- Eff.wp (armReadyTimeout _) _ _ => apply wp_arm
  | |- Eff.wp (Eff.for_each _ (fun d => postToTerminal _ _)) _ _ =>
      apply wp_flush
  | |- Eff.wp (destroyTerminal _ _) _ _ => apply (wp_destroy_ok host)
  | |- Eff.wp (match ?x with _ => _ end) _ _ => destruct x eqn:?
  | |- match ?x with _ => _ end => destruct x eqn:?
  | |- Eff.wp _ _ _ => wp_prim
  | |- forall _, _ => intro
  | _ => idtac
  end.

Ltac ok_logs :=
  cbn [app];
  repeat first
    [ assumption
    | apply Forall_nil_2
    | apply Forall_app_2
    | apply Forall_cons_2
    | apply post_log_ok
    | apply Forall_flat_map; intros ?
    | exact I
    | (hnf; eexists; split; [eassumption|by eapply bool_decide_eq_true_1])
    | done ].

Ltac ok_auto host := repeat ok_step host; ok_logs.

Lemma handle_url_allowed host e s :
  Eff.wp (handle host e) (fun _ _ l => Forall (url_allowed host) l) s.
Proof.
  destruct e as [cfg|m|m|id|id data|id code|id msg|id b paths ex| | |id|id title|h];
    cbn [handle].
  - unfold createTerminal, createPanelTerminal, createEditorTerminal.
    ok_auto host.
  - destruct m as [m| |id cols rows|id| |title makeActive|id title|];
      cbn [handlePanelMessage].
    + destruct m; cbn [handleWebviewMessage];
        unfold handleTerminalReady, handleTerminalInput, handleTerminalResize,
          handleOpenUrl, handleOpenFile, handleBatchCheckFileExists,
          handleTerminalBell; ok_auto host.
    + by wp_run.
    + unfold handleTerminalResize. ok_auto host.
    + ok_auto host.
    + unfold createTerminal, createPanelTerminal, createEditorTerminal.
      ok_auto host.
    + unfold createPanelTerminalWithTitle. ok_auto host.
    + unfold handleTabRenamed. ok_auto host.
    + by wp_run.
  - destruct m; cbn [handleWebviewMessage];
      unfold handleTerminalReady, handleTerminalInput, handleTerminalResize,
        handleOpenUrl, handleOpenFile, handleBatchCheckFileExists,
        handleTerminalBell; ok_auto host.
  - ok_auto host.
  - unfold handlePtyData, parseOSC7, handleOSC9Notification. ok_auto host.
  - unfold handlePtyExit. ok_auto host.
  - unfold handlePtyError. ok_auto host.
  - unfold batchCheckCompleted. ok_auto host.
  - unfold broadcastSettingsUpdate, broadcast. wp_run.
    apply (wp_for_each_pure _ _ (url_allowed host)); [|done].
    intros [id i]. ok_auto host; split_and!; try done; ok_logs.
  - unfold broadcastThemeUpdate, broadcast. wp_run.
    apply (wp_for_each_pure _ _ (url_allowed host)); [|done].
    intros [id i]. ok_auto host; split_and!; try done; ok_logs.
  - ok_auto host.
  - unfold renameTerminal. ok_auto host.
  - unfold fireTimer, runTimer. ok_auto host.
Qed.

(** X7.  Whatever event is handled, a URL is opened externally only if
    it parses and its scheme is one of http, https, mailto, ftp, ssh, git
    and tel. *)
Theorem only_allowed_urls_opened host e s url :
  OpenExternal url ∈ effects host e s ->
  exists scheme,
    uriScheme host url = Some scheme /\ scheme ∈ ALLOWED_URL_SCHEMES.
Proof.
  intros Hin.
  pose proof (wp_elim _ _ _ (handle_url_allowed host e s)) as Hall.
  cbn beta in Hall. rewrite Forall_forall in Hall.
  exact (Hall _ Hin).
Qed.

Lemma only_allowed_urls_opened_witness :
  exists scheme,
    uriScheme browsing_host "https://example.org" = Some scheme /\
    scheme ∈ ALLOWED_URL_SCHEMES.
Proof.
  apply (only_allowed_urls_opened browsing_host
           (EditorMessage (open_url "A" "https://example.org")) initial).
  assert (effects browsing_host
            (EditorMessage (open_url "A" "https://example.org")) initial
          = [OpenExternal "https://example.org"]) as -> by by vm_compute.
  by left.
Defined.

Ltac distinct_solve :=
  unfold Distinct in *; intros; st_simpl; unfold destroyed in *; st_simpl;
  repeat first [ assumption
               | apply NoDup_keys_set
               | apply NoDup_keys_delete ].

Ltac distinct_auto := wp_auto; try done; distinct_solve.

Lemma handle_Distinct host e s : Distinct s -> Distinct (step host e s).
Proof.
  intros HI.
  apply (wp_elim (handle host e) (fun _ s' _ => Distinct s')).
  destruct e as [cfg|m|m|id|id data|id code|id msg|id b paths ex| | |id|id title|h];
    cbn [handle].
  - unfold createTerminal, createPanelTerminal, createEditorTerminal.
    distinct_auto.
  - destruct m as [m| |id cols rows|id| |title makeActive|id title|];
      cbn [handlePanelMessage].
    + destruct m; cbn [handleWebviewMessage];
        unfold handleTerminalReady, handleTerminalInput, handleTerminalResize,
          handleOpenUrl, handleOpenFile, handleBatchCheckFileExists,
          handleTerminalBell; distinct_auto.
    + by wp_run.
    + unfold handleTerminalResize. distinct_auto.
    + distinct_auto.
    + unfold createTerminal, createPanelTerminal, createEditorTerminal.
      distinct_auto.
    + unfold createPanelTerminalWithTitle. distinct_auto.
    + unfold handleTabRenamed. distinct_auto.
    + by wp_run.
  - destruct m; cbn [handleWebviewMessage];
      unfold handleTerminalReady, handleTerminalInput, handleTerminalResize,
        handleOpenUrl, handleOpenFile, handleBatchCheckFileExists,
        handleTerminalBell; distinct_auto.
  - distinct_auto.
  - unfold handlePtyData, parseOSC7, handleOSC9Notification. distinct_auto.
  - unfold handlePtyExit. distinct_auto.
  - unfold handlePtyError. distinct_auto.
  - unfold batchCheckCompleted. distinct_auto.
  - unfold broadcastSettingsUpdate, broadcast. wp_run.
    apply (wp_for_each_pure _ _ (fun _ => True)); [|done].
    intros [id i]. wp_auto; split_and!; try done; by apply Forall_true.
  - unfold broadcastThemeUpdate, broadcast. wp_run.
    apply (wp_for_each_pure _ _ (fun _ => True)); [|done].
    intros [id i]. wp_auto; split_and!; try done; by apply Forall_true.
  - distinct_auto.
  - unfold renameTerminal. distinct_auto.
  - unfold fireTimer, runTimer. distinct_auto.
Qed.

Lemma reachable_Distinct past s : reachable past s -> Distinct s.
Proof.
  induction 1 as [|past s host e _ IH Hok].
  - constructor.
  - by apply handle_Distinct.
Qed.

Lemma outcome_ext {A} (o : Eff.outcome State Effect A) r s l :
  Eff.res o = r /\ Eff.st o = s /\ Eff.log o = l -> o = Eff.Outcome r s l.
Proof. destruct o. cbn. by intros (-> & -> & ->). Qed.

Lemma wp_broadcast_loop mk s (sub : list (TerminalId * TerminalInstance)) :
  (forall id i, (id, i) ∈ sub -> OMap.get id (terminals s) = Some i) ->
  Eff.wp (Eff.for_each sub
            (fun '(id, instance) =>
               if ready instance then postToTerminal id (mk id) else mret tt))
    (fun r s' l =>
       r = Eff.Ok tt /\ s' = s /\
       l = flat_map (fun '(id, i) =>
                       if ready i then [channel_post i (mk id)] else []) sub)
    s.
Proof.
  induction sub as [|[id i] sub IH]; intros Hsub; cbn [Eff.for_each flat_map].
  - by apply wp_ret.
  - assert (Hi : OMap.get id (terminals s) = Some i) by (apply Hsub; left).
    apply wp_bind. destruct (ready i) eqn:Hr.
    + apply wp_post. cbn beta iota.
      rewrite (post_log_ready _ _ _ _ Hi Hr).
      eapply wp_mono; [apply IH; intros; apply Hsub; by right|].
      cbn beta. by intros ??? (-> & -> & ->).
    + apply wp_ret. cbn beta iota.
      eapply wp_mono; [apply IH; intros; apply Hsub; by right|].
      cbn beta. by intros ??? (-> & -> & ->).
Qed.

(** X8.  In a reachable state a change of the settings, or of the theme,
    hands one update to the UI channel of every ready terminal, in
    registry order, hands nothing to the others, and leaves the state
    as it is. *)
Theorem broadcast_reaches_ready_terminals past s host :
  reachable past s ->
  handle host SettingsChanged s
  = Eff.Outcome (Eff.Ok tt) s
      (ready_channels (fun id => update_settings id (displaySettings host)) s) /\
  handle host ThemeChanged s
  = Eff.Outcome (Eff.Ok tt) s
      (ready_channels (fun id => update_theme id (terminalTheme host)) s).
Proof.
  intros Hr. pose proof (reachable_Distinct _ _ Hr) as Hd.
  assert (Hall : forall mk,
    Eff.wp (broadcast mk)
      (fun r s' l => r = Eff.Ok tt /\ s' = s /\ l = ready_channels mk s) s).
  { intros mk. unfold broadcast. wp_run.
    apply wp_broadcast_loop. intros id i Hin. by apply elem_get. }
  split; apply outcome_ext.
  - exact (wp_elim _ _ _ (Hall _)).
  - exact (wp_elim _ _ _ (Hall _)).
Qed.

Lemma ready_state_reachable : reachable (rev ready_events) ready_state.
Proof.
  rewrite <- (app_nil_r (rev ready_events)).
  apply run_reachable; [constructor|]. by vm_compute.
Qed.

Lemma broadcast_reaches_ready_terminals_witness :
  handle (demo_host "A") SettingsChanged ready_state
  = Eff.Outcome (Eff.Ok tt) ready_state
      (ready_channels
         (fun id => update_settings id (displaySettings (demo_host "A")))
         ready_state).
Proof.
  exact (proj1 (broadcast_reaches_ready_terminals (rev ready_events)
                  ready_state (demo_host "A") ready_state_reachable)).
Defined.

End ManagerFacts.

(** ** The batched file checks of the webview *)

Module WebviewFacts.
Import Webview.
Local Open Scope nat_scope.

Lemma wp_resolves (callbacks : list Callback) v
      (Q : Eff.result unit -> State -> list Effect -> Prop) s :
  Q (Eff.Ok tt) s (map (fun cb => Resolve cb v) callbacks) ->
  Eff.wp (Eff.for_each callbacks (fun cb => emit (Resolve cb v))) Q s.
Proof.
  revert Q. induction callbacks as [|cb l IH]; intros Q HQ; cbn [Eff.for_each].
  - by apply wp_ret.
  - apply (wp_bind (emit (Resolve cb v))). wp_run. apply IH. exact HQ.
Qed.

Lemma wp_fileCache_set now path v
      (Q : Eff.result unit -> State -> list Effect -> Prop) s :
  Q (Eff.Ok tt) (with_fileCache (FileCache.set now path v) s) [] ->
  Eff.wp (fileCache_set now path v) Q s.
Proof. intros. unfold fileCache_set. by wp_run. Qed.

Lemma with_fileCache_compose f g s :
  with_fileCache g (with_fileCache f s) = with_fileCache (fun c => g (f c)) s.
Proof. done. Qed.

Lemma wp_timeout_loop now (batch : Batch)
      (Q : Eff.result unit -> State -> list Effect -> Prop) s :
  Q (Eff.Ok tt) (with_fileCache (timeout_cache now batch) s) (timeout_log batch) ->
  Eff.wp (Eff.for_each batch (fun '(path, callbacks) =>
            fileCache_set now path false;;
            Eff.for_each callbacks (fun cb => emit (Resolve cb false)))) Q s.
Proof.
  revert Q s. induction batch as [|[path cbs] batch IH]; intros Q s HQ;
    cbn [Eff.for_each].
  - apply wp_ret. by destruct s as [[]].
  - eapply wp_bind. apply wp_bind, wp_fileCache_set. cbn beta iota.
    apply wp_resolves. cbn beta iota. apply IH. cbn [app].
    rewrite with_fileCache_compose. exact HQ.
Qed.

Lemma wp_reply_loop now (batch : Batch) results
      (Q : Eff.result unit -> State -> list Effect -> Prop) s :
  Q (Eff.Ok tt) (with_fileCache (reply_cache now batch results) s)
    (reply_log batch results) ->
  Eff.wp (Eff.for_each results (fun '(path, exists_) =>
            match OMap.get path batch with
            | Some callbacks =>
                fileCache_set now path exists_;;
                Eff.for_each callbacks (fun cb => emit (Resolve cb exists_))
            | None => mret tt
            end)) Q s.
Proof.
  revert Q s. induction results as [|[path v] results IH]; intros Q s HQ;
    cbn [Eff.for_each].
  - apply wp_ret. by destruct s as [[]].
  - eapply wp_bind. unfold reply_cache, reply_log in HQ. cbn in HQ.
    destruct (OMap.get path batch) as [cbs|] eqn:Hget.
    + apply wp_bind, wp_fileCache_set. cbn beta iota.
      apply wp_resolves. cbn beta iota. apply IH. cbn [app].
      rewrite with_fileCache_compose. exact HQ.
    + apply wp_ret. cbn beta iota. apply IH. cbn [app].
      by destruct s as [[]].
Qed.

Ltac wst_simpl :=
  cbn [fileCache nextBatchId pendingBatches currentBatchCallbacks
       currentBatchId batchDebounceTimer batchTimeouts nextPromise
       with_fileCache with_pendingBatches with_currentBatchCallbacks
       with_batchDebounceTimer with_batchTimeouts] in *.

Lemma wp_debounceFired (Q : Eff.result unit -> State -> list Effect -> Prop) s :
  match batchDebounceTimer s with
  | None => Q (Eff.Ok tt) s []
  | Some terminalId =>
      if OMap.size (currentBatchCallbacks s) =? 0
      then Q (Eff.Ok tt) (with_batchDebounceTimer None s) []
      else Q (Eff.Ok tt) (sealed terminalId s) [request terminalId s]
  end ->
  Eff.wp debounceFired Q s.
Proof.
  intros HQ. unfold debounceFired, flushBatchFileChecks. wp_run.
  destruct (batchDebounceTimer s) as [tid|]; [|by wp_run].
  wp_run. wst_simpl.
  destruct (OMap.size (currentBatchCallbacks s) =? 0); wp_run; exact HQ.
Qed.

Lemma wp_checkFileExists now path terminalId
      (Q : Eff.result Callback -> State -> list Effect -> Prop) s :
  (let p := nextPromise s in
   match FileCache.get now path (fileCache s) with
   | (Some value, c) => Q (Eff.Ok p) (answered c s) [Resolve p value]
   | (None, c) => Q (Eff.Ok p) (registered path p terminalId c s) []
   end) ->
  Eff.wp (checkFileExists now path terminalId) Q s.
Proof.
  intros HQ. unfold checkFileExists, fileCache_get, newPromise. wp_run.
  destruct (FileCache.get now path (fileCache s)) as [[v|] c] eqn:Hget;
    wp_run; wst_simpl.
  - exact HQ.
  - unfold registered in HQ.
    destruct (OMap.get path (currentBatchCallbacks s)); wp_run; exact HQ.
Qed.

Lemma wp_batchTimeout now batchId
      (Q : Eff.result unit -> State -> list Effect -> Prop) s :
  match OMap.get batchId (pendingBatches s) with
  | Some batch =>
      Q (Eff.Ok tt)
        (settled batchId (timeout_cache now batch (fileCache s)) s)
        (timeout_log batch)
  | None => Q (Eff.Ok tt) s []
  end ->
  Eff.wp (batchTimeout now batchId) Q s.
Proof.
  intros HQ. unfold batchTimeout. wp_run.
  destruct (OMap.get batchId (pendingBatches s)) as [batch|]; [|by wp_run].
  wp_run. apply wp_timeout_loop. exact HQ.
Qed.

Lemma wp_batchFileExistsResult now batchId results
      (Q : Eff.result unit -> State -> list Effect -> Prop) s :
  match OMap.get batchId (pendingBatches s) with
  | Some batch =>
      Q (Eff.Ok tt)
        (settled batchId (reply_cache now batch results (fileCache s)) s)
        (reply_log batch results)
  | None => Q (Eff.Ok tt) s []
  end ->
  Eff.wp (batchFileExistsResult now batchId results) Q s.
Proof.
  intros HQ. unfold batchFileExistsResult. wp_run.
  destruct (OMap.get batchId (pendingBatches s)) as [batch|]; [|by wp_run].
  wp_run. apply wp_reply_loop. exact HQ.
Qed.

(** one rule for every event *)
Lemma wp_handle now e (Q : Eff.result unit -> State -> list Effect -> Prop) s :
  match e with
  | CheckFileExists path terminalId =>
      match FileCache.get now path (fileCache s) with
      | (Some value, c) =>
          Q (Eff.Ok tt) (answered c s) [Resolve (nextPromise s) value]
      | (None, c) =>
          Q (Eff.Ok tt) (registered path (nextPromise s) terminalId c s) []
      end
  | DebounceFired =>
      match batchDebounceTimer s with
      | None => Q (Eff.Ok tt) s []
      | Some terminalId =>
          if OMap.size (currentBatchCallbacks s) =? 0
          then Q (Eff.Ok tt) (with_batchDebounceTimer None s) []
          else Q (Eff.Ok tt) (sealed terminalId s) [request terminalId s]
      end
  | BatchTimeoutFired batchId =>
      if bool_decide (batchId ∈ batchTimeouts s) then
        match OMap.get batchId (pendingBatches s) with
        | Some batch =>
            Q (Eff.Ok tt)
              (settled batchId (timeout_cache now batch (fileCache s))
                       (disarmed batchId s))
              (timeout_log batch)
        | None => Q (Eff.Ok tt) (disarmed batchId s) []
        end
      else Q (Eff.Ok tt) s []
  | BatchFileExistsResult batchId results =>
      match OMap.get batchId (pendingBatches s) with
      | Some batch =>
          Q (Eff.Ok tt)
            (settled batchId (reply_cache now batch results (fileCache s)) s)
            (reply_log batch results)
      | None => Q (Eff.Ok tt) s []
      end
  end ->
  Eff.wp (handle now e) Q s.
Proof.
  intros HQ. destruct e as [path tid| |b|b results]; cbn [handle].
  - apply wp_bind, wp_checkFileExists. cbn zeta.
    destruct (FileCache.get now path (fileCache s)) as [[v|] c]; wp_run;
      by rewrite app_nil_r.
  - by apply wp_debounceFired.
  - wp_run. destruct (bool_decide (b ∈ batchTimeouts s)); wp_run; [|done].
    apply wp_batchTimeout. wst_simpl.
    destruct (OMap.get b (pendingBatches s)); exact HQ.
  - by apply wp_batchFileExistsResult.
Qed.

Lemma cur_at_registered path p tid c s path' q :
  cur_at (registered path p tid c s) path' q
  <-> cur_at s path' q \/ (path' = path /\ q = p).
Proof.
  unfold cur_at, holds_at. cbn. setoid_rewrite get_set. split.
  - intros (cbs & Hget & Hq). case_decide.
    + subst. simplify_eq.
      destruct (OMap.get path (currentBatchCallbacks s)) as [ex|] eqn:Hex.
      * apply elem_of_app in Hq as [Hq|Hq%list_elem_of_singleton]; eauto.
      * apply list_elem_of_singleton in Hq. eauto.
    + eauto.
  - intros [(cbs & Hget & Hq)|[-> ->]].
    + case_decide.
      * subst. rewrite Hget. eexists. split; [done|].
        apply elem_of_app. by left.
      * eauto.
    + rewrite decide_True by done. eexists. split; [done|].
      destruct (OMap.get path (currentBatchCallbacks s)).
      * apply elem_of_app. right. by apply list_elem_of_singleton.
      * by apply list_elem_of_singleton.
Qed.

Lemma pend_at_sealed tid s b path p :
  pend_at (sealed tid s) b path p
  <-> if decide (b = currentBatchId s) then cur_at s path p
      else pend_at s b path p.
Proof.
  unfold pend_at, cur_at. cbn. setoid_rewrite get_set.
  case_decide; [|done]. split.
  - by intros (batch & [= <-] & Hb).
  - eauto.
Qed.

Lemma cur_at_sealed tid s path p : cur_at (sealed tid s) path p <-> False.
Proof. unfold cur_at, holds_at. cbn. naive_solver. Qed.

Lemma pend_at_settled b c s b' path p :
  pend_at (settled b c s) b' path p <-> b' <> b /\ pend_at s b' path p.
Proof.
  unfold pend_at. cbn. setoid_rewrite get_delete.
  case_decide; naive_solver.
Qed.

(** the cache keeps its parameters *)
Lemma get_params now path c :
  FileCache.ttlMs (snd (FileCache.get now path c)) = FileCache.ttlMs c /\
  FileCache.maxSize (snd (FileCache.get now path c)) = FileCache.maxSize c.
Proof.
  unfold FileCache.get. destruct (OMap.get path (FileCache.cache c)); [|done].
  by case_match.
Qed.

Lemma set_params now path v c :
  FileCache.ttlMs (FileCache.set now path v c) = FileCache.ttlMs c /\
  FileCache.maxSize (FileCache.set now path v c) = FileCache.maxSize c.
Proof. done. Qed.

Lemma timeout_cache_params now batch c :
  FileCache.ttlMs (timeout_cache now batch c) = FileCache.ttlMs c /\
  FileCache.maxSize (timeout_cache now batch c) = FileCache.maxSize c.
Proof.
  unfold timeout_cache. revert c.
  induction batch as [|[path cbs] batch IH]; intros c; [done|].
  cbn [fold_left]. by rewrite !(proj1 (IH _)), !(proj2 (IH _)).
Qed.

Lemma reply_cache_params now batch results c :
  FileCache.ttlMs (reply_cache now batch results c) = FileCache.ttlMs c /\
  FileCache.maxSize (reply_cache now batch results c) = FileCache.maxSize c.
Proof.
  unfold reply_cache. revert c.
  induction results as [|[path v] results IH]; intros c; [done|].
  cbn [fold_left]. rewrite !(proj1 (IH _)), !(proj2 (IH _)).
  by destruct (OMap.get path batch).
Qed.

Lemma WInv_initial : WInv initial.
Proof.
  split; unfold cur_at, pend_at, holds_at; cbn;
    try naive_solver; try lia; try constructor.
Qed.

Lemma handle_WInv now e s : WInv s -> WInv (step now e s).
Proof.
  intros HI.
  apply (wp_elim (handle now e) (fun _ s' _ => WInv s')), wp_handle.
  destruct e as [path tid| |b|b results].
  - pose proof (get_params now path (fileCache s)) as [Httl Hmax].
    destruct (FileCache.get now path (fileCache s)) as [[v|] c];
      cbn [snd] in Httl, Hmax.
    + destruct HI. split; try done.
      * cbn. congruence.
      * cbn. congruence.
      * intros ?? H. apply w_bound_cur0 in H. cbn. lia.
      * intros ??? H. apply w_bound_pend0 in H. cbn. lia.
    + destruct HI. split.
      * cbn. by apply NoDup_keys_set.
      * done.
      * done.
      * done.
      * cbn. congruence.
      * cbn. congruence.
      * done.
      * intros path' q [H|[-> ->]]%cur_at_registered; cbn; [|lia].
        apply w_bound_cur0 in H. lia.
      * intros ??? H. apply w_bound_pend0 in H. cbn. lia.
      * intros path1 path2 b q [H|[-> ->]]%cur_at_registered Hp; [by eauto|].
        apply w_bound_pend0 in Hp. lia.
      * done.
      * intros path1 path2 q [H1|[? ?]]%cur_at_registered
          [H2|[? ?]]%cur_at_registered; subst; [by eauto| | |done].
        -- apply w_bound_cur0 in H1. lia.
        -- apply w_bound_cur0 in H2. lia.
  - destruct (batchDebounceTimer s) as [tid|]; [|done].
    destruct (OMap.size (currentBatchCallbacks s) =? 0).
    + by destruct HI.
    + destruct HI. split.
      * constructor.
      * cbn. intros b batch. rewrite get_set. case_decide; [|by eauto].
        by intros [= <-].
      * cbn. intros b. rewrite get_set. case_decide; [lia|].
        intros Hb%w_lt0. lia.
      * cbn. intros b. rewrite get_set, elem_of_app, list_elem_of_singleton.
        case_decide; [by right|]. intros Hb%w_armed0. by left.
      * done.
      * done.
      * cbn. lia.
      * by intros ?? []%cur_at_sealed.
      * intros b path p. rewrite pend_at_sealed. case_decide; eauto.
      * by intros ???? []%cur_at_sealed.
      * intros b b' path path' p. rewrite !pend_at_sealed.
        repeat case_decide; subst; intros H1 H2.
        -- split; [done|]. eauto.
        -- exfalso. eauto.
        -- exfalso. eauto.
        -- eauto.
      * by intros ??? []%cur_at_sealed.
  - destruct (bool_decide (b ∈ batchTimeouts s)); [|done].
    destruct (OMap.get b (pendingBatches s)) as [batch|] eqn:Hb.
    + destruct HI. split; try done.
      * cbn. intros b' batch'. rewrite get_delete. case_decide; [done|eauto].
      * cbn. intros b'. rewrite get_delete. case_decide; [by intros []|auto].
      * cbn. intros b'. rewrite get_delete, list_elem_of_filter.
        case_decide; [by intros []|auto].
      * cbn. by rewrite (proj1 (timeout_cache_params _ _ _)).
      * cbn. by rewrite (proj2 (timeout_cache_params _ _ _)).
      * intros b' path p [_ H]%pend_at_settled. eauto.
      * intros ???? H1 [_ H2]%pend_at_settled. eauto.
      * intros ????? [_ H1]%pend_at_settled [_ H2]%pend_at_settled. eauto.
    + destruct HI. split; try done.
      cbn. intros b' Hb'. rewrite list_elem_of_filter. split; [|auto].
      intros ->. rewrite Hb in Hb'. by destruct Hb'.
  - destruct (OMap.get b (pendingBatches s)) as [batch|]; [|by destruct HI].
    destruct HI. split; try done.
    + cbn. intros b' batch'. rewrite get_delete. case_decide; [done|eauto].
    + cbn. intros b'. rewrite get_delete. case_decide; [by intros []|auto].
    + cbn. intros b'. rewrite get_delete. case_decide; [by intros []|auto].
    + cbn. by rewrite (proj1 (reply_cache_params _ _ _ _)).
    + cbn. by rewrite (proj2 (reply_cache_params _ _ _ _)).
    + intros b' path p [_ H]%pend_at_settled. eauto.
    + intros ???? H1 [_ H2]%pend_at_settled. eauto.
    + intros ????? [_ H1]%pend_at_settled [_ H2]%pend_at_settled. eauto.
Qed.

Lemma reachable_WInv s : reachable s -> WInv s.
Proof. induction 1; [apply WInv_initial|by apply handle_WInv]. Qed.

Lemma occurrences_NoDup path paths :
  NoDup paths -> path ∈ paths -> occurrences path paths = 1.
Proof.
  unfold occurrences. induction 1 as [|x l Hx Hnd IH]; [by intros ?%elem_of_nil|].
  intros [->|Hin]%elem_of_cons.
  - rewrite filter_cons_True by done. cbn. f_equal.
    apply length_zero_iff_nil. 
    destruct (filter (λ x0 : string, x0 = x) l) as [|y l'] eqn:Hf; [done|].
    assert (Hy : y ∈ filter (λ x0 : string, x0 = x) l) by (rewrite Hf; left).
    apply list_elem_of_filter in Hy as [-> Hy]. done.
  - rewrite filter_cons_False; [by apply IH|]. intros ->. done.
Qed.

(** where a resolution can come from *)
Lemma holds_at_elem (batch : Batch) path cbs p :
  (path, cbs) ∈ batch -> p ∈ cbs -> NoDup (OMap.keys batch) ->
  holds_at batch path p.
Proof. intros Hin Hp Hnd. exists cbs. split; [by apply elem_get|done]. Qed.

Lemma timeout_log_elem (batch : Batch) p v :
  Resolve p v ∈ timeout_log batch
  <-> v = false /\ exists path cbs, (path, cbs) ∈ batch /\ p ∈ cbs.
Proof.
  unfold timeout_log. rewrite list_elem_of_In, in_flat_map. split.
  - intros ([path cbs] & Hin & Hr). apply list_elem_of_In in Hin.
    apply list_elem_of_In, list_elem_of_fmap in Hr as (cb & [= -> ->] & Hcb).
    eauto.
  - intros (-> & path & cbs & Hin & Hp). exists (path, cbs).
    split; [by apply list_elem_of_In|].
    apply list_elem_of_In, list_elem_of_fmap. eauto.
Qed.

Lemma reply_log_elem (batch : Batch) results p v :
  Resolve p v ∈ reply_log batch results
  <-> exists path, (path, v) ∈ results /\ holds_at batch path p.
Proof.
  unfold reply_log, holds_at. rewrite list_elem_of_In, in_flat_map. split.
  - intros ([path v'] & Hin & Hr). apply list_elem_of_In in Hin.
    destruct (OMap.get path batch) as [cbs|] eqn:Hget; [|done].
    apply list_elem_of_In, list_elem_of_fmap in Hr as (cb & [= -> ->] & Hcb).
    eauto.
  - intros (path & Hin & cbs & Hget & Hp). exists (path, v).
    split; [by apply list_elem_of_In|]. rewrite Hget.
    apply list_elem_of_In, list_elem_of_fmap. eauto.
Qed.

Lemma resolve_source now e s p v :
  WInv s -> Resolve p v ∈ effects now e s ->
  (p = nextPromise s /\ exists path tid, e = CheckFileExists path tid) \/
  (exists b path, pend_at s b path p /\
     (e = BatchTimeoutFired b \/ exists results, e = BatchFileExistsResult b results)).
Proof.
  intros HI. unfold effects.
  apply (wp_elim (handle now e) (fun _ _ l => Resolve p v ∈ l -> _)), wp_handle.
  destruct e as [path tid| |b|b results].
  - destruct (FileCache.get now path (fileCache s)) as [[v'|] c].
    + intros [= -> ->]%list_elem_of_singleton. left. eauto.
    + by intros ?%elem_of_nil.
  - destruct (batchDebounceTimer s) as [tid|]; [|by intros ?%elem_of_nil].
    destruct (OMap.size (currentBatchCallbacks s) =? 0);
      [by intros ?%elem_of_nil|].
    by intros [=]%list_elem_of_singleton.
  - destruct (bool_decide (b ∈ batchTimeouts s)); [|by intros ?%elem_of_nil].
    destruct (OMap.get b (pendingBatches s)) as [batch|] eqn:Hb;
      [|by intros ?%elem_of_nil].
    intros (-> & path & cbs & Hin & Hp)%timeout_log_elem. right.
    exists b, path. split; [|by left]. exists batch. split; [done|].
    eapply holds_at_elem; eauto. by eapply w_pend_keys.
  - destruct (OMap.get b (pendingBatches s)) as [batch|] eqn:Hb;
      [|by intros ?%elem_of_nil].
    intros (path & Hin & Hh)%reply_log_elem. right.
    exists b, path. split; [|right; by eauto]. by exists batch.
Qed.

Lemma step_cur now e s path p :
  e <> DebounceFired -> cur_at s path p ->
  cur_at (step now e s) path p /\
  currentBatchId (step now e s) = currentBatchId s.
Proof.
  intros He Hc.
  apply (wp_elim (handle now e)
           (fun _ s' _ => cur_at s' path p /\ currentBatchId s' = currentBatchId s)),
    wp_handle.
  destruct e as [path' tid| |b|b results]; [| done | |].
  - destruct (FileCache.get now path' (fileCache s)) as [[v|] c]; [done|].
    split; [|done]. apply cur_at_registered. by left.
  - destruct (bool_decide (b ∈ batchTimeouts s)); [|done].
    by destruct (OMap.get b (pendingBatches s)).
  - by destruct (OMap.get b (pendingBatches s)).
Qed.

Lemma step_armed now e s :
  e <> DebounceFired -> batchDebounceTimer s <> None ->
  batchDebounceTimer (step now e s) <> None.
Proof.
  intros He Hc.
  apply (wp_elim (handle now e) (fun _ s' _ => batchDebounceTimer s' <> None)),
    wp_handle.
  destruct e as [path' tid| |b|b results]; [| done | |].
  - by destruct (FileCache.get now path' (fileCache s)) as [[v|] c].
  - destruct (bool_decide (b ∈ batchTimeouts s)); [|done].
    by destruct (OMap.get b (pendingBatches s)).
  - by destruct (OMap.get b (pendingBatches s)).
Qed.

Lemma step_pend now e s b path p :
  WInv s ->
  e <> BatchTimeoutFired b ->
  (forall results, e <> BatchFileExistsResult b results) ->
  pend_at s b path p -> pend_at (step now e s) b path p.
Proof.
  intros HI He1 He2 Hp.
  apply (wp_elim (handle now e) (fun _ s' _ => pend_at s' b path p)), wp_handle.
  destruct e as [path' tid| |b'|b' results].
  - by destruct (FileCache.get now path' (fileCache s)) as [[v|] c].
  - destruct (batchDebounceTimer s) as [tid|]; [|done].
    destruct (OMap.size (currentBatchCallbacks s) =? 0); [done|].
    apply pend_at_sealed. rewrite decide_False; [done|].
    destruct Hp as (batch & Hb & _).
    assert (b < currentBatchId s) by (eapply w_lt; eauto). lia.
  - destruct (bool_decide (b' ∈ batchTimeouts s)); [|done].
    destruct (OMap.get b' (pendingBatches s)); [|done].
    apply pend_at_settled. split; [congruence|done].
  - destruct (OMap.get b' (pendingBatches s)); [|done].
    apply pend_at_settled. split; [|done]. intros ->. by eapply He2.
Qed.

Lemma step_unheld now e s p : WInv s -> unheld s p -> unheld (step now e s) p.
Proof.
  intros HI (Hc & Hp & Hlt).
  apply (wp_elim (handle now e) (fun _ s' _ => unheld s' p)), wp_handle.
  destruct e as [path' tid| |b'|b' results].
  - destruct (FileCache.get now path' (fileCache s)) as [[v|] c].
    + split; [done|]. split; [done|]. cbn. lia.
    + split; [|split; [done|cbn; lia]].
      intros path [H|[_ ->]]%cur_at_registered; [by eapply Hc|lia].
  - destruct (batchDebounceTimer s) as [tid|]; [|done].
    destruct (OMap.size (currentBatchCallbacks s) =? 0); [done|].
    split; [|split; [|done]].
    + by intros ? []%cur_at_sealed.
    + intros b path. rewrite pend_at_sealed. case_decide; eauto.
  - destruct (bool_decide (b' ∈ batchTimeouts s)); [|done].
    destruct (OMap.get b' (pendingBatches s)) as [batch|]; [|done].
    split; [done|]. split; [|done].
    intros b path [_ H]%pend_at_settled. by eapply Hp.
  - destruct (OMap.get b' (pendingBatches s)) as [batch|]; [|done].
    split; [done|]. split; [|done].
    intros b path [_ H]%pend_at_settled. by eapply Hp.
Qed.

Lemma run_WInv s evs : WInv s -> WInv (run s evs).
Proof.
  revert s. induction evs as [|[now e] evs IH]; intros s HI; [done|].
  cbn. by apply IH, handle_WInv.
Qed.

Lemma window_run s evs path p :
  WInv s -> cur_at s path p -> batchDebounceTimer s <> None -> window evs ->
  cur_at (run s evs) path p /\
  currentBatchId (run s evs) = currentBatchId s /\
  batchDebounceTimer (run s evs) <> None /\
  forall v, Resolve p v ∉ run_log s evs.
Proof.
  intros HI Hc Ht Hw. revert s HI Hc Ht.
  induction Hw as [|[now e] evs He Hw IH]; intros s HI Hc Ht.
  - cbn. repeat split; try done. by intros ? ?%elem_of_nil.
  - cbn [run run_log].
    destruct (step_cur now e s path p He Hc) as [Hc' Hid].
    destruct (IH (step now e s)) as (? & ? & ? & Hno);
      [by apply handle_WInv|done|by apply step_armed|].
    repeat split; [done|congruence|done|].
    intros v [Hr|Hr]%elem_of_app; [|by eapply Hno].
    apply resolve_source in Hr as [[-> _]|(b & path' & Hp & _)]; [| |done].
    + apply (w_bound_cur s HI) in Hc. lia.
    + by eapply (w_cur_pend s HI).
Qed.

Lemma flight_run s evs b path p :
  WInv s -> pend_at s b path p -> in_flight b evs ->
  pend_at (run s evs) b path p /\ forall v, Resolve p v ∉ run_log s evs.
Proof.
  intros HI Hp Hw. revert s HI Hp.
  induction Hw as [|[now e] evs [He1 He2] Hw IH]; intros s HI Hp.
  - cbn. split; [done|]. by intros ? ?%elem_of_nil.
  - cbn [run run_log].
    destruct (IH (step now e s)) as (? & Hno);
      [by apply handle_WInv|by apply step_pend|].
    split; [done|].
    intros v [Hr|Hr]%elem_of_app; [|by eapply Hno].
    apply resolve_source in Hr as [[-> _]|(b' & path' & Hp' & He)]; [| |done].
    + apply (w_bound_pend s HI) in Hp. lia.
    + destruct (w_pend_pend s HI _ _ _ _ _ Hp Hp') as [<- _].
      destruct He as [->|[results ->]]; [done|by eapply He2].
Qed.

Lemma unheld_run s evs p :
  WInv s -> unheld s p -> forall v, Resolve p v ∉ run_log s evs.
Proof.
  revert s. induction evs as [|[now e] evs IH]; intros s HI Hu v.
  - by intros ?%elem_of_nil.
  - cbn [run_log]. intros [Hr|Hr]%elem_of_app.
    + destruct Hu as (Hc & Hp & Hlt).
      apply resolve_source in Hr as [[-> _]|(b' & path' & Hp' & He)]; [| |done].
      * lia.
      * by eapply Hp.
    + eapply IH; [| |exact Hr]; [by apply handle_WInv|by apply step_unheld].
Qed.

Lemma run_app s l1 l2 : run s (l1 ++ l2) = run (run s l1) l2.
Proof. revert s. induction l1 as [|[now e] l1 IH]; intros s; [done|]. apply IH. Qed.

Lemma run_log_app s l1 l2 :
  run_log s (l1 ++ l2) = run_log s l1 ++ run_log (run s l1) l2.
Proof.
  revert s. induction l1 as [|[now e] l1 IH]; intros s; [done|].
  cbn [app run run_log]. by rewrite IH, app_assoc.
Qed.

(** what each event does, as equations *)
Lemma outcome_eq {A} (o : Eff.outcome State Effect A) r s l :
  Eff.res o = r /\ Eff.st o = s /\ Eff.log o = l -> o = Eff.Outcome r s l.
Proof. destruct o. cbn. by intros (-> & -> & ->). Qed.

Lemma check_miss now path tid s :
  fst (FileCache.get now path (fileCache s)) = None ->
  handle now (CheckFileExists path tid) s
  = Eff.Outcome (Eff.Ok tt)
      (registered path (nextPromise s) tid
         (snd (FileCache.get now path (fileCache s))) s) [].
Proof.
  intros Hmiss. apply outcome_eq.
  apply (wp_elim (handle now (CheckFileExists path tid))
           (fun r s' l => r = _ /\ s' = _ /\ l = _)), wp_handle.
  by destruct (FileCache.get now path (fileCache s)) as [[v|] c].
Qed.

Lemma debounce_flush now tid s :
  batchDebounceTimer s = Some tid -> currentBatchCallbacks s <> [] ->
  handle now DebounceFired s
  = Eff.Outcome (Eff.Ok tt) (sealed tid s) [request tid s].
Proof.
  intros Ht Hne. apply outcome_eq.
  apply (wp_elim (handle now DebounceFired)
           (fun r s' l => r = _ /\ s' = _ /\ l = _)), wp_handle.
  rewrite Ht. by destruct (currentBatchCallbacks s).
Qed.


Lemma timeout_idle now b s :
  OMap.get b (pendingBatches s) = None ->
  Eff.res (handle now (BatchTimeoutFired b) s) = Eff.Ok tt /\
  Eff.log (handle now (BatchTimeoutFired b) s) = [].
Proof.
  intros Hb.
  apply (wp_elim (handle now (BatchTimeoutFired b))
           (fun r s' l => r = _ /\ l = _)), wp_handle.
  rewrite Hb. by case_bool_decide.
Qed.

Lemma reply_arrived now b batch results s :
  OMap.get b (pendingBatches s) = Some batch ->
  handle now (BatchFileExistsResult b results) s
  = Eff.Outcome (Eff.Ok tt)
      (settled b (reply_cache now batch results (fileCache s)) s)
      (reply_log batch results).
Proof.
  intros Hb. apply outcome_eq.
  apply (wp_elim (handle now (BatchFileExistsResult b results))
           (fun r s' l => r = _ /\ s' = _ /\ l = _)), wp_handle.
  by rewrite Hb.
Qed.


Lemma cur_at_nonempty s path p : cur_at s path p -> currentBatchCallbacks s <> [].
Proof. intros (cbs & Hget & _) Heq. by rewrite Heq in Hget. Qed.

Lemma cur_at_keys s path p :
  cur_at s path p -> path ∈ OMap.keys (currentBatchCallbacks s).
Proof. intros (cbs & Hget & _). apply get_Some_keys. by eexists. Qed.

(** C6.  Two checks of one path that both miss the cache, with no expiry
    of the debounce timer from the first to the second and up to the
    flush: the request posted at the flush lists the path once; neither
    promise is resolved before the reply; and a reply that answers the
    path with [v] resolves both promises with [v] and with nothing
    else. *)
Theorem duplicate_check_coalesced
        s0 path t1 tid1 mid1 t2 tid2 mid2 tf mid3 tr results v :
  reachable s0 ->
  fst (FileCache.get t1 path (fileCache s0)) = None ->
  let s1 := step t1 (CheckFileExists path tid1) s0 in
  window mid1 ->
  let s2 := run s1 mid1 in
  fst (FileCache.get t2 path (fileCache s2)) = None ->
  let s3 := step t2 (CheckFileExists path tid2) s2 in
  window mid2 ->
  let s4 := run s3 mid2 in
  let b := currentBatchId s0 in
  let s5 := step tf DebounceFired s4 in
  in_flight b mid3 ->
  let s6 := run s5 mid3 in
  (path, v) ∈ results ->
  (forall v', (path, v') ∈ results -> v' = v) ->
  let p1 := nextPromise s0 in
  let p2 := nextPromise s2 in
  let reply := effects tr (BatchFileExistsResult b results) s6 in
  p1 <> p2 /\
  (exists tid paths,
      effects tf DebounceFired s4
      = [PostMessage (batch_check_file_exists tid b paths)] /\
      occurrences path paths = 1) /\
  (forall x, Resolve p1 x ∉
     run_log s0 ((t1, CheckFileExists path tid1) :: mid1 ++
                 (t2, CheckFileExists path tid2) :: mid2 ++
                 (tf, DebounceFired) :: mid3)) /\
  (forall x, Resolve p2 x ∉
     run_log s2 ((t2, CheckFileExists path tid2) :: mid2 ++
                 (tf, DebounceFired) :: mid3)) /\
  Resolve p1 v ∈ reply /\ Resolve p2 v ∈ reply /\
  (forall x, Resolve p1 x ∈ reply \/ Resolve p2 x ∈ reply -> x = v).
Proof.
  intros Hr Hm1 s1 Hw1 s2 Hm2 s3 Hw2 s4 b s5 Hf s6 Hin Hv p1 p2 reply.
  pose proof (reachable_WInv _ Hr) as HI0.
  (* first call *)
  assert (HI1 : WInv s1) by by apply handle_WInv.
  assert (Hs1 : s1 = registered path p1 tid1
                  (snd (FileCache.get t1 path (fileCache s0))) s0)
    by (unfold s1, step; by rewrite check_miss).
  assert (Hl1 : effects t1 (CheckFileExists path tid1) s0 = [])
    by (unfold effects; by rewrite check_miss).
  assert (Hc1 : cur_at s1 path p1)
    by (rewrite Hs1; apply cur_at_registered; by right).
  assert (Ht1 : batchDebounceTimer s1 <> None) by by rewrite Hs1.
  assert (Hb1 : currentBatchId s1 = b) by by rewrite Hs1.
  destruct (window_run s1 mid1 path p1 HI1 Hc1 Ht1 Hw1)
    as (Hc2 & Hb2 & Ht2 & Hn2). fold s2 in Hc2, Hb2, Ht2.
  (* second call *)
  assert (HI2 : WInv s2) by by apply run_WInv.
  assert (HI3 : WInv s3) by by apply handle_WInv.
  assert (Hs3 : s3 = registered path p2 tid2
                  (snd (FileCache.get t2 path (fileCache s2))) s2)
    by (unfold s3, step; by rewrite check_miss).
  assert (Hl3 : effects t2 (CheckFileExists path tid2) s2 = [])
    by (unfold effects; by rewrite check_miss).
  assert (Hc3 : cur_at s3 path p1)
    by (rewrite Hs3; apply cur_at_registered; by left).
  assert (Hc3' : cur_at s3 path p2)
    by (rewrite Hs3; apply cur_at_registered; by right).
  assert (Ht3 : batchDebounceTimer s3 <> None) by by rewrite Hs3.
  assert (Hb3 : currentBatchId s3 = b) by (rewrite Hs3; cbn; congruence).
  assert (Hlt : p1 < p2) by (by apply (w_bound_cur s2 HI2 path)).
  destruct (window_run s3 mid2 path p1 HI3 Hc3 Ht3 Hw2)
    as (Hc4 & Hb4 & Ht4 & Hn4). fold s4 in Hc4, Hb4, Ht4.
  destruct (window_run s3 mid2 path p2 HI3 Hc3' Ht3 Hw2)
    as (Hc4' & _ & _ & Hn4').  fold s4 in Hc4'.
  (* the window closes *)
  assert (HI4 : WInv s4) by by apply run_WInv.
  destruct (batchDebounceTimer s4) as [tid|] eqn:Htid; [|done].
  pose proof (debounce_flush tf tid s4 Htid (cur_at_nonempty _ _ _ Hc4))
    as Hflush.
  assert (Hs5 : s5 = sealed tid s4) by (unfold s5, step; by rewrite Hflush).
  assert (Hl5 : effects tf DebounceFired s4 = [request tid s4])
    by (unfold effects; by rewrite Hflush).
  assert (Hb4' : currentBatchId s4 = b) by congruence.
  assert (HI5 : WInv s5) by by apply handle_WInv.
  assert (Hp5 : forall p, cur_at s4 path p -> pend_at s5 b path p).
  { intros p Hp. rewrite Hs5. apply pend_at_sealed.
    by rewrite decide_True. }
  destruct (flight_run s5 mid3 b path p1 HI5 (Hp5 _ Hc4) Hf) as [Hp6 Hn6].
  destruct (flight_run s5 mid3 b path p2 HI5 (Hp5 _ Hc4') Hf) as [Hp6' Hn6'].
  fold s6 in Hp6, Hp6'.
  assert (HI6 : WInv s6) by by apply run_WInv.
  (* the reply *)
  destruct Hp6 as (batch & Hbatch & Hh1).
  destruct Hp6' as (batch' & Hbatch' & Hh2).
  assert (batch' = batch) as -> by congruence.
  assert (Hreply : reply = reply_log batch results)
    by (unfold reply, effects; by rewrite (reply_arrived _ _ batch)).
  assert (Hone : forall p x, holds_at batch path p ->
                   Resolve p x ∈ reply -> x = v).
  { intros p x Hh. rewrite Hreply.
    intros (path' & Hin' & Hh')%reply_log_elem.
    destruct (w_pend_pend s6 HI6 b b path path' p) as [_ <-];
      [by exists batch..|]. by apply Hv. }
  split; [lia|]. split; [|split; [|split; [|split; [|split]]]].
  - exists tid, (OMap.keys (currentBatchCallbacks s4)).
    split; [by rewrite Hl5; unfold request; rewrite Hb4'|].
    apply occurrences_NoDup; [by apply w_keys|by eapply cur_at_keys].
  - intros x. cbn [run_log]. rewrite Hl1. cbn [app]. fold s1.
    rewrite run_log_app. fold s2. cbn [run_log]. rewrite Hl3. cbn [app].
    fold s3. rewrite run_log_app. fold s4. cbn [run_log]. rewrite Hl5.
    fold s5. rewrite !elem_of_app, list_elem_of_singleton.
    intros [?|[?|[?|?]]]; [by eapply Hn2|by eapply Hn4|done|by eapply Hn6].
  - intros x. cbn [run_log]. rewrite Hl3. cbn [app].
    fold s3. rewrite run_log_app. fold s4. cbn [run_log]. rewrite Hl5.
    fold s5. rewrite !elem_of_app, list_elem_of_singleton.
    intros [?|[?|?]]; [by eapply Hn4'|done|by eapply Hn6'].
  - rewrite Hreply. apply reply_log_elem. eauto.
  - rewrite Hreply. apply reply_log_elem. eauto.
  - intros x [?|?]; eauto.
Qed.



Lemma delete_fresh {K V} `{EqDecision K} (m : OMap.t K V) k :
  k ∉ OMap.keys m -> OMap.delete k m = m.
Proof.
  induction m as [|[k' v'] m IH]; [done|]. cbn.
  intros [? ?]%not_elem_of_cons. rewrite decide_False by done.
  by rewrite IH.
Qed.

Lemma set_fresh {K V} `{EqDecision K} (m : OMap.t K V) k v :
  k ∉ OMap.keys m -> OMap.set k v m = m ++ [(k, v)].
Proof.
  induction m as [|[k' v'] m IH]; [done|]. cbn.
  intros [? ?]%not_elem_of_cons. rewrite decide_False by done.
  by rewrite IH.
Qed.

Lemma keys_delete_fresh {K V} `{EqDecision K} (m : OMap.t K V) k :
  k ∉ OMap.keys (OMap.delete k m).
Proof. apply get_None_keys, get_delete_eq. Qed.

Lemma set_room now path v c :
  FileCache.cache (FileCache.set now path v c)
  = OMap.set path {| FileCache.exists_ := v; FileCache.timestamp := now |}
             (room path c).
Proof. done. Qed.



Lemma set_get_same now path v c :
  OMap.get path (FileCache.cache (FileCache.set now path v c))
  = Some {| FileCache.exists_ := v; FileCache.timestamp := now |}.
Proof. by rewrite set_room, get_set_eq. Qed.














(** C10.  When the reply for a pending batch omits a path of the batch,
    the reply resolves the callbacks of the paths it lists and removes the
    batch; the timeout of the batch then resolves nothing, and a callback
    of the omitted path is never resolved, whatever happens later. *)
Theorem omitted_path_never_resolved s b path p now results future :
  reachable s ->
  pend_at s b path p ->
  (forall v, (path, v) ∉ results) ->
  let o := handle now (BatchFileExistsResult b results) s in
  (forall q v, Resolve q v ∈ Eff.log o
               <-> exists path', (path', v) ∈ results /\ pend_at s b path' q) /\
  (forall v, Resolve p v ∉ Eff.log o) /\
  OMap.get b (pendingBatches (Eff.st o)) = None /\
  (forall t, Eff.log (handle t (BatchTimeoutFired b) (Eff.st o)) = []) /\
  (forall v, Resolve p v ∉ run_log (Eff.st o) future).
Proof.
  intros Hr Hp Homit o. pose proof (reachable_WInv _ Hr) as HI.
  assert (HI' : WInv (Eff.st o)) by by apply (handle_WInv now _ s).
  destruct Hp as (batch & Hb & Hh).
  assert (Hp : pend_at s b path p) by by exists batch.
  revert HI'. unfold o. rewrite (reply_arrived now b batch results s Hb).
  cbn [Eff.res Eff.st Eff.log]. intros HI'.
  assert (Hlog : forall q v,
             Resolve q v ∈ reply_log batch results
             <-> exists path', (path', v) ∈ results /\ pend_at s b path' q).
  { intros q v. rewrite reply_log_elem. split.
    - intros (path' & Hin & Hq). exists path'. split; [done|]. by exists batch.
    - intros (path' & Hin & batch' & Hb' & Hq).
      assert (batch' = batch) as -> by congruence. eauto. }
  assert (Hnow : forall v, Resolve p v ∉ reply_log batch results).
  { intros v (path' & Hin & Hq)%Hlog.
    destruct (w_pend_pend s HI _ _ _ _ _ Hp Hq) as [_ <-]. by eapply Homit. }
  split; [done|]. split; [done|]. split; [|split].
  - cbn. apply get_delete_eq.
  - intros t. apply timeout_idle. cbn. apply get_delete_eq.
  - apply unheld_run; [done|]. split; [|split].
    + intros path' Hc. by eapply (w_cur_pend s HI).
    + intros b' path' [Hne Hq]%pend_at_settled.
      by destruct (w_pend_pend s HI _ _ _ _ _ Hp Hq) as [<- _].
    + cbn. by eapply (w_bound_pend s HI).
Qed.

Lemma run_reach s evs : reachable s -> reachable (run s evs).
Proof.
  revert s. induction evs as [|[now e] evs IH]; intros s Hr; [done|].
  cbn. apply IH. by constructor.
Qed.

Lemma sealed_state_reachable : reachable sealed_state.
Proof. apply run_reach. constructor. Qed.



Lemma omitted_path_never_resolved_witness :
  let o := handle 70 (BatchFileExistsResult 0 []) sealed_state in
  Eff.log o = [] /\
  Resolve 0 false ∉ run_log (Eff.st o) [ (2060%Z, BatchTimeoutFired 0) ].
Proof.
  intros o.
  assert (Hp : pend_at sealed_state 0 "a" 0).
  { exists [("a", [0])]. split; [by vm_compute|].
    exists [0]. split; [by vm_compute|]. by left. }
  assert (Ho : forall v : bool, ("a", v) ∉ @nil (string * bool))
    by (by intros v ?%elem_of_nil).
  pose proof (omitted_path_never_resolved sealed_state 0 "a" 0 70 []
                [ (2060%Z, BatchTimeoutFired 0) ] sealed_state_reachable
                Hp Ho) as H.
  cbv zeta in H. fold o in H.
  destruct H as (_ & _ & _ & _ & Hnever).
  split; [by vm_compute|]. apply Hnever.
Defined.

Lemma duplicate_check_coalesced_witness :
  let s1 := step 0 (CheckFileExists "a" "T") initial in
  let s2 := run s1 [] in
  let s3 := step 10 (CheckFileExists "a" "T") s2 in
  let s5 := step 60 DebounceFired (run s3 []) in
  let reply :=
    effects 70 (BatchFileExistsResult (currentBatchId initial) [("a", true)])
            (run s5 []) in
  Resolve (nextPromise initial) true ∈ reply /\
  Resolve (nextPromise s2) true ∈ reply.
Proof.
  intros s1 s2 s3 s5 reply.
  assert (Hm1 : fst (FileCache.get 0 "a" (fileCache initial)) = None)
    by by vm_compute.
  assert (Hm2 : fst (FileCache.get 10 "a" (fileCache s2)) = None)
    by by vm_compute.
  assert (Hin : ("a", true) ∈ [("a", true)]) by by left.
  assert (Hv : forall v', ("a", v') ∈ [("a", true)] -> v' = true)
    by (by intros v' [= ->]%list_elem_of_singleton).
  pose proof (duplicate_check_coalesced initial "a" 0 "T" [] 10 "T" [] 60 []
                70 [("a", true)] true reachable_initial Hm1
                (Forall_nil_2 _) Hm2 (Forall_nil_2 _) (Forall_nil_2 _)
                Hin Hv) as H.
  cbv zeta in H.
  destruct H as (_ & _ & _ & _ & H1 & H2 & _).
  split; [exact H1|exact H2].
Defined.

Lemma room_fresh path c : path ∉ OMap.keys (room path c).
Proof.
  unfold room, OMap.has.
  destruct (OMap.get path (FileCache.cache c)) eqn:Hget.
  - apply keys_delete_fresh.
  - apply get_None_keys in Hget.
    case_bool_decide; [|done]. unfold FileCache.evict_first.
    destruct (FileCache.cache c) as [|[k0 e0] m]; [done|].
    cbn [OMap.keys map fst]. case_bool_decide; [done|].
    intros Hin. by apply keys_delete_subseteq in Hin.
Qed.

Lemma cache_set_eq now path v c :
  FileCache.cache (FileCache.set now path v c)
  = room path c
    ++ [(path, {| FileCache.exists_ := v; FileCache.timestamp := now |})].
Proof. rewrite set_room. apply set_fresh, room_fresh. Qed.

Lemma delete_shorter {K V} `{EqDecision K} (m : OMap.t K V) k :
  is_Some (OMap.get k m) -> length (OMap.delete k m) < length m.
Proof.
  induction m as [|[k' v'] m IH]; cbn; [by intros []|].
  case_decide.
  - intros _. assert (length (OMap.delete k m) <= length m); [|lia].
    clear. induction m as [|[k1 v1] m IH]; cbn; [done|].
    case_decide; cbn; lia.
  - intros Hs. cbn. specialize (IH Hs). lia.
Qed.

(** X9.  After [set(path, v)] at time [now], [get(path)] at time [now']
    returns [v] while [now' - now] is at most the time-to-live, and
    afterwards returns undefined and deletes the entry. *)
Theorem cache_set_then_get now now' path v c :
  let c' := FileCache.set now path v c in
  fst (FileCache.get now' path c')
  = (if (now' - now >? FileCache.ttlMs c)%Z then None else Some v) /\
  ((now' - now > FileCache.ttlMs c)%Z ->
   OMap.get path (FileCache.cache (snd (FileCache.get now' path c'))) = None).
Proof.
  intros c'. unfold FileCache.get.
  replace (OMap.get path (FileCache.cache c'))
    with (Some {| FileCache.exists_ := v; FileCache.timestamp := now |})
    by (symmetry; apply set_get_same).
  change (FileCache.ttlMs c') with (FileCache.ttlMs c).
  cbn [FileCache.timestamp FileCache.exists_].
  destruct (Z.gtb_spec (now' - now) (FileCache.ttlMs c)); cbn.
  - split; [done|]. intros _. apply get_delete_eq.
  - split; [done|]. lia.
Qed.

(** X10.  A cache within its capacity stays within it after [set],
    provided the capacity is positive and the oldest key is not the
    empty string. *)
Theorem cache_within_capacity now path v c :
  0 < FileCache.maxSize c ->
  FileCache.size c <= FileCache.maxSize c ->
  head (OMap.keys (FileCache.cache c)) <> Some "" ->
  FileCache.size (FileCache.set now path v c) <= FileCache.maxSize c.
Proof.
  unfold FileCache.size, OMap.size. intros Hpos Hsize Hfirst.
  rewrite cache_set_eq, length_app. cbn [length FileCache.maxSize
    FileCache.set FileCache.with_cache].
  assert (length (room path c) < FileCache.maxSize c); [|lia].
  unfold room, OMap.has.
  destruct (OMap.get path (FileCache.cache c)) eqn:Hget.
  - assert (length (OMap.delete path (FileCache.cache c))
            < length (FileCache.cache c)); [|lia].
    apply delete_shorter. by eexists.
  - case_bool_decide as Hfull; unfold OMap.size in Hfull; [|lia].
    unfold FileCache.evict_first.
    destruct (FileCache.cache c) as [|[k0 e0] m] eqn:Hc.
    { cbn in Hfull. lia. }
    cbn [OMap.keys map fst]. cbn in Hfirst.
    case_bool_decide; [congruence|].
    assert (length (OMap.delete k0 ((k0, e0) :: m))
            < length ((k0, e0) :: m)); [|lia].
    apply delete_shorter. cbn. rewrite decide_True by done. by eexists.
Qed.

Lemma cache_within_capacity_witness :
  let c := FileCache.set 0 "b" true
             (FileCache.set 0 "a" true (FileCache.createFileCache 5000 2)) in
  FileCache.size (FileCache.set 1 "c" false c) <= FileCache.maxSize c.
Proof.
  intros c.
  apply (cache_within_capacity 1 "c" false c);
    [vm_compute; lia|vm_compute; lia|by vm_compute].
Defined.

(** X11.  When the oldest key is the empty string, [set] of a new path on
    a full cache evicts nothing: the entry is added and the cache grows. *)
Theorem cache_empty_key_blocks_eviction now path v c e m :
  FileCache.cache c = ("", e) :: m ->
  path ∉ OMap.keys (FileCache.cache c) ->
  FileCache.maxSize c <= FileCache.size c ->
  FileCache.cache (FileCache.set now path v c)
  = FileCache.cache c
    ++ [(path, {| FileCache.exists_ := v; FileCache.timestamp := now |})].
Proof.
  intros Hc Hpath Hfull. rewrite cache_set_eq. f_equal.
  unfold room, OMap.has. apply get_None_keys in Hpath. rewrite Hpath.
  rewrite bool_decide_eq_true_2 by done.
  unfold FileCache.evict_first. rewrite Hc. cbn [OMap.keys map fst].
  by rewrite bool_decide_eq_true_2.
Qed.

Lemma cache_empty_key_blocks_eviction_witness :
  let c := FileCache.set 0 "" true (FileCache.createFileCache 5000 1) in
  FileCache.size (FileCache.set 1 "a" true c) = 2.
Proof.
  intros c. unfold FileCache.size, OMap.size.
  rewrite (cache_empty_key_blocks_eviction 1 "a" true c
             {| FileCache.exists_ := true; FileCache.timestamp := 0 |} []);
    [done|done| |vm_compute; lia].
  vm_compute. set_solver.
Defined.

(** X12.  On a full cache whose oldest key is not the empty string, [set]
    of a new path removes the oldest entry, keeps every other entry in
    place, and puts the new entry last. *)
Theorem cache_evicts_oldest now path v c k0 e0 m :
  FileCache.cache c = (k0, e0) :: m ->
  k0 <> "" ->
  NoDup (OMap.keys (FileCache.cache c)) ->
  path ∉ OMap.keys (FileCache.cache c) ->
  FileCache.maxSize c <= FileCache.size c ->
  FileCache.cache (FileCache.set now path v c)
  = m ++ [(path, {| FileCache.exists_ := v; FileCache.timestamp := now |})].
Proof.
  intros Hc Hk0 Hnd Hpath Hfull. rewrite cache_set_eq. f_equal.
  unfold room, OMap.has. apply get_None_keys in Hpath. rewrite Hpath.
  rewrite bool_decide_eq_true_2 by done.
  unfold FileCache.evict_first. rewrite Hc in *. cbn [OMap.keys map fst] in *.
  rewrite bool_decide_eq_false_2 by done.
  cbn. rewrite decide_True by done.
  apply delete_fresh. by apply NoDup_cons in Hnd as [? _].
Qed.

Lemma cache_evicts_oldest_witness :
  let c := FileCache.set 0 "b" true
             (FileCache.set 0 "a" true (FileCache.createFileCache 5000 2)) in
  OMap.keys (FileCache.cache (FileCache.set 1 "c" false c)) = ["b"; "c"].
Proof.
  intros c.
  rewrite (cache_evicts_oldest 1 "c" false c "a"
             {| FileCache.exists_ := true; FileCache.timestamp := 0 |}
             [("b", {| FileCache.exists_ := true; FileCache.timestamp := 0 |})]);
    [done|done|done| | |vm_compute; lia].
  - vm_compute. repeat constructor; set_solver.
  - vm_compute. set_solver.
Defined.

Lemma keys_snoc {K V} (m : OMap.t K V) k v :
  OMap.keys (m ++ [(k, v)]) = OMap.keys m ++ [k].
Proof. apply map_app. Qed.

(** X13.  A [get] that finds a live entry leaves its path as the most
    recently used key, and so does every [set], whatever the cache held
    and whatever value is written. *)
Theorem cache_read_refreshes now path c :
  (forall v, fst (FileCache.get now path c) = Some v ->
     last (OMap.keys (FileCache.cache (snd (FileCache.get now path c))))
     = Some path) /\
  (forall now' v,
     last (OMap.keys (FileCache.cache (FileCache.set now' path v c)))
     = Some path).
Proof.
  split.
  - intros v Hhit. unfold FileCache.get in *.
    destruct (OMap.get path (FileCache.cache c)) as [e|]; [|done].
    destruct (now - FileCache.timestamp e >? FileCache.ttlMs c)%Z; [done|].
    cbn [snd FileCache.cache FileCache.with_cache].
    rewrite set_fresh by apply keys_delete_fresh.
    by rewrite keys_snoc, last_snoc.
  - intros now' v. by rewrite cache_set_eq, keys_snoc, last_snoc.
Qed.

Lemma cache_read_refreshes_witness :
  let c := FileCache.set 0 "b" true
             (FileCache.set 0 "a" true (FileCache.createFileCache 5000 2)) in
  last (OMap.keys (FileCache.cache (snd (FileCache.get 1 "a" c)))) = Some "a"
  /\
  last (OMap.keys (FileCache.cache (FileCache.set 1 "c" false c))) = Some "c".
Proof.
  intros c. split.
  - apply (proj1 (cache_read_refreshes 1 "a" c) true). by vm_compute.
  - apply (proj2 (cache_read_refreshes 1 "c" c) 1%Z false).
Defined.

(** X14.  A check whose path is cached resolves its promise at once with
    the cached value; it posts nothing and does not touch the collecting
    batch, the pending batches or the debounce timer. *)
Theorem cached_check_answers_at_once now path tid s v :
  fst (FileCache.get now path (fileCache s)) = Some v ->
  let o := handle now (CheckFileExists path tid) s in
  Eff.res o = Eff.Ok tt /\
  Eff.log o = [Resolve (nextPromise s) v] /\
  pendingBatches (Eff.st o) = pendingBatches s /\
  currentBatchCallbacks (Eff.st o) = currentBatchCallbacks s /\
  batchDebounceTimer (Eff.st o) = batchDebounceTimer s.
Proof.
  intros Hhit o. unfold o.
  apply (wp_elim (handle now (CheckFileExists path tid))
           (fun r s' l => r = Eff.Ok tt /\ l = _ /\ pendingBatches s' = _ /\
                          currentBatchCallbacks s' = _ /\
                          batchDebounceTimer s' = _)), wp_handle.
  destruct (FileCache.get now path (fileCache s)) as [[v'|] c]; [|done].
  cbn in Hhit. by simplify_eq.
Qed.

Lemma cached_check_answers_at_once_witness :
  let s := step 70 (BatchFileExistsResult 0 [("a", true)]) sealed_state in
  Eff.log (handle 80 (CheckFileExists "a" "T") s)
  = [Resolve (nextPromise s) true].
Proof.
  intros s.
  assert (Hhit : fst (FileCache.get 80 "a" (fileCache s)) = Some true)
    by by vm_compute.
  pose proof (cached_check_answers_at_once 80 "a" "T" s true Hhit) as H.
  cbv zeta in H. by destruct H as (_ & Hlog & _).
Defined.

Lemma timeout_log_elem_post (batch : Batch) m :
  PostMessage m ∈ timeout_log batch -> False /\ True.
Proof.
  unfold timeout_log. rewrite list_elem_of_In, in_flat_map.
  intros ([path cbs] & _ & Hr).
  by apply list_elem_of_In, list_elem_of_fmap in Hr as (cb & [=] & _).
Qed.

Lemma reply_log_elem_post (batch : Batch) results m :
  PostMessage m ∈ reply_log batch results -> False.
Proof.
  unfold reply_log. rewrite list_elem_of_In, in_flat_map.
  intros ([path v] & _ & Hr).
  destruct (OMap.get path batch); [|done].
  by apply list_elem_of_In, list_elem_of_fmap in Hr as (cb & [=] & _).
Qed.

(** X15.  In a reachable state a batch request is posted only when the
    debounce timer expires; it carries the id of the collecting batch,
    which no pending batch has, and the paths of that batch, at least
    one and each once; the batch is then pending under that id. *)
Theorem request_well_formed now e s tid b paths :
  reachable s ->
  PostMessage (batch_check_file_exists tid b paths) ∈ effects now e s ->
  e = DebounceFired /\
  b = currentBatchId s /\
  paths = OMap.keys (currentBatchCallbacks s) /\
  paths <> [] /\ NoDup paths /\
  OMap.get b (pendingBatches s) = None /\
  OMap.get b (pendingBatches (step now e s)) = Some (currentBatchCallbacks s).
Proof.
  intros Hr. pose proof (reachable_WInv _ Hr) as HI.
  unfold effects, step.
  apply (wp_elim (handle now e)
           (fun _ s' l => PostMessage _ ∈ l ->
              _ /\ _ /\ _ /\ _ /\ _ /\ _ /\ OMap.get b (pendingBatches s') = _)),
    wp_handle.
  destruct e as [path tid'| |b'|b' results].
  - destruct (FileCache.get now path (fileCache s)) as [[v|] c].
    + by intros [=]%list_elem_of_singleton.
    + by intros ?%elem_of_nil.
  - destruct (batchDebounceTimer s) as [tid'|]; [|by intros ?%elem_of_nil].
    destruct (OMap.size (currentBatchCallbacks s) =? 0) eqn:Hsize;
      [by intros ?%elem_of_nil|].
    intros [= -> -> ->]%list_elem_of_singleton.
    split_and!; try done.
    + intros Hnil. unfold OMap.size in Hsize.
      destruct (currentBatchCallbacks s); [done|]. done.
    + apply (w_keys s HI).
    + destruct (OMap.get (currentBatchId s) (pendingBatches s)) eqn:Hg;
        [|done].
      assert (currentBatchId s < currentBatchId s); [|lia].
      apply (w_lt s HI). by eexists.
    + cbn. apply get_set_eq.
  - destruct (bool_decide (b' ∈ batchTimeouts s)); [|by intros ?%elem_of_nil].
    destruct (OMap.get b' (pendingBatches s)) as [batch|];
      [|by intros ?%elem_of_nil].
    by intros (? & _)%timeout_log_elem_post.
  - destruct (OMap.get b' (pendingBatches s)) as [batch|];
      [|by intros ?%elem_of_nil].
    by intros ?%reply_log_elem_post.
Qed.

Lemma request_well_formed_witness :
  let s := step 0 (CheckFileExists "a" "T") initial in
  ["a"] <> [] /\ NoDup ["a"] /\ OMap.get 0 (pendingBatches s) = None.
Proof.
  intros s.
  assert (Hr : reachable s) by (apply reachable_step, reachable_initial).
  assert (Hin : PostMessage (batch_check_file_exists "T" 0 ["a"])
                ∈ effects 60 DebounceFired s).
  { assert (effects 60 DebounceFired s
            = [PostMessage (batch_check_file_exists "T" 0 ["a"])]) as ->
      by by vm_compute.
    by left. }
  destruct (request_well_formed 60 DebounceFired s "T" 0 ["a"] Hr Hin)
    as (_ & _ & _ & Hne & Hnd & Hfresh & _).
  by split_and!.
Defined.

Lemma reply_log_complete (ex : string -> bool) (batch sub : Batch) :
  (forall path cbs, (path, cbs) ∈ sub -> OMap.get path batch = Some cbs) ->
  reply_log batch (map (fun path => (path, ex path)) (OMap.keys sub))
  = answers ex sub.
Proof.
  unfold reply_log, answers.
  induction sub as [|[path cbs] sub IH]; intros Hsub; [done|].
  cbn [OMap.keys map fst flat_map].
  rewrite (Hsub path cbs) by left. f_equal.
  apply IH. intros. apply Hsub. by right.
Qed.

(** X16.  A reply that lists every path of a pending batch, as the
    extension builds it from the request, resolves every callback of the
    batch once, in batch order, with the answer for its path. *)
Theorem complete_reply_resolves_all now s b batch ex :
  reachable s ->
  OMap.get b (pendingBatches s) = Some batch ->
  let results := map (fun path => (path, ex path)) (OMap.keys batch) in
  effects now (BatchFileExistsResult b results) s = answers ex batch /\
  (forall path p, pend_at s b path p ->
     Resolve p (ex path) ∈ effects now (BatchFileExistsResult b results) s).
Proof.
  intros Hr Hb results. pose proof (reachable_WInv _ Hr) as HI.
  assert (Hlog : effects now (BatchFileExistsResult b results) s
                 = answers ex batch).
  { unfold effects. rewrite (reply_arrived now b batch results s Hb).
    cbn [Eff.log]. apply reply_log_complete.
    intros path cbs Hin. apply elem_get; [|done].
    by apply (w_pend_keys s HI b). }
  split; [exact Hlog|].
  intros path p (batch' & Hb' & cbs & Hget & Hp).
  assert (batch' = batch) as -> by congruence.
  rewrite Hlog. unfold answers.
  apply list_elem_of_In, in_flat_map. exists (path, cbs).
  split; [by apply list_elem_of_In, get_Some_elem|].
  apply list_elem_of_In, list_elem_of_fmap. eauto.
Qed.

Lemma complete_reply_resolves_all_witness :
  effects 70 (BatchFileExistsResult 0 [("a", true)]) sealed_state
  = [Resolve 0 true].
Proof.
  assert (Hb : OMap.get 0 (pendingBatches sealed_state) = Some [("a", [0])])
    by by vm_compute.
  exact (proj1 (complete_reply_resolves_all 70 sealed_state 0 [("a", [0])]
                  (fun _ => true) sealed_state_reachable Hb)).
Defined.

End WebviewFacts.

(** ** Settings, keys and paths *)

Module SettingsFacts.
Local Open Scope nat_scope.
Import SettingsResolver.

Lemma or_string_nonempty a b : b <> "" -> or_string a b <> "".
Proof.
  intros Hb. unfold or_string. destruct a as [s|]; [|done].
  destruct (String.eqb_spec s ""); done.
Qed.

Lemma or_nat_positive a b : 0 < b -> 0 < or_nat a b.
Proof. intros Hb. unfold or_nat. destruct a as [[|n]|]; lia. Qed.

(** X17.  Resolved display settings always carry a non-empty font family
    and a non-zero font size; a truthy ghostty value wins; when the
    ghostty value is missing, empty or zero a truthy editor value wins;
    when both are missing, empty or zero the result is monospace and
    15. *)
Theorem display_settings_never_falsy config :
  let settings := resolveDisplaySettings config in
  let unset_string (a : option string) := a = None \/ a = Some "" in
  let unset_number (a : option nat) := a = None \/ a = Some 0 in
  (exists family size,
      fontFamily settings = Some family /\ family <> "" /\
      fontSize settings = Some size /\ 0 < size) /\
  (forall s, get_string config "ghostty" "fontFamily" = Some s -> s <> "" ->
             fontFamily settings = Some s) /\
  (forall n, get_number config "ghostty" "fontSize" = Some (S n) ->
             fontSize settings = Some (S n)) /\
  (get_string config "ghostty" "fontFamily" = Some "" ->
   get_string config "editor" "fontFamily" = None ->
   fontFamily settings = Some "monospace") /\
  (get_number config "ghostty" "fontSize" = Some 0 ->
   get_number config "editor" "fontSize" = None ->
   fontSize settings = Some 15) /\
  (forall s, unset_string (get_string config "ghostty" "fontFamily") ->
             get_string config "editor" "fontFamily" = Some s -> s <> "" ->
             fontFamily settings = Some s) /\
  (forall n, unset_number (get_number config "ghostty" "fontSize") ->
             get_number config "editor" "fontSize" = Some (S n) ->
             fontSize settings = Some (S n)) /\
  (unset_string (get_string config "ghostty" "fontFamily") ->
   unset_string (get_string config "editor" "fontFamily") ->
   fontFamily settings = Some "monospace") /\
  (unset_number (get_number config "ghostty" "fontSize") ->
   unset_number (get_number config "editor" "fontSize") ->
   fontSize settings = Some 15).
Proof.
  intros settings unset_string unset_number.
  unfold settings, unset_string, unset_number, resolveDisplaySettings. cbn.
  split_and!.
  - eexists _, _. split_and!; [done| |done|].
    + by apply or_string_nonempty, or_string_nonempty.
    + apply or_nat_positive, or_nat_positive. lia.
  - intros s -> Hs. cbn. by destruct (String.eqb_spec s "").
  - by intros n ->.
  - by intros -> ->.
  - by intros -> ->.
  - intros s [-> | ->] -> Hs; cbn; by destruct (String.eqb_spec s "").
  - by intros n [-> | ->] ->.
  - by intros [-> | ->] [-> | ->].
  - by intros [-> | ->] [-> | ->].
Qed.
End SettingsFacts.

Module KeybindingFacts.
Import Keybinding.

(** X18.  [getKeyHandlerResult] never returns true.  On a Mac a key with
    Cmd bubbles and every other key gets default processing; elsewhere a
    key without Ctrl gets default processing, Ctrl+Shift bubbles, and
    Ctrl+C bubbles exactly when there is a selection. *)
Theorem key_never_claimed event isMac hasSelection :
  getKeyHandlerResult event isMac hasSelection <> handled /\
  (isMac = true -> metaKey event = true ->
   getKeyHandlerResult event isMac hasSelection = bubble) /\
  (isMac = true -> metaKey event = false ->
   getKeyHandlerResult event isMac hasSelection = default_processing) /\
  (isMac = false -> ctrlKey event = false ->
   getKeyHandlerResult event isMac hasSelection = default_processing) /\
  (isMac = false -> ctrlKey event = true -> shiftKey event = true ->
   getKeyHandlerResult event isMac hasSelection = bubble) /\
  (isMac = false -> ctrlKey event = true -> shiftKey event = false ->
   altKey event = false -> key event = JS.lit "c" ->
   getKeyHandlerResult event isMac hasSelection
   = if hasSelection then bubble else default_processing).
Proof.
  unfold getKeyHandlerResult. split_and!.
  - repeat case_match; done.
  - by intros -> ->.
  - intros -> ->. by repeat case_match.
  - by intros -> ->.
  - by intros -> -> ->.
  - intros -> -> -> -> ->. by destruct hasSelection.
Qed.
End KeybindingFacts.

Module PathFacts.
Import PathUtils.

Lemma starts_with_app p l rest :
  JS.starts_with p l = true -> JS.starts_with p (l ++ rest) = true.
Proof.
  revert l. induction p as [|c p IH]; intros l; [done|].
  destruct l as [|x l]; [done|]. cbn.
  intros [-> Hp]%andb_prop. by rewrite IH.
Qed.

Lemma drive_prefix_app path rest :
  drive_prefix path = true -> drive_prefix (path ++ rest) = true.
Proof. by destruct path as [|c [|d path]]. Qed.

Lemma isAbsolutePath_app path rest :
  isAbsolutePath path = true -> isAbsolutePath (path ++ rest) = true.
Proof.
  unfold isAbsolutePath. intros [H|H]%orb_prop.
  - by rewrite starts_with_app.
  - rewrite (drive_prefix_app _ _ H). apply orb_true_r.
Qed.

(** X19.  [resolvePath] returns an absolute path unchanged; with an
    absolute working directory its result is absolute and resolving it
    again changes nothing; without a working directory a relative path is
    only stripped of its git prefix. *)
Theorem resolvePath_absolute path cwd :
  (isAbsolutePath path = true -> resolvePath path cwd = path) /\
  (forall c, cwd = Some c -> isAbsolutePath c = true ->
     isAbsolutePath (resolvePath path cwd) = true /\
     forall cwd', resolvePath (resolvePath path cwd) cwd'
                  = resolvePath path cwd) /\
  (isAbsolutePath path = false -> cwd = None \/ cwd = Some [] ->
   resolvePath path cwd = stripGitDiffPrefix path).
Proof.
  split_and!.
  - intros Habs. unfold resolvePath. by rewrite Habs.
  - intros c -> Hc.
    assert (Hres : isAbsolutePath (resolvePath path (Some c)) = true).
    { unfold resolvePath. destruct (isAbsolutePath path) eqn:Hp; [done|].
      destruct c as [|x c]; [done|]. by apply isAbsolutePath_app. }
    split; [done|]. intros cwd'. unfold resolvePath at 1. by rewrite Hres.
  - intros Hrel [->| ->]; unfold resolvePath; by rewrite Hrel.
Qed.
End PathFacts.
